(** * A bounded LRU cache with key expiry, and its batch-refresh layer

    Shallow embedding of [lru_cache.py] (class [LRUCache]) and of
    [batch_refresh_cache.py] (class [BatchRefreshCache]).

    - A Python method that mutates [self] becomes a function from the
      object's state to the new state; a method that can raise returns
      in the [result] monad below.
    - [collections.OrderedDict] is an association list, oldest entry
      first, whose keys are pairwise distinct.
    - [datetime.datetime] and [datetime.timedelta] have microsecond
      resolution: both are integers counting microseconds.
    - Python's [float] is IEEE 754 binary64, as the Standard Library
      specifies it in [SpecFloat] ([prec = 53], [emax = 1024]):
      [timedelta.total_seconds()] is the quotient of the microseconds by
      [10^6] rounded to the nearest float, and the durations are compared
      as the code compares them, on these floats.  Only the derived
      statistic [hit_rate_percent] is kept as an exact rational.
    - Python integers are unbounded: counters are in [Z]. *)

From Stdlib Require Import List ZArith QArith Qreduction Lia Bool SpecFloat.
Import ListNotations.
Open Scope Z_scope.

Set Implicit Arguments.

(** ** Exceptions *)

Inductive exn : Type :=
| KeyError
| IndexError.

Inductive result (A : Type) : Type :=
| Ok (a : A)
| Raise (e : exn).

Arguments Ok {A} a.
Arguments Raise {A} e.

Definition bind {A B : Type} (m : result A) (f : A -> result B) : result B :=
  match m with
  | Ok a => f a
  | Raise e => Raise e
  end.

Notation "x <- m ;; k" := (bind m (fun x => k))
  (at level 61, m at next level, right associativity).

(** [for key in xs: body], the loop state threaded through the body. *)
Fixpoint for_each {S A : Type} (body : S -> A -> result S) (xs : list A) (s : S)
  : result S :=
  match xs with
  | [] => Ok s
  | x :: xs' => s' <- body s x ;; for_each body xs' s'
  end.

(** ** Time *)

Definition datetime : Type := Z.
Definition timedelta : Type := Z.

(** Python's [float]: a binary64 number. *)
Definition float : Type := spec_float.

(** A Python [int] as an operand of a float operation: the integer
    itself, not yet rounded. *)
Definition float_of_int (n : Z) : float :=
  match n with
  | Z0 => S754_zero false
  | Zpos p => S754_finite false p 0
  | Zneg p => S754_finite true p 0
  end.

(** [a / b] on two integers: the quotient, rounded once to the nearest
    float (ties to even). *)
Definition int_truediv (a b : Z) : float :=
  SFdiv 53 1024 (float_of_int a) (float_of_int b).

(** [a * b] on two floats. *)
Definition float_mul (a b : float) : float := SFmul 53 1024 a b.

(** [a > b] on two floats; it is [False] when one of them is a NaN. *)
Definition float_gt (a b : float) : bool :=
  match SFcompare a b with
  | Some Gt => true
  | _ => false
  end.

(** [timedelta.total_seconds()]: the microseconds divided by [10**6]. *)
Definition total_seconds (d : timedelta) : float := int_truediv d 1000000.

(** The float literals [0.5] and [2.0]. *)
Definition float_half : float := S754_finite false 4503599627370496 (-53).
Definition float_two : float := S754_finite false 4503599627370496 (-51).

(** [2^33] seconds, about 272 years, in microseconds.  The floats below
    [2^33] are less than a microsecond apart, so that shorter durations
    keep their order under [total_seconds()]; from [2^33] seconds on,
    two durations a microsecond apart can have the same float. *)
Definition resolution_limit : timedelta := 2 ^ 33 * 1000000.

(** ** collections.OrderedDict *)

Module OrderedDict.
Section Dict.
Variables K V : Type.
Variable K_eq_dec : forall x y : K, {x = y} + {x <> y}.

Definition t : Type := list (K * V).

Definition empty : t := [].

(** [d[key]], [None] where Python raises. *)
Fixpoint getitem (key : K) (d : t) : option V :=
  match d with
  | [] => None
  | (k, v) :: d' => if K_eq_dec key k then Some v else getitem key d'
  end.

(** [key in d] *)
Definition contains (key : K) (d : t) : bool :=
  match getitem key d with
  | Some _ => true
  | None => false
  end.

Fixpoint delitem (key : K) (d : t) : t :=
  match d with
  | [] => []
  | (k, v) :: d' =>
      if K_eq_dec key k then delitem key d' else (k, v) :: delitem key d'
  end.

(** [d[key] = v]: a key already held keeps its place, a new key goes
    to the end. *)
Fixpoint setitem (key : K) (v : V) (d : t) : t :=
  match d with
  | [] => [(key, v)]
  | (k, v') :: d' =>
      if K_eq_dec key k then (key, v) :: d' else (k, v') :: setitem key v d'
  end.

(** [d.move_to_end(key)] *)
Definition move_to_end (key : K) (d : t) : result t :=
  match getitem key d with
  | Some v => Ok (delitem key d ++ [(key, v)])
  | None => Raise KeyError
  end.

(** [d.popitem(last=False)] *)
Definition popitem_first (d : t) : result ((K * V) * t) :=
  match d with
  | [] => Raise KeyError
  | e :: d' => Ok (e, d')
  end.

Definition len (d : t) : Z := Z.of_nat (length d).

Definition keys (d : t) : list K := map fst d.

End Dict.
End OrderedDict.

(** ** class LRUCache *)

Module LRUCache.
Section Cache.
Variable K : Type.
Variable K_eq_dec : forall x y : K, {x = y} + {x <> y}.

(** A cache entry is the pair [(0, timestamp)]. *)
Definition entry : Type := (Z * datetime)%type.

Record t : Type := mk {
  max_size : Z;
  ttl : timedelta;
  ttl_seconds : float;
  cache : OrderedDict.t K entry;
  hits : Z;
  misses : Z;
  bulk_misses : Z;
  evictions : Z;
  expirations : Z
}.

Definition with_cache (self : t) (d : OrderedDict.t K entry) : t :=
  mk (max_size self) (ttl self) (ttl_seconds self) d (hits self)
     (misses self) (bulk_misses self) (evictions self) (expirations self).

Definition with_hits (self : t) (n : Z) : t :=
  mk (max_size self) (ttl self) (ttl_seconds self) (cache self) n
     (misses self) (bulk_misses self) (evictions self) (expirations self).

Definition with_misses (self : t) (n : Z) : t :=
  mk (max_size self) (ttl self) (ttl_seconds self) (cache self) (hits self)
     n (bulk_misses self) (evictions self) (expirations self).

Definition with_bulk_misses (self : t) (n : Z) : t :=
  mk (max_size self) (ttl self) (ttl_seconds self) (cache self) (hits self)
     (misses self) n (evictions self) (expirations self).

Definition with_evictions (self : t) (n : Z) : t :=
  mk (max_size self) (ttl self) (ttl_seconds self) (cache self) (hits self)
     (misses self) (bulk_misses self) n (expirations self).

Definition with_expirations (self : t) (n : Z) : t :=
  mk (max_size self) (ttl self) (ttl_seconds self) (cache self) (hits self)
     (misses self) (bulk_misses self) (evictions self) n.

(** [__init__]: the fields are stored as given, nothing is checked. *)
Definition init (max_size : Z) (ttl : timedelta) : result t :=
  Ok (mk max_size ttl (total_seconds ttl) (OrderedDict.empty K entry)
         0 0 0 0 0).

Definition _is_expired_at_time (self : t) (cache_timestamp request_time : datetime)
  : bool :=
  float_gt (total_seconds (request_time - cache_timestamp)) (ttl_seconds self).

(** Body of the loop of [_add_keys_to_cache]. *)
Definition add_key (timestamp : datetime) (self : t) (key : K) : result t :=
  self1 <- (if OrderedDict.len (cache self) >=? max_size self then
              p <- OrderedDict.popitem_first (cache self) ;;
              Ok (with_evictions (with_cache self (snd p)) (evictions self + 1))
            else Ok self) ;;
  Ok (with_cache self1 (OrderedDict.setitem K_eq_dec key (0, timestamp) (cache self1))).

Definition _add_keys_to_cache (self : t) (keys : list K) (timestamp : datetime)
  : result t :=
  for_each (add_key timestamp) keys self.

(** State of the first loop of [get]: the object and the three local
    lists. *)
Record scan : Type := mk_scan {
  scan_self : t;
  results : list Z;
  missing_keys : list K;
  expired_keys : list K
}.

(** Body of the first loop of [get]. *)
Definition scan_key (request_time : datetime) (st : scan) (key : K) : result scan :=
  let self := scan_self st in
  match OrderedDict.getitem K_eq_dec key (cache self) with
  | Some (_, timestamp) =>
      if _is_expired_at_time self timestamp request_time then
        Ok (mk_scan self (results st ++ [0]) (missing_keys st)
                    (expired_keys st ++ [key]))
      else
        d <- OrderedDict.move_to_end K_eq_dec key (cache self) ;;
        Ok (mk_scan (with_hits (with_cache self d) (hits self + 1))
                    (results st ++ [0]) (missing_keys st) (expired_keys st))
  | None =>
      Ok (mk_scan self (results st ++ [0]) (missing_keys st ++ [key])
                  (expired_keys st))
  end.

(** Body of the loop over [expired_keys] in [get]. *)
Definition reinsert_expired (request_time : datetime) (self : t) (key : K)
  : result t :=
  let d := OrderedDict.setitem K_eq_dec key (0, request_time) (cache self) in
  d' <- OrderedDict.move_to_end K_eq_dec key d ;;
  Ok (with_expirations (with_cache self d') (expirations self + 1)).

(** The branch that the body of the first loop takes for [key], read
    off the three cases of [scan_key]. *)
Inductive branch : Type :=
| Missing
| Expired
| Hit.

Definition branch_of (self : t) (request_time : datetime) (key : K) : branch :=
  match OrderedDict.getitem K_eq_dec key (cache self) with
  | Some (_, timestamp) =>
      if _is_expired_at_time self timestamp request_time then Expired else Hit
  | None => Missing
  end.

Definition is_missing (self : t) (request_time : datetime) (key : K) : bool :=
  match branch_of self request_time key with Missing => true | _ => false end.

Definition is_expired (self : t) (request_time : datetime) (key : K) : bool :=
  match branch_of self request_time key with Expired => true | _ => false end.

Definition is_hit (self : t) (request_time : datetime) (key : K) : bool :=
  match branch_of self request_time key with Hit => true | _ => false end.

(** [get(keys, request_time)]; [now] is what [datetime.datetime.now()]
    reads when [request_time] is [None]. *)
Definition get (now : datetime) (self : t) (keys : list K)
           (request_time : option datetime) : result (list Z * t) :=
  match keys with
  | [] => Ok ([], self)
  | _ :: _ =>
      let request_time :=
        match request_time with Some rt => rt | None => now end in
      st <- for_each (scan_key request_time) keys (mk_scan self [] [] []) ;;
      let self := scan_self st in
      let all_missing_keys := missing_keys st ++ expired_keys st in
      match all_missing_keys with
      | [] => Ok (results st, self)
      | _ :: _ =>
          self <- for_each (reinsert_expired request_time) (expired_keys st) self ;;
          self <- (match missing_keys st with
                   | [] => Ok self
                   | _ :: _ => _add_keys_to_cache self (missing_keys st) request_time
                   end) ;;
          let self :=
            with_misses self (misses self + Z.of_nat (length all_missing_keys)) in
          let self := with_bulk_misses self (bulk_misses self + 1) in
          Ok (results st, self)
      end
  end.

(** [get_single] *)
Definition get_single (now : datetime) (self : t) (key : K)
           (request_time : option datetime) : result (Z * t) :=
  p <- get now self [key] request_time ;;
  match fst p with
  | r :: _ => Ok (r, snd p)
  | [] => Raise IndexError
  end.

(** The two derived fields of [get_stats].  [hit_rate_percent] is kept
    as the exact value of the formula: its division and its product are
    not rounded to a float. *)
Definition total_requests (self : t) : Z := hits self + misses self.

Definition hit_rate_percent (self : t) : Q :=
  if total_requests self >? 0 then
    (inject_Z (hits self) / inject_Z (total_requests self)) * 100
  else 0.

Definition size (self : t) : Z := OrderedDict.len (cache self).

(** [_add_to_cache(key, timestamp)]; [now] is the clock reading used
    when [timestamp] is [None]. *)
Definition _add_to_cache (now : datetime) (self : t) (key : K)
           (timestamp : option datetime) : result t :=
  let timestamp := match timestamp with Some ts => ts | None => now end in
  _add_keys_to_cache self [key] timestamp.

(** The dictionary that [get_stats] returns, one field per key. *)
Record stats : Type := mk_stats {
  stats_hits : Z;
  stats_misses : Z;
  stats_bulk_misses : Z;
  stats_total_requests : Z;
  stats_hit_rate_percent : Q;
  stats_evictions : Z;
  stats_expirations : Z;
  stats_current_size : Z;
  stats_max_size : Z;
  stats_ttl : timedelta
}.

Definition get_stats (self : t) : stats :=
  mk_stats (hits self) (misses self) (bulk_misses self) (total_requests self)
           (hit_rate_percent self) (evictions self) (expirations self)
           (OrderedDict.len (cache self)) (max_size self) (ttl self).

(** [clear()] *)
Definition clear (self : t) : t :=
  mk (max_size self) (ttl self) (ttl_seconds self) (OrderedDict.empty K entry)
     0 0 0 0 0.

(** What [__init__] sets up and every method keeps: the dictionary
    holds each key once, and [ttl_seconds] is [ttl] in seconds. *)
Definition wf (self : t) : Prop :=
  NoDup (OrderedDict.keys (cache self)) /\
  ttl_seconds self = total_seconds (ttl self).

End Cache.
End LRUCache.

(** ** class BatchRefreshCache(LRUCache) *)

Module BatchRefreshCache.
Section Cache.
Variable K : Type.
Variable K_eq_dec : forall x y : K, {x = y} + {x <> y}.

(** The inherited fields are the [base] object. *)
Record t : Type := mk {
  base : LRUCache.t K;
  half_ttl : float;
  max_request_size : Z;
  half_ttl_seconds : float;
  refresh_batch : list K;
  batch_updates : Z
}.

Definition with_base (self : t) (b : LRUCache.t K) : t :=
  mk b (half_ttl self) (max_request_size self) (half_ttl_seconds self)
     (refresh_batch self) (batch_updates self).

Definition with_refresh_batch (self : t) (q : list K) : t :=
  mk (base self) (half_ttl self) (max_request_size self)
     (half_ttl_seconds self) q (batch_updates self).

Definition with_batch_updates (self : t) (n : Z) : t :=
  mk (base self) (half_ttl self) (max_request_size self)
     (half_ttl_seconds self) (refresh_batch self) n.

(** [__init__]: as in the base class, nothing is checked. *)
Definition init (max_size : Z) (ttl : timedelta) (half_ttl : float)
           (max_request_size : Z) : result t :=
  b <- LRUCache.init K max_size ttl ;;
  Ok (mk b half_ttl max_request_size (float_mul (total_seconds ttl) half_ttl) [] 0).

Definition _is_near_expiration (self : t) (cache_timestamp request_time : datetime)
  : bool :=
  let age := total_seconds (request_time - cache_timestamp) in
  float_gt age (half_ttl_seconds self).

(** Body of the loop of [_process_refresh_batch]. *)
Definition refresh_key (request_time : datetime) (b : LRUCache.t K) (key : K)
  : result (LRUCache.t K) :=
  if OrderedDict.contains K_eq_dec key (LRUCache.cache b) then
    let d := OrderedDict.setitem K_eq_dec key (0, request_time) (LRUCache.cache b) in
    d' <- OrderedDict.move_to_end K_eq_dec key d ;;
    Ok (LRUCache.with_cache b d')
  else Ok b.

Definition _process_refresh_batch (self : t) (request_time : datetime) : result t :=
  if Z.of_nat (length (refresh_batch self)) >=? max_request_size self then
    b <- for_each (refresh_key request_time) (refresh_batch self) (base self) ;;
    let self := with_base self b in
    let self := with_batch_updates self (batch_updates self + 1) in
    Ok (with_refresh_batch self [])
  else Ok self.

(** Body of the first loop of [get]; [self.refresh_batch] is not
    touched before the loop ends. *)
Definition near_key (self : t) (request_time : datetime)
           (near_expired_keys : list K) (key : K) : list K :=
  match OrderedDict.getitem K_eq_dec key (LRUCache.cache (base self)) with
  | Some (_, timestamp) =>
      if negb (LRUCache._is_expired_at_time (base self) timestamp request_time) then
        if _is_near_expiration self timestamp request_time then
          if in_dec K_eq_dec key (refresh_batch self) then near_expired_keys
          else near_expired_keys ++ [key]
        else near_expired_keys
      else near_expired_keys
  | None => near_expired_keys
  end.

Definition get (now : datetime) (self : t) (keys : list K)
           (request_time : option datetime) : result (list Z * t) :=
  match keys with
  | [] => Ok ([], self)
  | _ :: _ =>
      let request_time :=
        match request_time with Some rt => rt | None => now end in
      let near_expired_keys := fold_left (near_key self request_time) keys [] in
      let self := with_refresh_batch self (refresh_batch self ++ near_expired_keys) in
      p <- LRUCache.get K_eq_dec now (base self) keys (Some request_time) ;;
      self <- _process_refresh_batch (with_base self (snd p)) request_time ;;
      Ok (fst p, self)
  end.

(** [_add_keys_to_cache], inherited: it works on the fields of the base
    class. *)
Definition _add_keys_to_cache (self : t) (keys : list K) (timestamp : datetime)
  : result t :=
  b <- LRUCache._add_keys_to_cache K_eq_dec (base self) keys timestamp ;;
  Ok (with_base self b).

(** The dictionary that [get_stats] returns: the one of the base class,
    updated with four more keys. *)
Record stats : Type := mk_stats {
  stats_base : LRUCache.stats;
  stats_batch_updates : Z;
  stats_refresh_batch_size : Z;
  stats_half_ttl : float;
  stats_max_request_size : Z
}.

Definition get_stats (self : t) : stats :=
  mk_stats (LRUCache.get_stats (base self)) (batch_updates self)
           (Z.of_nat (length (refresh_batch self))) (half_ttl self)
           (max_request_size self).

(** [clear()] *)
Definition clear (self : t) : t :=
  let self := with_base self (LRUCache.clear (base self)) in
  let self := with_batch_updates self 0 in
  with_refresh_batch self [].

End Cache.
End BatchRefreshCache.

(** ** Sequences of calls *)

(** One [get] call: the clock reading, the key list and the
    [request_time] argument. *)
Record call (K : Type) : Type := mk_call {
  call_now : datetime;
  call_keys : list K;
  call_time : option datetime
}.

Section Runs.
Variable K : Type.
Variable K_eq_dec : forall x y : K, {x = y} + {x <> y}.

Definition lru_call (self : LRUCache.t K) (c : call K) : result (LRUCache.t K) :=
  p <- LRUCache.get K_eq_dec (call_now c) self (call_keys c) (call_time c) ;;
  Ok (snd p).

Definition batch_call (self : BatchRefreshCache.t K) (c : call K)
  : result (BatchRefreshCache.t K) :=
  p <- BatchRefreshCache.get K_eq_dec (call_now c) self (call_keys c) (call_time c) ;;
  Ok (snd p).

Definition lru_run (self : LRUCache.t K) (cs : list (call K)) : result (LRUCache.t K) :=
  for_each lru_call cs self.

Definition batch_run (self : BatchRefreshCache.t K) (cs : list (call K))
  : result (BatchRefreshCache.t K) :=
  for_each batch_call cs self.
End Runs.

(** ** test_cache_comparison.py: the function [test_cache] *)

(** What [test_cache] asks of its [cache] argument: the two methods it
    calls.  Both cache classes provide them. *)
Record cache_like (K C : Type) : Type := mk_cache_like {
  cl_add_keys : C -> list K -> datetime -> result C;
  cl_get : C -> list K -> datetime -> result (list Z * C)
}.

Section Harness.
Variable K : Type.
Variable K_eq_dec : forall x y : K, {x = y} + {x <> y}.

(** [request_time] is always given, so the clock is not read; the
    request time stands in for it. *)
Definition lru_cache_like : cache_like K (LRUCache.t K) :=
  mk_cache_like
    (fun c keys dt => LRUCache._add_keys_to_cache K_eq_dec c keys dt)
    (fun c keys dt => LRUCache.get K_eq_dec dt c keys (Some dt)).

Definition batch_cache_like : cache_like K (BatchRefreshCache.t K) :=
  mk_cache_like
    (fun c keys dt => BatchRefreshCache._add_keys_to_cache K_eq_dec c keys dt)
    (fun c keys dt => BatchRefreshCache.get K_eq_dec dt c keys (Some dt)).

(** A bullet: the key list and the POSIX timestamp of a request.  The
    type [T] of POSIX timestamps and [datetime.fromtimestamp] are left
    open. *)
Variable T : Type.
Variable fromtimestamp : T -> datetime.

Record bullet : Type := mk_bullet {
  bullet_keys : list K;
  bullet_timestamp : T
}.

(** The inner loop of [test_cache]: the keys that were in no earlier
    bullet.  The set [already_presented_bullets] is only asked for
    membership and extended; a list of its members stands for it. *)
Definition first_time_bullets (already_presented_bullets : list K) (keys : list K)
  : list K :=
  fold_left
    (fun first_time key =>
       if in_dec K_eq_dec key already_presented_bullets then first_time
       else first_time ++ [key])
    keys [].

(** Body of the outer loop of [test_cache]. *)
Definition test_cache_step (C : Type) (ops : cache_like K C)
           (st : list K * C) (b : bullet) : result (list K * C) :=
  let (already_presented_bullets, cache) := st in
  let dt := fromtimestamp (bullet_timestamp b) in
  let first_time := first_time_bullets already_presented_bullets (bullet_keys b) in
  let already_presented_bullets := already_presented_bullets ++ first_time in
  cache <- cl_add_keys ops cache first_time dt ;;
  p <- cl_get ops cache (bullet_keys b) dt ;;
  Ok (already_presented_bullets, snd p).

(** [test_cache(cache, bullets)]; the model returns the cache as the
    loop leaves it. *)
Definition test_cache (C : Type) (ops : cache_like K C) (cache : C)
           (bullets : list bullet) : result C :=
  st <- for_each (test_cache_step ops) bullets ([], cache) ;;
  Ok (snd st).

End Harness.

(** ** Notions used in the statements *)

Section Notions.
Variable K : Type.
Variable K_eq_dec : forall x y : K, {x = y} + {x <> y}.

(** The queue as [BatchRefreshCache.get] leaves it for
    [_process_refresh_batch]: [self.refresh_batch] extended by the
    local list [near_expired_keys]. *)
Definition enqueued (self : BatchRefreshCache.t K) (keys : list K)
           (rt : datetime) : list K :=
  BatchRefreshCache.refresh_batch self ++
  fold_left (BatchRefreshCache.near_key K_eq_dec self rt) keys [].

(** How a dictionary [d] relates to the dictionary [c] it came from
    when the keys of the queue [q] were refreshed at [rt]: a queued key
    that is held has the request time, a key that is not held stays
    out, the other entries are as they were, and the refreshed entries
    stand behind all others. *)
Definition refreshed (rt : datetime) (q : list K)
           (c d : OrderedDict.t K LRUCache.entry) : Prop :=
  (forall k, In k q -> OrderedDict.getitem K_eq_dec k c <> None ->
             OrderedDict.getitem K_eq_dec k d = Some (0, rt))
  /\ (forall k, OrderedDict.getitem K_eq_dec k c = None ->
                OrderedDict.getitem K_eq_dec k d = None)
  /\ (forall k, ~ In k q ->
                OrderedDict.getitem K_eq_dec k d = OrderedDict.getitem K_eq_dec k c)
  /\ exists tail,
      d = filter (fun e => if in_dec K_eq_dec (fst e) q then false else true) c
          ++ tail /\
      Forall (fun e => In (fst e) q /\ snd e = (0, rt)) tail.
(** The counters of an object that only [get] has worked on: none is
    negative, an expiration and a bulk miss each come with a miss, and
    the entries held or evicted were all inserted by a miss that was not
    an expiration. *)
Definition counters_consistent (self : LRUCache.t K) : Prop :=
  0 <= LRUCache.hits self /\
  0 <= LRUCache.expirations self /\
  LRUCache.expirations self <= LRUCache.misses self /\
  0 <= LRUCache.bulk_misses self /\
  LRUCache.bulk_misses self <= LRUCache.misses self /\
  0 <= LRUCache.evictions self /\
  LRUCache.size self + LRUCache.evictions self <=
  LRUCache.misses self - LRUCache.expirations self.

(** The number of keys passed to [get] by a sequence of calls. *)
Definition keys_requested (cs : list (call K)) : Z :=
  Z.of_nat (length (concat (map (@call_keys K) cs))).
End Notions.

(** ** Sample objects, with integer keys *)

(** [datetime.timedelta(seconds=n)] *)
Definition seconds (n : Z) : timedelta := n * 1000000.

(** [LRUCache(max_size=3, ttl=timedelta(seconds=10))] after
    [get([1, 2], t0)], with [t0] the origin of time. *)
Definition sample_cache : LRUCache.t Z :=
  LRUCache.mk 3 (seconds 10) (total_seconds (seconds 10))
              [(1, (0, 0)); (2, (0, 0))] 0 2 1 0 0.

(** [BatchRefreshCache(max_size=3, ttl=timedelta(seconds=10), half_ttl=0.5,
    max_request_size=2)] after [get([1, 2, 3], t0)], [get([4], t0 + 1s)],
    [get([2], t0 + 5s)] and [get([2], t0 + 6s)]: key 2 is queued. *)
Definition sample_batch : BatchRefreshCache.t Z :=
  BatchRefreshCache.mk
    (LRUCache.mk 3 (seconds 10) (total_seconds (seconds 10))
                 [(3, (0, 0)); (4, (0, seconds 1)); (2, (0, 0))] 2 4 2 1 0)
    float_half 2 (float_mul (total_seconds (seconds 10)) float_half) [2] 0.

(** What the delegated lookup of [get([3], t0 + 7s)] leaves of the base
    object of [sample_batch]: a hit on key 3. *)
Definition sample_delegated : LRUCache.t Z :=
  LRUCache.mk 3 (seconds 10) (total_seconds (seconds 10))
              [(4, (0, seconds 1)); (2, (0, 0)); (3, (0, 0))] 3 4 2 1 0.

(** * Facts about the ordered dictionary *)

Section OrderedDictFacts.
Variables K V : Type.
Variable K_eq_dec : forall x y : K, {x = y} + {x <> y}.

Local Abbreviation dict := (OrderedDict.t K V).
Local Abbreviation getitem := (OrderedDict.getitem K_eq_dec).
Local Abbreviation delitem := (OrderedDict.delitem K_eq_dec).
Local Abbreviation setitem := (OrderedDict.setitem K_eq_dec).
Local Abbreviation move_to_end := (OrderedDict.move_to_end K_eq_dec).

Lemma getitem_app (k : K) (d1 d2 : dict) :
  getitem k (d1 ++ d2) =
  match getitem k d1 with Some v => Some v | None => getitem k d2 end.
Proof.
  induction d1 as [|[k' v'] d1 IH]; simpl; [reflexivity|].
  destruct (K_eq_dec k k'); auto.
Qed.

Lemma getitem_delitem (k k' : K) (d : dict) :
  getitem k' (delitem k d) = if K_eq_dec k' k then None else getitem k' d.
Proof.
  induction d as [|[k0 v0] d IH]; simpl.
  - destruct (K_eq_dec k' k); reflexivity.
  - destruct (K_eq_dec k k0) as [->|Hk]; simpl.
    + rewrite IH. destruct (K_eq_dec k' k0); reflexivity.
    + rewrite IH. destruct (K_eq_dec k' k0) as [->|]; [|reflexivity].
      destruct (K_eq_dec k0 k); congruence.
Qed.

Lemma getitem_setitem (k k' : K) (v : V) (d : dict) :
  getitem k' (setitem k v d) = if K_eq_dec k' k then Some v else getitem k' d.
Proof.
  induction d as [|[k0 v0] d IH]; simpl.
  - reflexivity.
  - destruct (K_eq_dec k k0) as [->|Hk]; simpl.
    + destruct (K_eq_dec k' k0); reflexivity.
    + rewrite IH. destruct (K_eq_dec k' k0) as [->|]; [|reflexivity].
      destruct (K_eq_dec k0 k); congruence.
Qed.

Lemma getitem_In (k : K) (v : V) (d : dict) :
  getitem k d = Some v -> In (k, v) d.
Proof.
  induction d as [|[k0 v0] d IH]; simpl; [discriminate|].
  destruct (K_eq_dec k k0) as [->|]; intros H.
  - left. congruence.
  - right. auto.
Qed.

Lemma getitem_None (k : K) (d : dict) :
  getitem k d = None <-> ~ In k (OrderedDict.keys d).
Proof.
  induction d as [|[k0 v0] d IH]; simpl.
  - tauto.
  - destruct (K_eq_dec k k0) as [->|Hk].
    + split; [discriminate|]. intros H. exfalso. apply H. now left.
    + rewrite IH. split; intros H; [intros [E|E]; [congruence|tauto]|tauto].
Qed.

Lemma getitem_NoDup (k : K) (v : V) (d : dict) :
  NoDup (OrderedDict.keys d) -> In (k, v) d -> getitem k d = Some v.
Proof.
  induction d as [|[k0 v0] d IH]; simpl; [tauto|].
  intros Hnd [E|E]; inversion Hnd as [|? ? Hnotin Hnd']; subst.
  - inversion E; subst. destruct (K_eq_dec k k); congruence.
  - destruct (K_eq_dec k k0) as [->|]; [|auto].
    exfalso. apply Hnotin. change k0 with (fst (k0, v)). now apply in_map.
Qed.

Lemma delitem_filter (k : K) (d : dict) :
  delitem k d = filter (fun e => if K_eq_dec k (fst e) then false else true) d.
Proof.
  induction d as [|[k0 v0] d IH]; simpl; [reflexivity|].
  destruct (K_eq_dec k k0); rewrite IH; reflexivity.
Qed.

Lemma delitem_app (k : K) (d1 d2 : dict) :
  delitem k (d1 ++ d2) = delitem k d1 ++ delitem k d2.
Proof. rewrite !delitem_filter. apply filter_app. Qed.

Lemma delitem_absent (k : K) (d : dict) :
  getitem k d = None -> delitem k d = d.
Proof.
  induction d as [|[k0 v0] d IH]; simpl; [reflexivity|].
  destruct (K_eq_dec k k0); [discriminate|]. intros H. now rewrite IH.
Qed.

Lemma delitem_setitem (k : K) (v : V) (d : dict) :
  delitem k (setitem k v d) = delitem k d.
Proof.
  induction d as [|[k0 v0] d IH]; simpl.
  - destruct (K_eq_dec k k); congruence.
  - destruct (K_eq_dec k k0) as [->|Hk]; simpl.
    + destruct (K_eq_dec k0 k0); congruence.
    + destruct (K_eq_dec k k0); [congruence|]. now rewrite IH.
Qed.

Lemma setitem_absent (k : K) (v : V) (d : dict) :
  getitem k d = None -> setitem k v d = d ++ [(k, v)].
Proof.
  induction d as [|[k0 v0] d IH]; simpl; [reflexivity|].
  destruct (K_eq_dec k k0); [discriminate|]. intros H. now rewrite IH.
Qed.

Lemma keys_setitem_present (k : K) (v : V) (d : dict) :
  getitem k d <> None -> OrderedDict.keys (setitem k v d) = OrderedDict.keys d.
Proof.
  induction d as [|[k0 v0] d IH]; simpl; [congruence|].
  destruct (K_eq_dec k k0) as [->|]; simpl; [reflexivity|].
  intros H. now rewrite IH.
Qed.

Lemma length_setitem_present (k : K) (v : V) (d : dict) :
  getitem k d <> None -> length (setitem k v d) = length d.
Proof.
  intros H. rewrite <- (length_map fst (setitem k v d)), <- (length_map fst d).
  f_equal. now apply keys_setitem_present.
Qed.

Lemma length_setitem_le (k : K) (v : V) (d : dict) :
  (length (setitem k v d) <= S (length d))%nat.
Proof.
  induction d as [|[k0 v0] d IH]; simpl; [lia|].
  destruct (K_eq_dec k k0); simpl; lia.
Qed.

Lemma length_delitem_le (k : K) (d : dict) :
  (length (delitem k d) <= length d)%nat.
Proof. rewrite delitem_filter. apply filter_length_le. Qed.

Lemma length_delitem_present (k : K) (d : dict) :
  getitem k d <> None -> (S (length (delitem k d)) <= length d)%nat.
Proof.
  induction d as [|[k0 v0] d IH]; simpl; [congruence|].
  destruct (K_eq_dec k k0) as [->|]; simpl.
  - intros _. pose proof (length_delitem_le k0 d). lia.
  - intros H. apply IH in H. lia.
Qed.

Lemma keys_delitem_incl (k k' : K) (d : dict) :
  In k' (OrderedDict.keys (delitem k d)) -> In k' (OrderedDict.keys d) /\ k' <> k.
Proof.
  induction d as [|[k0 v0] d IH]; simpl; [tauto|].
  destruct (K_eq_dec k k0) as [->|Hk]; simpl.
  - intros H. apply IH in H. tauto.
  - intros [E|E]; [subst; split; [now left|congruence]|].
    apply IH in E. tauto.
Qed.

Lemma NoDup_delitem (k : K) (d : dict) :
  NoDup (OrderedDict.keys d) -> NoDup (OrderedDict.keys (delitem k d)).
Proof.
  induction d as [|[k0 v0] d IH]; simpl; [auto|].
  intros Hnd. inversion Hnd as [|? ? Hnotin Hnd']; subst.
  destruct (K_eq_dec k k0); simpl; [auto|].
  constructor; [|auto].
  intros H. apply keys_delitem_incl in H. tauto.
Qed.

Lemma NoDup_setitem (k : K) (v : V) (d : dict) :
  NoDup (OrderedDict.keys d) -> NoDup (OrderedDict.keys (setitem k v d)).
Proof.
  intros Hnd. destruct (getitem k d) eqn:E.
  - rewrite keys_setitem_present; [assumption|congruence].
  - rewrite setitem_absent by assumption.
    unfold OrderedDict.keys. rewrite map_app. simpl.
    apply NoDup_app; [assumption|repeat constructor; simpl; tauto|].
    intros x Hx [<-|[]]. now apply getitem_None in E.
Qed.

Lemma NoDup_move (k : K) (v : V) (d : dict) :
  NoDup (OrderedDict.keys d) ->
  NoDup (OrderedDict.keys (delitem k d ++ [(k, v)])).
Proof.
  intros Hnd. unfold OrderedDict.keys. rewrite map_app. simpl.
  apply NoDup_app; [now apply NoDup_delitem|repeat constructor; simpl; tauto|].
  intros x Hx [<-|[]]. apply keys_delitem_incl in Hx. tauto.
Qed.

Lemma getitem_tail (k : K) (e : K * V) (d : dict) :
  NoDup (OrderedDict.keys (e :: d)) ->
  getitem k d = if K_eq_dec k (fst e) then None else getitem k (e :: d).
Proof.
  destruct e as [k0 v0]. simpl. intros Hnd.
  inversion Hnd as [|? ? Hnotin _]; subst.
  destruct (K_eq_dec k k0) as [->|]; [|reflexivity].
  now apply getitem_None.
Qed.

(** [move_to_end] on a key that is held. *)
Lemma move_to_end_present (k : K) (v : V) (d : dict) :
  getitem k d = Some v -> move_to_end k d = Ok (delitem k d ++ [(k, v)]).
Proof. unfold OrderedDict.move_to_end. now intros ->. Qed.

Lemma getitem_move (k k' : K) (v : V) (d : dict) :
  getitem k d = Some v -> getitem k' (delitem k d ++ [(k, v)]) = getitem k' d.
Proof.
  intros H. rewrite getitem_app, getitem_delitem. simpl.
  destruct (K_eq_dec k' k) as [->|]; [now rewrite H|].
  now destruct (getitem k' d).
Qed.

End OrderedDictFacts.

(** * Facts about loops *)

Section ForEach.
Variables S A : Type.
Variable body : S -> A -> result S.

Lemma for_each_app (xs ys : list A) (s : S) :
  for_each body (xs ++ ys) s = (s' <- for_each body xs s ;; for_each body ys s').
Proof.
  revert s. induction xs as [|x xs IH]; intros s; simpl; [reflexivity|].
  destruct (body s x); simpl; auto.
Qed.

(** A loop whose body keeps an invariant and never raises while the
    invariant holds runs to its end. *)
Lemma for_each_inv (P : S -> Prop) (xs : list A) :
  (forall s x, In x xs -> P s -> exists s', body s x = Ok s' /\ P s') ->
  forall s, P s -> exists s', for_each body xs s = Ok s' /\ P s'.
Proof.
  induction xs as [|x xs IH]; intros Hbody s Hs; simpl.
  - eauto.
  - destruct (Hbody s x (or_introl eq_refl) Hs) as (s1 & -> & Hs1). simpl.
    apply IH; [|assumption].
    intros s2 y Hy. apply Hbody. now right.
Qed.

(** The same for a loop that may raise: what it returns keeps the
    invariant. *)
Lemma for_each_preserves (P : S -> Prop) (xs : list A) :
  (forall s x s', P s -> body s x = Ok s' -> P s') ->
  forall s s', P s -> for_each body xs s = Ok s' -> P s'.
Proof.
  intros Hbody. induction xs as [|x xs IH]; intros s s' Hs; simpl.
  - intros E. inversion E. now subst.
  - destruct (body s x) as [s1|] eqn:E1; simpl; [|discriminate].
    apply IH. eauto.
Qed.
End ForEach.

(** * Facts about time *)

Section FloatFacts.

Local Abbreviation per_second := 1000000.

Lemma div_eucl_div_mod (a b : Z) : Z.div_eucl a b = (a / b, a mod b).
Proof. unfold Z.div, Z.modulo. now destruct (Z.div_eucl a b). Qed.

(** *** The number of binary digits *)

Lemma digits2_size (p : positive) : digits2_pos p = Pos.size p.
Proof. induction p; simpl; congruence. Qed.

Lemma digits2_bounds (p : positive) :
  2 ^ (Z.pos (digits2_pos p) - 1) <= Z.pos p < 2 ^ Z.pos (digits2_pos p).
Proof.
  rewrite digits2_size. split.
  - pose proof (Pos.size_le p) as H.
    assert (H' : 2 ^ Z.pos (Pos.size p) <= 2 * Z.pos p).
    { change 2 with (Z.pos 2) at 1. rewrite <- Pos2Z.inj_pow.
      change (2 * Z.pos p) with (Z.pos (p~0)). now apply Pos2Z.pos_le_pos. }
    replace (Z.pos (Pos.size p)) with (Z.succ (Z.pos (Pos.size p) - 1)) in H' by lia.
    rewrite Z.pow_succ_r in H' by lia. lia.
  - pose proof (Pos.size_gt p) as H.
    change 2 with (Z.pos 2). rewrite <- Pos2Z.inj_pow. now apply Pos2Z.pos_lt_pos.
Qed.

Lemma digits2_unique (p : positive) (n : Z) :
  2 ^ (n - 1) <= Z.pos p < 2 ^ n -> Z.pos (digits2_pos p) = n.
Proof.
  intros [Hlo Hhi]. pose proof (digits2_bounds p) as [Dlo Dhi].
  set (D := Z.pos (digits2_pos p)) in *.
  assert (0 < n).
  { destruct (Z.ltb_spec 0 n); [assumption|].
    exfalso. destruct (Z.eq_dec n 0) as [->|].
    - simpl in Hhi. lia.
    - rewrite (Z.pow_neg_r 2 n) in Hhi by lia. lia. }
  destruct (Z.lt_trichotomy D n) as [Hlt|[Heq|Hgt]]; [exfalso|assumption|exfalso].
  - assert (2 ^ D <= 2 ^ (n - 1)) by (apply Z.pow_le_mono_r; lia). lia.
  - assert (2 ^ n <= 2 ^ (D - 1)) by (apply Z.pow_le_mono_r; lia). lia.
Qed.

Lemma Zdigits2_unique (m n : Z) :
  0 < m -> 2 ^ (n - 1) <= m < 2 ^ n -> Zdigits2 m = n.
Proof.
  intros Hm H. destruct m as [|p|p]; try lia. now apply digits2_unique.
Qed.

(** *** The division of the microseconds by [10^6] *)

(** The quotient and the position of the exact value that [SFdiv] hands
    to the rounding, for a dividend of [n <= 72] binary digits. *)
Lemma div_core_micro (p : positive) :
  let n := Z.pos (digits2_pos p) in
  n <= 72 ->
  SFdiv_core_binary 53 1024 (Z.pos p) 0 (Z.pos 1000000) 0 =
  ((Z.pos p * 2 ^ (73 - n)) / per_second, n - 73,
   new_location per_second ((Z.pos p * 2 ^ (73 - n)) mod per_second)).
Proof.
  intros n Hn. unfold SFdiv_core_binary.
  change (Zdigits2 (Z.pos p)) with n.
  change (Zdigits2 (Z.pos 1000000)) with 20.
  assert (Hpos : 0 < n) by (unfold n; lia).
  replace (Z.min (fexp 53 1024 (n + 0 - (20 + 0))) (0 - 0)) with (n - 73).
  2:{ unfold fexp, emin. lia. }
  replace (0 - 0 - (n - 73)) with (73 - n) by lia.
  destruct (73 - n) as [|s|s] eqn:Es; [lia| |lia].
  rewrite Z.shiftl_mul_pow2 by lia.
  now rewrite div_eucl_div_mod.
Qed.

(** *** Rounding to 53 bits *)

Lemma loc_of_record_of_loc (m : Z) (l : location) :
  loc_of_shr_record (shr_record_of_loc m l) = l.
Proof. destruct l as [|[]]; reflexivity. Qed.

Lemma shr_m_record_of_loc (m : Z) (l : location) :
  shr_m (shr_record_of_loc m l) = m.
Proof. destruct l as [|[]]; reflexivity. Qed.

Lemma shr_1_pos (p : positive) (r s : bool) :
  shr_1 {| shr_m := Z.pos p; shr_r := r; shr_s := s |} =
  {| shr_m := Z.div2 (Z.pos p); shr_r := Z.odd (Z.pos p); shr_s := r || s |}.
Proof. destruct p; reflexivity. Qed.

(** The second half of [binary_round_aux]: a rounded mantissa of 53
    digits is kept, the mantissa [2^53] is renormalised. *)
Lemma normalize_rounded (s : bool) (M e : Z) :
  2 ^ 52 <= M <= 2 ^ 53 ->
  -1074 <= e <= 970 ->
  (let '(mrs, e') := shr_fexp 53 1024 M e loc_Exact in
   match shr_m mrs with
   | Z0 => S754_zero s
   | Z.pos m => if e' <=? 1024 - 53 then S754_finite s m e' else S754_infinity s
   | Z.neg _ => S754_nan
   end) =
  if M <? 2 ^ 53 then S754_finite s (Z.to_pos M) e
  else S754_finite s (Z.to_pos (2 ^ 52)) (e + 1).
Proof.
  intros HM He. unfold shr_fexp.
  destruct (Z.ltb_spec M (2 ^ 53)) as [Hlt|Hge].
  - rewrite (@Zdigits2_unique M 53) by (change (2 ^ (53 - 1)) with (2 ^ 52); lia).
    replace (fexp 53 1024 (53 + e) - e) with 0 by (unfold fexp, emin; lia).
    cbn [shr shr_record_of_loc shr_m].
    destruct M as [|m|m]; try (exfalso; lia).
    destruct (Z.leb_spec e (1024 - 53)) as [_|H]; [reflexivity|lia].
  - assert (M = 2 ^ 53) as -> by lia.
    replace (fexp 53 1024 (Zdigits2 (2 ^ 53) + e) - e) with 1
      by (change (Zdigits2 (2 ^ 53)) with 54; unfold fexp, emin; lia).
    cbn [shr shr_record_of_loc iter_pos].
    change (2 ^ 53) with (Z.pos (2 ^ 53)). rewrite shr_1_pos. cbn [shr_m].
    change (Z.div2 (Z.pos (2 ^ 53))) with (Z.pos (2 ^ 52)).
    destruct (Z.leb_spec (e + 1) (1024 - 53)) as [_|H]; [reflexivity|lia].
Qed.

Lemma round_nearest_even_range (m : Z) (l : location) :
  m <= round_nearest_even m l <= m + 1.
Proof.
  destruct l as [|[]]; cbn [round_nearest_even]; try lia.
  destruct (Z.even m); lia.
Qed.

(** A quotient of 53 digits is rounded where it stands. *)
Lemma round_aux_53 (s : bool) (q e : Z) (l : location) :
  2 ^ 52 <= q < 2 ^ 53 ->
  -1074 <= e <= 970 ->
  binary_round_aux 53 1024 s q e l =
  let M := round_nearest_even q l in
  if M <? 2 ^ 53 then S754_finite s (Z.to_pos M) e
  else S754_finite s (Z.to_pos (2 ^ 52)) (e + 1).
Proof.
  intros Hq He. unfold binary_round_aux.
  unfold shr_fexp at 1.
  rewrite (@Zdigits2_unique q 53) by (change (2 ^ (53 - 1)) with (2 ^ 52); lia).
  replace (fexp 53 1024 (53 + e) - e) with 0 by (unfold fexp, emin; lia).
  cbn [shr]. rewrite shr_m_record_of_loc, loc_of_record_of_loc.
  pose proof (round_nearest_even_range q l).
  apply normalize_rounded; lia.
Qed.

(** A quotient of 54 digits loses its last bit to the position. *)
Lemma round_aux_54 (s : bool) (q e : Z) (l : location) :
  2 ^ 53 <= q < 2 ^ 54 ->
  -1074 <= e <= 969 ->
  binary_round_aux 53 1024 s q e l =
  let M := round_nearest_even (Z.div2 q)
             (loc_of_shr_record
                {| shr_m := Z.div2 q; shr_r := Z.odd q;
                   shr_s := match l with loc_Exact => false | _ => true end |}) in
  if M <? 2 ^ 53 then S754_finite s (Z.to_pos M) (e + 1)
  else S754_finite s (Z.to_pos (2 ^ 52)) (e + 1 + 1).
Proof.
  intros Hq He. unfold binary_round_aux.
  unfold shr_fexp at 1.
  rewrite (@Zdigits2_unique q 54) by (change (2 ^ (54 - 1)) with (2 ^ 53); lia).
  replace (fexp 53 1024 (54 + e) - e) with 1 by (unfold fexp, emin; lia).
  cbn [shr iter_pos].
  destruct q as [|p|p]; try (exfalso; lia).
  assert (Hrec : shr_1 (shr_record_of_loc (Z.pos p) l) =
                 {| shr_m := Z.div2 (Z.pos p); shr_r := Z.odd (Z.pos p);
                    shr_s := match l with loc_Exact => false | _ => true end |}).
  { destruct l as [|[]]; cbn [shr_record_of_loc]; rewrite shr_1_pos; reflexivity. }
  rewrite Hrec. cbn [shr_m].
  assert (Hd : 2 ^ 52 <= Z.div2 (Z.pos p) < 2 ^ 53).
  { rewrite Z.div2_div. split.
    - apply Z.div_le_lower_bound; [lia|]. change (2 * 2 ^ 52) with (2 ^ 53). lia.
    - apply Z.div_lt_upper_bound; [lia|]. change (2 * 2 ^ 53) with (2 ^ 54). lia. }
  match goal with |- context [round_nearest_even ?m ?l'] =>
    pose proof (round_nearest_even_range m l') end.
  apply normalize_rounded; lia.
Qed.

(** Rounding to nearest: the rounded quotient is within half a unit of
    the exact one, [q + r / 10^6]. *)
Lemma nearest_53 (q r : Z) :
  0 <= r < per_second ->
  let M := round_nearest_even q (new_location per_second r) in
  - per_second <= 2 * (M * per_second - (q * per_second + r)) <= per_second.
Proof.
  intros Hr. unfold new_location. cbn [Z.even]. unfold new_location_even.
  destruct (Z.eqb_spec r 0) as [->|Hne]; cbn [round_nearest_even]; [lia|].
  destruct (Z.compare_spec (2 * r) per_second) as [He|Hl|Hg];
    cbn [round_nearest_even].
  - destruct (Z.even q); lia.
  - lia.
  - lia.
Qed.

Lemma nearest_54 (q r : Z) :
  0 <= q -> 0 <= r < per_second ->
  let l := new_location per_second r in
  let M := round_nearest_even (Z.div2 q)
             (loc_of_shr_record
                {| shr_m := Z.div2 q; shr_r := Z.odd q;
                   shr_s := match l with loc_Exact => false | _ => true end |}) in
  - per_second <= M * (2 * per_second) - (q * per_second + r) <= per_second.
Proof.
  intros Hq Hr. unfold new_location. cbn [Z.even]. unfold new_location_even.
  pose proof (Z.div2_odd q) as Hdiv.
  destruct (Z.eqb_spec r 0) as [->|Hne].
  - destruct (Z.odd q); cbn [loc_of_shr_record round_nearest_even Z.b2z] in *.
    + destruct (Z.even (Z.div2 q)); lia.
    + lia.
  - destruct (Z.odd q); cbn [loc_of_shr_record round_nearest_even Z.b2z] in *; lia.
Qed.

(** [total_seconds] of a positive number of microseconds below [2^53]:
    the dividend is scaled to 73 digits, and the quotient, of 53 or 54
    digits, is rounded. *)
Lemma total_seconds_quotient (p : positive) :
  Z.pos p < 2 ^ 53 ->
  let n := Z.pos (digits2_pos p) in
  let X := Z.pos p * 2 ^ (73 - n) in
  1 <= n <= 53 /\
  2 ^ 52 <= X / per_second < 2 ^ 54 /\
  total_seconds (Z.pos p) =
  binary_round_aux 53 1024 false (X / per_second) (n - 73)
                   (new_location per_second (X mod per_second)).
Proof.
  intros Hp n X. pose proof (digits2_bounds p) as [Dlo Dhi]. fold n in Dlo, Dhi.
  assert (Hn : 1 <= n <= 53).
  { split; [unfold n; lia|].
    destruct (Z.leb_spec n 53); [assumption|exfalso].
    assert (2 ^ 53 <= 2 ^ (n - 1)) by (apply Z.pow_le_mono_r; lia). lia. }
  split; [exact Hn|].
  assert (HX : 2 ^ 72 <= X < 2 ^ 73).
  { unfold X. split.
    - replace 72 with ((n - 1) + (73 - n)) by lia.
      rewrite Z.pow_add_r by lia. apply Z.mul_le_mono_nonneg_r; [|assumption].
      apply Z.pow_nonneg. lia.
    - replace 73 with (n + (73 - n)) at 2 by lia.
      rewrite Z.pow_add_r by lia. apply Z.mul_lt_mono_pos_r; [|assumption].
      apply Z.pow_pos_nonneg; lia. }
  split.
  - pose proof (Z.div_mod X per_second ltac:(lia)) as Hdm.
    pose proof (Z.mod_pos_bound X per_second ltac:(lia)) as Hr.
    change (2 ^ 72) with (2 ^ 52 * 1048576) in HX.
    change (2 ^ 73) with (2 ^ 54 * 524288) in HX.
    split; lia.
  - unfold total_seconds, int_truediv. cbn [float_of_int SFdiv].
    pose proof (@div_core_micro p) as Hcore. cbv zeta in Hcore. fold n in Hcore.
    rewrite Hcore by lia. reflexivity.
Qed.

(** What [total_seconds] returns for a positive number of microseconds
    below [2^53]: the quotient by [10^6] rounded to nearest at 53 bits.
    [M / 2^K] is the value returned, [K] the scale of the binade of the
    exact quotient. *)
Lemma total_seconds_rounds (p : positive) :
  Z.pos p < 2 ^ 53 ->
  exists M K,
    19 <= K <= 72 /\
    2 ^ 52 <= M <= 2 ^ 53 /\
    2 ^ 52 * per_second <= Z.pos p * 2 ^ K /\
    - per_second <= 2 * (M * per_second - Z.pos p * 2 ^ K) <= per_second /\
    total_seconds (Z.pos p) =
    if M <? 2 ^ 53 then S754_finite false (Z.to_pos M) (- K)
    else S754_finite false (Z.to_pos (2 ^ 52)) (1 - K).
Proof.
  intros Hp. destruct (@total_seconds_quotient p Hp) as (Hn & Hq & ->).
  set (n := Z.pos (digits2_pos p)) in *.
  set (X := Z.pos p * 2 ^ (73 - n)) in *.
  pose proof (Z.div_mod X per_second ltac:(lia)) as Hdm.
  pose proof (Z.mod_pos_bound X per_second ltac:(lia)) as Hr.
  set (q := X / per_second) in *. set (r := X mod per_second) in *.
  destruct (Z.ltb_spec q (2 ^ 53)) as [Hsmall|Hbig].
  - rewrite round_aux_53 by lia. cbv zeta.
    pose proof (@nearest_53 q r Hr) as Hnear. cbv zeta in Hnear.
    pose proof (round_nearest_even_range q (new_location per_second r)) as Hrange.
    set (M := round_nearest_even q (new_location per_second r)) in *.
    exists M, (73 - n). split; [lia|]. split; [lia|].
    fold X. split; [lia|]. split; [lia|].
    replace (- (73 - n)) with (n - 73) by lia.
    replace (1 - (73 - n)) with (n - 73 + 1) by lia. reflexivity.
  - rewrite round_aux_54 by lia. cbv zeta.
    pose proof (@nearest_54 q r ltac:(lia) Hr) as Hnear. cbv zeta in Hnear.
    assert (Hd : 2 ^ 52 <= Z.div2 q < 2 ^ 53).
    { rewrite Z.div2_div. split.
      - apply Z.div_le_lower_bound; [lia|]. change (2 * 2 ^ 52) with (2 ^ 53). lia.
      - apply Z.div_lt_upper_bound; [lia|]. change (2 * 2 ^ 53) with (2 ^ 54). lia. }
    match type of Hnear with context [round_nearest_even ?m ?l'] =>
      pose proof (round_nearest_even_range m l') as Hrange;
      set (M := round_nearest_even m l') in *
    end.
    exists M, (72 - n). split; [lia|]. split; [lia|].
    assert (HXK : X = 2 * (Z.pos p * 2 ^ (72 - n))).
    { unfold X. replace (73 - n) with (Z.succ (72 - n)) by lia.
      rewrite Z.pow_succ_r by lia. ring. }
    split; [lia|]. split; [lia|].
    replace (- (72 - n)) with (n - 73 + 1) by lia.
    replace (1 - (72 - n)) with (n - 73 + 1 + 1) by lia. reflexivity.
Qed.

(** The same float with its mantissa [m] of 53 digits; the value
    [m * 2^e] is [M / 2^K]. *)
Lemma total_seconds_normal (p : positive) :
  Z.pos p < 2 ^ 53 ->
  exists m e M K,
    total_seconds (Z.pos p) = S754_finite false (Z.to_pos m) e /\
    2 ^ 52 <= m < 2 ^ 53 /\ -73 <= e <= 1 /\
    m * 2 ^ (e + 73) * 2 ^ K = M * 2 ^ 73 /\
    0 <= K /\
    2 ^ 52 * per_second <= Z.pos p * 2 ^ K /\
    - per_second <= 2 * (M * per_second - Z.pos p * 2 ^ K) <= per_second.
Proof.
  intros Hp.
  destruct (@total_seconds_rounds p Hp) as (M & K & HK & HM & Hbin & Hnear & E).
  assert (H73 : 2 ^ 73 = 2 ^ (73 - K) * 2 ^ K).
  { rewrite <- Z.pow_add_r by lia. f_equal. lia. }
  destruct (Z.ltb_spec M (2 ^ 53)) as [Hl|Hg].
  - exists M, (- K), M, K. split; [exact E|]. split; [lia|]. split; [lia|].
    split; [|split; [lia|split; assumption]].
    replace (- K + 73) with (73 - K) by lia. rewrite H73. ring.
  - exists (2 ^ 52), (1 - K), M, K. split; [exact E|].
    split; [split; [lia|reflexivity]|]. split; [lia|].
    split; [|split; [lia|split; assumption]].
    assert (M = 2 ^ 53) as -> by lia.
    replace (1 - K + 73) with (Z.succ (73 - K)) by lia.
    rewrite Z.pow_succ_r by lia. rewrite H73.
    change (2 ^ 53) with (2 ^ 52 * 2). ring.
Qed.

(** *** The order of the floats *)

(** Two positive floats with mantissas of 53 digits compare as their
    values do; the values are scaled by [2^73] here. *)
Lemma compare_normal (ma mb ea eb : Z) :
  2 ^ 52 <= ma < 2 ^ 53 ->
  2 ^ 52 <= mb < 2 ^ 53 ->
  -73 <= ea -> -73 <= eb ->
  ma * 2 ^ (ea + 73) < mb * 2 ^ (eb + 73) ->
  SFcompare (S754_finite false (Z.to_pos mb) eb) (S754_finite false (Z.to_pos ma) ea) =
  Some Gt.
Proof.
  intros Ha Hb Hea Heb Hlt. cbn [SFcompare]. f_equal.
  assert (Pa : 0 < 2 ^ (ea + 73)) by (apply Z.pow_pos_nonneg; lia).
  assert (Pb : 0 < 2 ^ (eb + 73)) by (apply Z.pow_pos_nonneg; lia).
  destruct (Z.compare_spec eb ea) as [He|Hl|Hg]; [| exfalso |reflexivity].
  - subst eb. assert (ma < mb).
    { apply Z.mul_lt_mono_pos_r with (p := 2 ^ (ea + 73)); assumption. }
    change (Pos.compare_cont Eq (Z.to_pos mb) (Z.to_pos ma)) with
      (Pos.compare (Z.to_pos mb) (Z.to_pos ma)).
    apply Pos.compare_gt_iff. lia.
  - assert (H2 : 2 * 2 ^ (eb + 73) <= 2 ^ (ea + 73)).
    { rewrite <- Z.pow_succ_r by lia. apply Z.pow_le_mono_r; lia. }
    set (x := 2 ^ (eb + 73)) in *. set (y := 2 ^ (ea + 73)) in *.
    assert (mb * x <= 2 ^ 53 * x) by (apply Z.mul_le_mono_nonneg_r; lia).
    assert (2 ^ 52 * y <= ma * y) by (apply Z.mul_le_mono_nonneg_r; lia).
    change (2 ^ 53) with (2 ^ 52 * 2) in *.
    assert (2 ^ 52 * (2 * x) <= 2 ^ 52 * y) by (apply Z.mul_le_mono_nonneg_l; lia).
    lia.
Qed.

(** The rounding errors of two durations that are a microsecond or more
    apart cannot close the gap, when both binades are finer than a
    microsecond. *)
Lemma gap_survives (a b Ma Mb PA PB : Z) :
  0 < a -> a + 1 <= b ->
  1048576 <= PA -> 1048576 <= PB ->
  - per_second <= 2 * (Ma * per_second - a * PA) <= per_second ->
  - per_second <= 2 * (Mb * per_second - b * PB) <= per_second ->
  Ma * PB < Mb * PA.
Proof.
  intros Ha Hab HPA HPB Hna Hnb.
  assert (E1 : 2 * (Ma * per_second) * PB <= (2 * (a * PA) + per_second) * PB)
    by (apply Z.mul_le_mono_nonneg_r; lia).
  assert (E2 : (2 * (b * PB) - per_second) * PA <= 2 * (Mb * per_second) * PA)
    by (apply Z.mul_le_mono_nonneg_r; lia).
  assert (E3 : (a + 1) * (PA * PB) <= b * (PA * PB)).
  { apply Z.mul_le_mono_nonneg_r; [|assumption]. apply Z.mul_nonneg_nonneg; lia. }
  assert (E4 : per_second * PA < PB * PA) by (apply Z.mul_lt_mono_pos_r; lia).
  assert (E5 : per_second * PB < PA * PB) by (apply Z.mul_lt_mono_pos_r; lia).
  apply Z.mul_lt_mono_pos_l with (p := 2 * per_second); [lia|].
  lia.
Qed.

(** Below [2^33] seconds the binade of the quotient is finer than a
    microsecond. *)
Lemma fine_binade (d K : Z) :
  0 < d < 2 ^ 33 * per_second ->
  0 <= K ->
  2 ^ 52 * per_second <= d * 2 ^ K ->
  1048576 <= 2 ^ K.
Proof.
  intros Hd HK Hbin. change 1048576 with (2 ^ 20).
  apply Z.pow_le_mono_r; [lia|].
  destruct (Z.leb_spec 20 K); [assumption|exfalso].
  assert (HP : 2 ^ K <= 2 ^ 19) by (apply Z.pow_le_mono_r; lia).
  assert (0 < 2 ^ K) by (apply Z.pow_pos_nonneg; lia).
  assert (d * 2 ^ K <= d * 2 ^ 19) by (apply Z.mul_le_mono_nonneg_l; lia).
  assert (d * 2 ^ 19 < 2 ^ 33 * per_second * 2 ^ 19)
    by (apply Z.mul_lt_mono_pos_r; lia).
  change (2 ^ 52) with (2 ^ 33 * 2 ^ 19) in Hbin. lia.
Qed.

(** Below [2^33] seconds, positive durations that differ have different
    floats: [total_seconds] is strictly increasing. *)
Lemma total_seconds_increasing (a b : positive) :
  Z.pos a < Z.pos b ->
  Z.pos b < 2 ^ 33 * per_second ->
  SFcompare (total_seconds (Z.pos b)) (total_seconds (Z.pos a)) = Some Gt.
Proof.
  intros Hab Hb.
  assert (H53 : 2 ^ 33 * per_second < 2 ^ 53) by reflexivity.
  destruct (@total_seconds_normal a)
    as (ma & ea & Ma & Ka & Ea & Hma & [Hea _] & Hva & HKa & Hbina & Hneara); [lia|].
  destruct (@total_seconds_normal b)
    as (mb & eb & Mb & Kb & Eb & Hmb & [Heb _] & Hvb & HKb & Hbinb & Hnearb); [lia|].
  rewrite Ea, Eb. clear Ea Eb.
  pose proof (@fine_binade (Z.pos a) Ka ltac:(lia) HKa Hbina) as Pa.
  pose proof (@fine_binade (Z.pos b) Kb ltac:(lia) HKb Hbinb) as Pb.
  pose proof (@gap_survives (Z.pos a) (Z.pos b) Ma Mb (2 ^ Ka) (2 ^ Kb)
                ltac:(lia) ltac:(lia) Pa Pb Hneara Hnearb) as Hval.
  apply compare_normal; try assumption.
  set (PA := 2 ^ Ka) in *. set (PB := 2 ^ Kb) in *.
  set (va := ma * 2 ^ (ea + 73)) in *. set (vb := mb * 2 ^ (eb + 73)) in *.
  apply Z.mul_lt_mono_pos_r with (p := PA * PB); [lia|].
  replace (va * (PA * PB)) with (va * PA * PB) by ring.
  replace (vb * (PA * PB)) with (vb * PB * PA) by ring.
  rewrite Hva, Hvb.
  replace (Ma * 2 ^ 73 * PB) with (Ma * PB * 2 ^ 73) by ring.
  replace (Mb * 2 ^ 73 * PA) with (Mb * PA * 2 ^ 73) by ring.
  apply Z.mul_lt_mono_pos_r; [reflexivity|assumption].
Qed.

(** *** Signs *)

Lemma round_aux_opp (m e : Z) (l : location) :
  binary_round_aux 53 1024 true m e l =
  SFopp (binary_round_aux 53 1024 false m e l).
Proof.
  unfold binary_round_aux.
  destruct (shr_fexp 53 1024 m e l) as [mrs e1].
  destruct (shr_fexp 53 1024 _ e1 loc_Exact) as [mrs2 e2].
  destruct (shr_m mrs2); [reflexivity| |reflexivity].
  destruct (e2 <=? 1024 - 53); reflexivity.
Qed.

(** A rounded value has the sign it was given, if it is a number. *)
Lemma round_aux_shape (s : bool) (m e : Z) (l : location) :
  let r := binary_round_aux 53 1024 s m e l in
  r = S754_zero s \/ (exists m' e', r = S754_finite s m' e') \/
  r = S754_infinity s \/ r = S754_nan.
Proof.
  unfold binary_round_aux.
  destruct (shr_fexp 53 1024 m e l) as [mrs e1].
  destruct (shr_fexp 53 1024 _ e1 loc_Exact) as [mrs2 e2].
  destruct (shr_m mrs2); [now left| |now right; right; right].
  destruct (e2 <=? 1024 - 53); [right; left; eauto|right; right; now left].
Qed.

Lemma total_seconds_neg (p : positive) :
  total_seconds (Z.neg p) = SFopp (total_seconds (Z.pos p)).
Proof.
  unfold total_seconds, int_truediv. cbn [float_of_int SFdiv].
  destruct (SFdiv_core_binary 53 1024 (Z.pos p) 0 (Z.pos 1000000) 0) as [[mz ez] lz].
  cbn [xorb]. apply round_aux_opp.
Qed.

Lemma SFcompare_opp (x y : float) :
  SFcompare (SFopp x) (SFopp y) = SFcompare y x.
Proof.
  destruct x as [sx|sx| |sx mx ex], y as [sy|sy| |sy my ey];
    try reflexivity;
    try (destruct sx; reflexivity);
    try (destruct sy; reflexivity);
    try (destruct sx, sy; reflexivity).
  cbn [SFopp SFcompare].
  destruct sx, sy; cbn [negb]; try reflexivity.
  - rewrite (Z.compare_antisym ey ex).
    destruct (ey ?= ex); cbn [CompOpp]; try reflexivity.
    f_equal. change (Pos.compare_cont Eq mx my) with (Pos.compare mx my).
    change (Pos.compare_cont Eq my mx) with (Pos.compare my mx).
    rewrite (Pos.compare_antisym mx my). now rewrite CompOpp_involutive.
  - rewrite (Z.compare_antisym ey ex).
    destruct (ey ?= ex); cbn [CompOpp]; try reflexivity.
    f_equal. change (Pos.compare_cont Eq mx my) with (Pos.compare mx my).
    change (Pos.compare_cont Eq my mx) with (Pos.compare my mx).
    now rewrite (Pos.compare_antisym mx my).
Qed.

(** *** The comparisons the cache makes *)

(** No float is greater than itself. *)
Lemma float_gt_irrefl (x : float) : float_gt x x = false.
Proof.
  unfold float_gt. destruct x as [s|s| |s m e]; cbn [SFcompare].
  - reflexivity.
  - now destruct s.
  - reflexivity.
  - rewrite Z.compare_refl.
    change (Pos.compare_cont Eq m m) with (Pos.compare m m).
    rewrite Pos.compare_refl. now destruct s.
Qed.

(** The age zero is not greater than the seconds of a duration that is
    not negative. *)
Lemma zero_not_gt_total_seconds (t : timedelta) :
  0 <= t -> float_gt (total_seconds 0) (total_seconds t) = false.
Proof.
  intros Ht. destruct t as [|p|p]; [apply float_gt_irrefl| |lia].
  unfold total_seconds at 2. unfold int_truediv. cbn [float_of_int SFdiv].
  destruct (SFdiv_core_binary 53 1024 (Z.pos p) 0 (Z.pos 1000000) 0) as [[mz ez] lz].
  cbn [xorb]. change (total_seconds 0) with (S754_zero false).
  destruct (round_aux_shape false mz ez lz) as [E|[(m' & e' & E)|[E|E]]];
    rewrite E; reflexivity.
Qed.

(** Below [2^33] seconds in absolute value, the longer duration has the
    greater float. *)
Lemma total_seconds_gt (a b : timedelta) :
  - (2 ^ 33 * per_second) < a ->
  a < b ->
  b < 2 ^ 33 * per_second ->
  float_gt (total_seconds b) (total_seconds a) = true.
Proof.
  intros Hlo Hab Hhi. unfold float_gt.
  assert (H53 : 2 ^ 33 * per_second < 2 ^ 53) by reflexivity.
  assert (Hpos : forall p, Z.pos p < 2 ^ 33 * per_second ->
                           exists m e, total_seconds (Z.pos p) = S754_finite false m e).
  { intros p Hp. destruct (@total_seconds_normal p) as (m & e & _ & _ & E & _); [lia|].
    eauto. }
  destruct a as [|a|a], b as [|b|b]; try lia.
  - destruct (Hpos b Hhi) as (m & e & ->). reflexivity.
  - now rewrite total_seconds_increasing.
  - rewrite total_seconds_neg. destruct (Hpos a ltac:(lia)) as (m & e & ->).
    reflexivity.
  - rewrite total_seconds_neg.
    destruct (Hpos a ltac:(lia)) as (m & e & ->).
    destruct (Hpos b Hhi) as (m' & e' & ->). reflexivity.
  - rewrite !total_seconds_neg, SFcompare_opp.
    now rewrite total_seconds_increasing by lia.
Qed.

(** *** Half of [ttl]: the product with the float [0.5] *)

(** Positive floats with mantissas of 53 digits compare as their
    values, scaled by [2^74], do. *)
Lemma compare_normal_values (ma mb ea eb : Z) :
  2 ^ 52 <= ma < 2 ^ 53 ->
  2 ^ 52 <= mb < 2 ^ 53 ->
  -74 <= ea -> -74 <= eb ->
  SFcompare (S754_finite false (Z.to_pos mb) eb) (S754_finite false (Z.to_pos ma) ea) =
  Some (mb * 2 ^ (eb + 74) ?= ma * 2 ^ (ea + 74)).
Proof.
  intros Ha Hb Hea Heb. cbn [SFcompare]. f_equal.
  assert (Pa : 0 < 2 ^ (ea + 74)) by (apply Z.pow_pos_nonneg; lia).
  assert (Pb : 0 < 2 ^ (eb + 74)) by (apply Z.pow_pos_nonneg; lia).
  destruct (Z.compare_spec eb ea) as [He|Hl|Hg].
  - subst eb.
    change (Pos.compare_cont Eq (Z.to_pos mb) (Z.to_pos ma)) with
      (Pos.compare (Z.to_pos mb) (Z.to_pos ma)).
    destruct (Z.compare_spec (mb * 2 ^ (ea + 74)) (ma * 2 ^ (ea + 74))) as [E|E|E].
    + apply Z.mul_reg_r in E; [|lia]. apply Pos.compare_eq_iff. lia.
    + apply Z.mul_lt_mono_pos_r in E; [|assumption]. apply Pos.compare_lt_iff. lia.
    + apply Z.mul_lt_mono_pos_r in E; [|assumption]. apply Pos.compare_gt_iff. lia.
  - symmetry. apply Z.compare_lt_iff.
    assert (H2 : 2 * 2 ^ (eb + 74) <= 2 ^ (ea + 74)).
    { rewrite <- Z.pow_succ_r by lia. apply Z.pow_le_mono_r; lia. }
    set (x := 2 ^ (eb + 74)) in *. set (y := 2 ^ (ea + 74)) in *.
    assert (mb * x < 2 ^ 53 * x) by (apply Z.mul_lt_mono_pos_r; lia).
    assert (2 ^ 52 * y <= ma * y) by (apply Z.mul_le_mono_nonneg_r; lia).
    change (2 ^ 53) with (2 ^ 52 * 2) in *.
    assert (2 ^ 52 * (2 * x) <= 2 ^ 52 * y) by (apply Z.mul_le_mono_nonneg_l; lia).
    lia.
  - symmetry. apply Z.compare_gt_iff.
    assert (H2 : 2 * 2 ^ (ea + 74) <= 2 ^ (eb + 74)).
    { rewrite <- Z.pow_succ_r by lia. apply Z.pow_le_mono_r; lia. }
    set (x := 2 ^ (eb + 74)) in *. set (y := 2 ^ (ea + 74)) in *.
    assert (ma * y < 2 ^ 53 * y) by (apply Z.mul_lt_mono_pos_r; lia).
    assert (2 ^ 52 * x <= mb * x) by (apply Z.mul_le_mono_nonneg_r; lia).
    change (2 ^ 53) with (2 ^ 52 * 2) in *.
    assert (2 ^ 52 * (2 * y) <= 2 ^ 52 * x) by (apply Z.mul_le_mono_nonneg_l; lia).
    lia.
Qed.

(** The product of a float of 53 digits with [0.5] is exact: the
    exponent goes down by one. *)
Lemma float_mul_half (m : positive) (e : Z) :
  Z.pos (digits2_pos m) = 53 ->
  -1000 <= e <= 900 ->
  float_mul (S754_finite false m e) float_half = S754_finite false m (e - 1).
Proof.
  intros Hd He. unfold float_mul, float_half. cbn [SFmul xorb].
  rewrite Pos.mul_comm. cbn [Pos.mul].
  unfold binary_round_aux. unfold shr_fexp at 1.
  cbn [Zdigits2 digits2_pos].
  match goal with |- context [shr ?r ?x ?n] =>
    replace n with 52 by (unfold fexp, emin; lia)
  end.
  cbn [shr iter_pos shr_record_of_loc shr_1 orb shr_m loc_of_shr_record
       round_nearest_even].
  unfold shr_fexp. cbn [Zdigits2]. rewrite Hd.
  replace (fexp 53 1024 (53 + (e + -53 + 52)) - (e + -53 + 52)) with 0
    by (unfold fexp, emin; lia).
  cbn [shr shr_record_of_loc shr_m].
  destruct (Z.leb_spec (e + -53 + 52) (1024 - 53)) as [_|H]; [|lia].
  f_equal. lia.
Qed.

(** Shifting the exponent of a quotient of 53 or 54 digits shifts the
    exponent of the rounded float. *)
Lemma round_aux_shift (s : bool) (q e : Z) (l : location) (m : positive) (e1 : Z) :
  2 ^ 52 <= q < 2 ^ 54 ->
  -1074 <= e <= 968 ->
  binary_round_aux 53 1024 s q e l = S754_finite s m e1 ->
  binary_round_aux 53 1024 s q (e + 1) l = S754_finite s m (e1 + 1).
Proof.
  intros Hq He. destruct (Z.ltb_spec q (2 ^ 53)) as [Hsmall|Hbig].
  - rewrite !round_aux_53 by lia. cbv zeta.
    destruct (round_nearest_even q l <? 2 ^ 53); intros E; injection E as <- <-;
      reflexivity.
  - rewrite !round_aux_54 by lia. cbv zeta.
    match goal with |- context [?M <? 2 ^ 53] => destruct (M <? 2 ^ 53) end;
      intros E; injection E as <- <-; reflexivity.
Qed.

(** Twice the microseconds have twice the seconds. *)
Lemma total_seconds_double (p m : positive) (e : Z) :
  Z.pos p~0 < 2 ^ 53 ->
  total_seconds (Z.pos p) = S754_finite false m e ->
  total_seconds (Z.pos p~0) = S754_finite false m (e + 1).
Proof.
  intros Hp E.
  destruct (@total_seconds_quotient p ltac:(lia)) as (Hn & Hq & E1).
  destruct (@total_seconds_quotient (p~0) Hp) as (Hn' & _ & E2).
  rewrite E2. rewrite E1 in E. clear E1 E2.
  cbn [digits2_pos] in *. rewrite Pos2Z.inj_succ in *.
  set (n := Z.pos (digits2_pos p)) in *.
  replace (Z.pos p~0 * 2 ^ (73 - Z.succ n)) with (Z.pos p * 2 ^ (73 - n)).
  2:{ replace (73 - n) with (Z.succ (73 - Z.succ n)) by lia.
      rewrite Z.pow_succ_r by lia. change (Z.pos p~0) with (2 * Z.pos p). ring. }
  replace (Z.succ n - 73) with (n - 73 + 1) by lia.
  apply round_aux_shift; [assumption|lia|assumption].
Qed.

(** Below [2^32] seconds the binade is finer than half a microsecond. *)
Lemma finer_binade (d K : Z) :
  0 < d -> 2 * d < 2 ^ 33 * per_second ->
  0 <= K ->
  2 ^ 52 * per_second <= d * 2 ^ K ->
  2097152 <= 2 ^ K.
Proof.
  intros Hd Hd2 HK Hbin. change 2097152 with (2 ^ 21).
  apply Z.pow_le_mono_r; [lia|].
  destruct (Z.leb_spec 21 K); [assumption|exfalso].
  assert (HP : 2 ^ K <= 2 ^ 20) by (apply Z.pow_le_mono_r; lia).
  assert (0 < 2 ^ K) by (apply Z.pow_pos_nonneg; lia).
  assert (d * 2 ^ K <= d * 2 ^ 20) by (apply Z.mul_le_mono_nonneg_l; lia).
  assert (2 * d * 2 ^ 20 < 2 ^ 33 * per_second * 2 ^ 20)
    by (apply Z.mul_lt_mono_pos_r; lia).
  change (2 ^ 52) with (2 ^ 32 * 2 ^ 20) in Hbin.
  change (2 ^ 33) with (2 * 2 ^ 32) in *. lia.
Qed.

(** The gap between an age and half a duration, half a microsecond or
    more, survives the two roundings. *)
Lemma half_gap_above (a t Ma Mt PA PT : Z) :
  0 < a -> 0 < t -> t + 1 <= 2 * a ->
  2097152 <= PA -> 1048576 <= PT ->
  - per_second <= 2 * (Ma * per_second - a * PA) <= per_second ->
  - per_second <= 2 * (Mt * per_second - t * PT) <= per_second ->
  Mt * PA < 2 * (Ma * PT).
Proof.
  intros Ha Ht Hat HPA HPT Hna Hnt.
  assert (E1 : (2 * (a * PA) - per_second) * PT <= 2 * (Ma * per_second) * PT)
    by (apply Z.mul_le_mono_nonneg_r; lia).
  assert (E2 : 2 * (Mt * per_second) * PA <= (2 * (t * PT) + per_second) * PA)
    by (apply Z.mul_le_mono_nonneg_r; lia).
  assert (E3 : (t + 1) * (PA * PT) <= 2 * a * (PA * PT)).
  { apply Z.mul_le_mono_nonneg_r; [|assumption]. apply Z.mul_nonneg_nonneg; lia. }
  assert (E4 : 2 * per_second * PT < PA * PT) by (apply Z.mul_lt_mono_pos_r; lia).
  assert (E5 : per_second * PA < PT * PA) by (apply Z.mul_lt_mono_pos_r; lia).
  apply Z.mul_lt_mono_pos_l with (p := 2 * per_second); [lia|].
  lia.
Qed.

Lemma half_gap_below (a t Ma Mt PA PT : Z) :
  0 < a -> 0 < t -> 2 * a + 1 <= t ->
  2097152 <= PA -> 1048576 <= PT ->
  - per_second <= 2 * (Ma * per_second - a * PA) <= per_second ->
  - per_second <= 2 * (Mt * per_second - t * PT) <= per_second ->
  2 * (Ma * PT) < Mt * PA.
Proof.
  intros Ha Ht Hat HPA HPT Hna Hnt.
  assert (E1 : 2 * (Ma * per_second) * PT <= (2 * (a * PA) + per_second) * PT)
    by (apply Z.mul_le_mono_nonneg_r; lia).
  assert (E2 : (2 * (t * PT) - per_second) * PA <= 2 * (Mt * per_second) * PA)
    by (apply Z.mul_le_mono_nonneg_r; lia).
  assert (E3 : (2 * a + 1) * (PA * PT) <= t * (PA * PT)).
  { apply Z.mul_le_mono_nonneg_r; [|assumption]. apply Z.mul_nonneg_nonneg; lia. }
  assert (E4 : 2 * per_second * PT < PA * PT) by (apply Z.mul_lt_mono_pos_r; lia).
  assert (E5 : per_second * PA < PT * PA) by (apply Z.mul_lt_mono_pos_r; lia).
  apply Z.mul_lt_mono_pos_l with (p := 2 * per_second); [lia|].
  lia.
Qed.

(** The seconds of a duration that is not positive are not greater
    than a positive float. *)
Lemma nonpositive_not_gt (d : timedelta) (m : positive) (e : Z) :
  d <= 0 -> float_gt (total_seconds d) (S754_finite false m e) = false.
Proof.
  intros Hd. destruct d as [|p|p]; [reflexivity|lia|].
  unfold total_seconds, int_truediv. cbn [float_of_int SFdiv].
  destruct (SFdiv_core_binary 53 1024 (Z.pos p) 0 (Z.pos 1000000) 0) as [[mz ez] lz].
  cbn [xorb].
  destruct (round_aux_shape true mz ez lz) as [E|[(m' & e' & E)|[E|E]]];
    rewrite E; reflexivity.
Qed.

(** With a positive [ttl] below [2^33] seconds, [_is_expired_at_time]
    decides whether the age is above [ttl]. *)
Lemma total_seconds_gt_iff (age ttl : timedelta) :
  0 < ttl < 2 ^ 33 * per_second ->
  age < 2 ^ 33 * per_second ->
  float_gt (total_seconds age) (total_seconds ttl) = (ttl <? age).
Proof.
  intros Httl Hage.
  assert (H53 : 2 ^ 33 * per_second < 2 ^ 53) by reflexivity.
  destruct ttl as [|t|t]; try lia.
  destruct (Z.ltb_spec (Z.pos t) age) as [Hlt|Hge].
  - apply total_seconds_gt; lia.
  - destruct (@total_seconds_normal t)
      as (mt & et & Mt & Kt & Et & Hmt & Het & _); [lia|].
    destruct (Z.leb_spec age 0) as [Hneg|Hpos].
    + rewrite Et. now apply nonpositive_not_gt.
    + destruct age as [|a|a]; try lia.
      destruct (Z.eq_dec (Z.pos a) (Z.pos t)) as [E|Hne].
      * rewrite E. apply float_gt_irrefl.
      * pose proof (@total_seconds_increasing a t ltac:(lia) ltac:(lia)) as Hinc.
        destruct (@total_seconds_normal a)
          as (ma & ea & Ma & Ka & Ea & Hma & Hea & _); [lia|].
        unfold float_gt. rewrite Ea, Et in *.
        rewrite compare_normal_values in Hinc by lia.
        rewrite compare_normal_values by lia.
        injection Hinc as Hinc. apply Z.compare_gt_iff in Hinc.
        apply Z.compare_lt_iff in Hinc. now rewrite Hinc.
Qed.

(** With a positive [ttl] below [2^33] seconds and [half_ttl = 0.5],
    [_is_near_expiration] decides whether the age is above half of
    [ttl], for ages below [2^32] seconds. *)
Lemma half_total_seconds_gt_iff (age ttl : timedelta) :
  0 < ttl < 2 ^ 33 * per_second ->
  2 * age < 2 ^ 33 * per_second ->
  float_gt (total_seconds age) (float_mul (total_seconds ttl) float_half) =
  (ttl <? 2 * age).
Proof.
  intros Httl Hage.
  assert (H53 : 2 ^ 33 * per_second < 2 ^ 53) by reflexivity.
  destruct ttl as [|t|t]; try lia.
  destruct (@total_seconds_normal t)
    as (mt & et & Mt & Kt & Et & Hmt & Het & Hvt & HKt & Hbint & Hneart); [lia|].
  rewrite Et.
  rewrite float_mul_half;
    [|apply digits2_unique; change (2 ^ (53 - 1)) with (2 ^ 52);
      rewrite Z2Pos.id by lia; lia|lia].
  destruct (Z.leb_spec age 0) as [Hneg|Hpos].
  { rewrite nonpositive_not_gt by assumption. symmetry. apply Z.ltb_ge. lia. }
  destruct age as [|a|a]; try lia.
  destruct (@total_seconds_normal a)
    as (ma & ea & Ma & Ka & Ea & Hma & Hea & Hva & HKa & Hbina & Hneara); [lia|].
  unfold float_gt. rewrite Ea. rewrite compare_normal_values by lia.
  pose proof (@finer_binade (Z.pos a) Ka ltac:(lia) Hage HKa Hbina) as Pa.
  pose proof (@fine_binade (Z.pos t) Kt ltac:(lia) HKt Hbint) as Pt.
  replace (et - 1 + 74) with (et + 73) by lia.
  replace (ea + 74) with (Z.succ (ea + 73)) by lia.
  rewrite Z.pow_succ_r by lia.
  set (va := ma * 2 ^ (ea + 73)) in *. set (vt := mt * 2 ^ (et + 73)) in *.
  replace (ma * (2 * 2 ^ (ea + 73))) with (2 * va) by (unfold va; ring).
  set (PA := 2 ^ Ka) in *. set (PT := 2 ^ Kt) in *.
  assert (P73 : 0 < 2 ^ 73) by reflexivity.
  assert (Hscale : forall x y, x * 2 ^ 73 < y * 2 ^ 73 -> x < y).
  { intros x y H. now apply Z.mul_lt_mono_pos_r in H. }
  assert (Ea2 : 2 * va * (PA * PT) = 2 * (Ma * PT) * 2 ^ 73).
  { replace (2 * va * (PA * PT)) with (2 * (va * PA) * PT) by ring.
    rewrite Hva. ring. }
  assert (Et2 : vt * (PA * PT) = Mt * PA * 2 ^ 73).
  { replace (vt * (PA * PT)) with (vt * PT * PA) by ring. rewrite Hvt. ring. }
  assert (HPP : 0 < PA * PT) by (apply Z.mul_pos_pos; lia).
  destruct (Z.lt_trichotomy (Z.pos t) (2 * Z.pos a)) as [Hlt|[Heq|Hgt]].
  - pose proof (@half_gap_above (Z.pos a) (Z.pos t) Ma Mt PA PT
                  ltac:(lia) ltac:(lia) ltac:(lia) Pa Pt Hneara Hneart) as Hgap.
    assert (vt < 2 * va).
    { apply Z.mul_lt_mono_pos_r with (p := PA * PT); [assumption|].
      rewrite Ea2, Et2. apply Z.mul_lt_mono_pos_r; assumption. }
    replace (2 * va ?= vt) with Gt by (symmetry; apply Z.compare_gt_iff; assumption).
    symmetry. apply Z.ltb_lt. assumption.
  - assert (Hta : t = (a~0)%positive) by lia. subst t.
    pose proof (@total_seconds_double a (Z.to_pos ma) ea ltac:(lia) Ea) as Hdbl.
    rewrite Et in Hdbl. injection Hdbl as Hm He.
    assert (mt = ma) by lia. subst mt et.
    assert (vt = 2 * va).
    { unfold vt, va. replace (ea + 1 + 73) with (Z.succ (ea + 73)) by lia.
      rewrite Z.pow_succ_r by lia. ring. }
    replace (2 * va ?= vt) with Eq by (symmetry; apply Z.compare_eq_iff; lia).
    symmetry. apply Z.ltb_ge. lia.
  - pose proof (@half_gap_below (Z.pos a) (Z.pos t) Ma Mt PA PT
                  ltac:(lia) ltac:(lia) ltac:(lia) Pa Pt Hneara Hneart) as Hgap.
    assert (2 * va < vt).
    { apply Z.mul_lt_mono_pos_r with (p := PA * PT); [assumption|].
      rewrite Ea2, Et2. apply Z.mul_lt_mono_pos_r; assumption. }
    replace (2 * va ?= vt) with Lt by (symmetry; apply Z.compare_lt_iff; assumption).
    symmetry. apply Z.ltb_ge. lia.
Qed.

End FloatFacts.

(** * Facts about the base cache *)

Ltac unfold_with :=
  unfold LRUCache.with_cache, LRUCache.with_hits, LRUCache.with_misses,
         LRUCache.with_bulk_misses, LRUCache.with_evictions,
         LRUCache.with_expirations in *.

Ltac fields :=
  cbn [LRUCache.with_cache LRUCache.with_hits LRUCache.with_misses
       LRUCache.with_bulk_misses LRUCache.with_evictions
       LRUCache.with_expirations
       LRUCache.max_size LRUCache.ttl LRUCache.ttl_seconds LRUCache.cache
       LRUCache.hits LRUCache.misses LRUCache.bulk_misses LRUCache.evictions
       LRUCache.expirations] in *.

Section LRUFacts.
Variable K : Type.
Variable K_eq_dec : forall x y : K, {x = y} + {x <> y}.

Local Abbreviation getitem := (@OrderedDict.getitem K LRUCache.entry K_eq_dec).
Local Abbreviation delitem := (@OrderedDict.delitem K LRUCache.entry K_eq_dec).
Local Abbreviation setitem := (@OrderedDict.setitem K LRUCache.entry K_eq_dec).
Local Abbreviation keys_of := (@OrderedDict.keys K LRUCache.entry).
Local Abbreviation cache := (@LRUCache.cache K).

(** Two objects that answer every lookup alike, with the same
    [ttl_seconds], send every key to the same branch. *)
Lemma branch_of_ext (s1 s2 : LRUCache.t K) (rt : datetime) (k : K) :
  (forall k', getitem k' (cache s1) = getitem k' (cache s2)) ->
  LRUCache.ttl_seconds s1 = LRUCache.ttl_seconds s2 ->
  LRUCache.branch_of K_eq_dec s1 rt k = LRUCache.branch_of K_eq_dec s2 rt k.
Proof.
  intros Hget Httl. unfold LRUCache.branch_of, LRUCache._is_expired_at_time.
  now rewrite Hget, Httl.
Qed.

(** The first loop of [get]: it never raises, leaves every lookup as it
    was, and sorts the keys by the branch they take in the cache the
    loop started from. *)
Lemma scan_spec (rt : datetime) (keys : list K) :
  forall st : LRUCache.scan K,
    let self := LRUCache.scan_self st in
    exists d,
      for_each (LRUCache.scan_key K_eq_dec rt) keys st =
      Ok (LRUCache.mk_scan
            (LRUCache.with_hits (LRUCache.with_cache self d)
               (LRUCache.hits self +
                Z.of_nat (length (filter (LRUCache.is_hit K_eq_dec self rt) keys))))
            (LRUCache.results st ++ repeat 0 (length keys))
            (LRUCache.missing_keys st ++
             filter (LRUCache.is_missing K_eq_dec self rt) keys)
            (LRUCache.expired_keys st ++
             filter (LRUCache.is_expired K_eq_dec self rt) keys))
      /\ (forall k, getitem k d = getitem k (cache self))
      /\ (length d <= length (cache self))%nat
      /\ (NoDup (keys_of (cache self)) -> NoDup (keys_of d)).
Proof.
  induction keys as [|k keys IH]; intros [self res mis exp].
  - exists (cache self). destruct self; simpl.
    rewrite !app_nil_r, Z.add_0_r. auto.
  - cbn [for_each filter length repeat LRUCache.scan_self LRUCache.results
         LRUCache.missing_keys LRUCache.expired_keys].
    unfold LRUCache.scan_key at 1.
    cbn [LRUCache.scan_self LRUCache.results LRUCache.missing_keys
         LRUCache.expired_keys].
    destruct (LRUCache.branch_of K_eq_dec self rt k) eqn:Hb;
      unfold LRUCache.is_hit at 1, LRUCache.is_missing at 1,
             LRUCache.is_expired at 1;
      rewrite Hb; unfold LRUCache.branch_of in Hb;
      destruct (getitem k (cache self)) as [[v ts]|] eqn:Ek;
      try destruct (LRUCache._is_expired_at_time self ts rt) eqn:Ex;
      try discriminate Hb; clear Hb.
    + destruct (IH (LRUCache.mk_scan self (res ++ [0]) (mis ++ [k]) exp))
        as (d & Hrun & Hd). cbn [bind]. rewrite Hrun. simpl in *.
      exists d. split; [|exact Hd].
      now rewrite <- !app_assoc.
    + destruct (IH (LRUCache.mk_scan self (res ++ [0]) mis (exp ++ [k])))
        as (d & Hrun & Hd). cbn [bind]. rewrite Hrun. simpl in *.
      exists d. split; [|exact Hd].
      now rewrite <- !app_assoc.
    + rewrite (move_to_end_present _ _ _ Ek). cbn [bind].
      set (self1 := LRUCache.with_hits _ _).
      destruct (IH (LRUCache.mk_scan self1 (res ++ [0]) mis exp))
        as (d & Hrun & Hget & Hlen & Hnd). rewrite Hrun. simpl in *.
      assert (Hext : forall k', LRUCache.branch_of K_eq_dec self1 rt k' =
                                LRUCache.branch_of K_eq_dec self rt k').
      { intros k'. apply branch_of_ext; [|reflexivity].
        intros k''. subst self1. simpl. now apply getitem_move. }
      exists d. repeat split.
      * f_equal. f_equal.
        -- rewrite (filter_ext _ (LRUCache.is_hit K_eq_dec self rt)).
           2:{ intros a. unfold LRUCache.is_hit. now rewrite Hext. }
           subst self1. destruct self. unfold_with. simpl. f_equal.
           rewrite Zpos_P_of_succ_nat. lia.
        -- now rewrite <- app_assoc.
        -- f_equal. apply filter_ext. intros a.
           unfold LRUCache.is_missing. now rewrite Hext.
        -- f_equal. apply filter_ext. intros a.
           unfold LRUCache.is_expired. now rewrite Hext.
      * intros k'. rewrite Hget. subst self1. simpl. now apply getitem_move.
      * subst self1. simpl in Hlen. rewrite length_app in Hlen. simpl in Hlen.
        assert (getitem k (cache self) <> None) as Hp by congruence.
        apply (length_delitem_present K_eq_dec) in Hp. lia.
      * intros H. apply Hnd. subst self1. simpl. now apply NoDup_move.
Qed.

Lemma getitem_refresh (k k' : K) (e : LRUCache.entry) (d : OrderedDict.t K LRUCache.entry) :
  getitem k' (delitem k d ++ [(k, e)]) =
  if K_eq_dec k' k then Some e else getitem k' d.
Proof.
  rewrite getitem_app, getitem_delitem. simpl.
  destruct (K_eq_dec k' k); [reflexivity|]. now destruct (getitem k' d).
Qed.

(** One pass of the loop over [expired_keys]. *)
Lemma reinsert_expired_eq (rt : datetime) (self : LRUCache.t K) (k : K) :
  LRUCache.reinsert_expired K_eq_dec rt self k =
  Ok (LRUCache.with_expirations
        (LRUCache.with_cache self (delitem k (cache self) ++ [(k, (0, rt))]))
        (LRUCache.expirations self + 1)).
Proof.
  unfold LRUCache.reinsert_expired.
  rewrite (@move_to_end_present _ _ K_eq_dec k (0, rt)).
  - simpl. now rewrite delitem_setitem.
  - rewrite getitem_setitem. destruct (K_eq_dec k k); congruence.
Qed.

Lemma reinsert_spec (rt : datetime) (ks : list K) :
  forall self : LRUCache.t K,
    exists d,
      for_each (LRUCache.reinsert_expired K_eq_dec rt) ks self =
      Ok (LRUCache.with_expirations (LRUCache.with_cache self d)
            (LRUCache.expirations self + Z.of_nat (length ks)))
      /\ (forall k, getitem k d =
                    if in_dec K_eq_dec k ks then Some (0, rt)
                    else getitem k (cache self))
      /\ ((forall k, In k ks -> getitem k (cache self) <> None) ->
          (length d <= length (cache self))%nat)
      /\ (NoDup (keys_of (cache self)) -> NoDup (keys_of d)).
Proof.
  induction ks as [|k ks IH]; intros self.
  - exists (cache self). destruct self; unfold_with; simpl.
    rewrite Z.add_0_r. auto.
  - cbn [for_each]. rewrite reinsert_expired_eq. cbn [bind].
    set (self1 := LRUCache.with_expirations _ _).
    destruct (IH self1) as (d & Hrun & Hget & Hlen & Hnd).
    exists d. rewrite Hrun. repeat split.
    + subst self1. destruct self; unfold_with; simpl. do 2 f_equal.
      rewrite Zpos_P_of_succ_nat. lia.
    + intros k'. rewrite Hget. subst self1. unfold_with.
      cbn [LRUCache.cache]. rewrite getitem_refresh.
      destruct (in_dec K_eq_dec k' (k :: ks)) as [H1|H1];
        destruct (in_dec K_eq_dec k' ks) as [H2|H2];
        destruct (K_eq_dec k' k) as [E|E]; try reflexivity;
        exfalso; simpl in H1; intuition congruence.
    + intros Hp. subst self1. unfold_with. simpl in *.
      assert (length d <= length (delitem k (cache self) ++ [(k, (0%Z, rt))]))%nat
        as Hle.
      { apply Hlen. intros k' Hk'. rewrite getitem_refresh.
        destruct (K_eq_dec k' k); [congruence|]. apply Hp. now right. }
      rewrite length_app in Hle. simpl in Hle.
      pose proof (@length_delitem_present _ _ K_eq_dec k (cache self)
                    (Hp k (or_introl eq_refl))). lia.
    + intros H. apply Hnd. subst self1. unfold_with. simpl. now apply NoDup_move.
Qed.

(** One pass of the loop of [_add_keys_to_cache], on a cache that is
    not full or not empty. *)
Lemma add_key_eq (ts : datetime) (self : LRUCache.t K) (k : K) :
  1 <= LRUCache.max_size self ->
  LRUCache.add_key K_eq_dec ts self k =
  Ok (if OrderedDict.len (cache self) >=? LRUCache.max_size self then
        LRUCache.with_evictions
          (LRUCache.with_cache self (setitem k (0, ts) (tl (cache self))))
          (LRUCache.evictions self + 1)
      else LRUCache.with_cache self (setitem k (0, ts) (cache self))).
Proof.
  intros Hmax. unfold LRUCache.add_key.
  destruct (OrderedDict.len (cache self) >=? LRUCache.max_size self) eqn:E.
  - destruct self as [ms tl tls [|e c] h m bm ev ex]; simpl in *.
    + unfold OrderedDict.len in E. simpl in E. lia.
    + reflexivity.
  - reflexivity.
Qed.

Lemma add_spec (ts : datetime) (ks : list K) :
  forall self : LRUCache.t K,
    1 <= LRUCache.max_size self ->
    exists d n,
      LRUCache._add_keys_to_cache K_eq_dec self ks ts =
      Ok (LRUCache.with_evictions (LRUCache.with_cache self d)
            (LRUCache.evictions self + n))
      /\ 0 <= n
      /\ (OrderedDict.len (cache self) <= LRUCache.max_size self ->
          OrderedDict.len d <= LRUCache.max_size self)
      /\ (NoDup (keys_of (cache self)) ->
          NoDup (keys_of d) /\
          forall k e, getitem k d = Some e ->
                      e = (0, ts) \/ getitem k (cache self) = Some e).
Proof.
  unfold LRUCache._add_keys_to_cache.
  induction ks as [|k ks IH]; intros self Hmax.
  - exists (cache self), 0. destruct self; unfold_with; simpl.
    rewrite Z.add_0_r. repeat split; auto; lia.
  - cbn [for_each]. rewrite add_key_eq by assumption. cbn [bind].
    destruct (OrderedDict.len (cache self) >=? LRUCache.max_size self) eqn:E.
    + set (self1 := LRUCache.with_evictions _ _).
      destruct (IH self1) as (d & n & Hrun & Hn & Hlen & Hnd).
      { subst self1. now destruct self. }
      exists d, (n + 1). rewrite Hrun.
      split; [|split; [|split; [|intros Hc; split]]].
      * subst self1. destruct self; unfold_with; simpl. do 2 f_equal. lia.
      * lia.
      * intros Hc. subst self1. destruct self as [ms tl tls c h m bm ev ex].
        unfold_with. simpl in *. apply Hlen.
        pose proof (@length_setitem_le K LRUCache.entry K_eq_dec k (0, ts) (List.tl c)).
        unfold OrderedDict.len in *.
        assert (length c = S (length (List.tl c))) as Hc1.
        { destruct c; [simpl in E; lia|reflexivity]. }
        eapply Z.le_trans; [apply Nat2Z.inj_le; exact H|].
        rewrite <- Hc1. exact Hc.
      * subst self1. destruct self as [ms tl tls c h m bm ev ex].
        unfold_with. simpl in *. apply Hnd.
        apply NoDup_setitem. destruct c; simpl in *; [assumption|].
        now inversion Hc.
      * subst self1. destruct self as [ms tl tls c h m bm ev ex].
        unfold_with. simpl in *. intros k' e He.
        assert (NoDup (keys_of (List.tl c))) as Hc'.
        { destruct c; simpl in *; [assumption|]. now inversion Hc. }
        destruct Hnd as [_ Hnd]; [now apply NoDup_setitem|].
        destruct (Hnd _ _ He) as [->|He']; [now left|].
        rewrite getitem_setitem in He'.
        destruct (K_eq_dec k' k); [left; congruence|]. right.
        destruct c as [|e0 c]; simpl in *; [assumption|].
        pose proof (@getitem_tail K LRUCache.entry K_eq_dec k' e0 c Hc) as Ht.
        destruct e0 as [k0 v0]. simpl in *.
        destruct (K_eq_dec k' k0); [|assumption].
        exfalso. revert He'. rewrite Ht. discriminate.
    + set (self1 := LRUCache.with_cache _ _).
      destruct (IH self1) as (d & n & Hrun & Hn & Hlen & Hnd).
      { subst self1. now destruct self. }
      exists d, n. rewrite Hrun.
      split; [|split; [|split; [|intros Hc; split]]].
      * subst self1. destruct self; unfold_with; simpl. reflexivity.
      * lia.
      * intros Hc. subst self1. destruct self as [ms tl tls c h m bm ev ex].
        unfold_with. simpl in *. apply Hlen.
        pose proof (@length_setitem_le K LRUCache.entry K_eq_dec k (0, ts) c).
        unfold OrderedDict.len in *.
        eapply Z.le_trans; [apply Nat2Z.inj_le; exact H|].
        rewrite Nat2Z.inj_succ. rewrite Z.geb_leb in E.
        apply Z.leb_gt in E. apply Z.le_succ_l. exact E.
      * subst self1. destruct self as [ms tl tls c h m bm ev ex].
        unfold_with. simpl in *. apply Hnd.
        now apply NoDup_setitem.
      * subst self1. destruct self as [ms tl tls c h m bm ev ex].
        unfold_with. simpl in *. intros k' e He.
        destruct Hnd as [_ Hnd]; [now apply NoDup_setitem|].
        destruct (Hnd _ _ He) as [->|He']; [now left|].
        rewrite getitem_setitem in He'.
        destruct (K_eq_dec k' k); [left; congruence|now right].
Qed.

Lemma add_guard (self : LRUCache.t K) (mis : list K) (rt : datetime) :
  match mis with
  | [] => Ok self
  | _ :: _ => LRUCache._add_keys_to_cache K_eq_dec self mis rt
  end = LRUCache._add_keys_to_cache K_eq_dec self mis rt.
Proof. now destruct mis. Qed.

Lemma is_expired_present (self : LRUCache.t K) (rt : datetime) (k : K) :
  LRUCache.is_expired K_eq_dec self rt k = true ->
  getitem k (cache self) <> None.
Proof.
  unfold LRUCache.is_expired, LRUCache.branch_of.
  destruct (getitem k (cache self)); [congruence|discriminate].
Qed.

Lemma not_expired_fresh (self : LRUCache.t K) (rt : datetime) (k : K) v ts :
  LRUCache.is_expired K_eq_dec self rt k = false ->
  getitem k (cache self) = Some (v, ts) ->
  LRUCache._is_expired_at_time self ts rt = false.
Proof.
  unfold LRUCache.is_expired, LRUCache.branch_of. intros H E.
  rewrite E in H. now destruct (LRUCache._is_expired_at_time self ts rt).
Qed.

(** [get] on a cache of positive capacity: it returns, and this is the
    object it leaves. *)
Lemma get_spec (now : datetime) (self : LRUCache.t K) (keys : list K)
      (rt : datetime) :
  1 <= LRUCache.max_size self ->
  let mis := filter (LRUCache.is_missing K_eq_dec self rt) keys in
  let exp := filter (LRUCache.is_expired K_eq_dec self rt) keys in
  exists d n,
    LRUCache.get K_eq_dec now self keys (Some rt) =
    Ok (repeat 0 (length keys),
        LRUCache.mk (LRUCache.max_size self) (LRUCache.ttl self)
          (LRUCache.ttl_seconds self) d
          (LRUCache.hits self +
           Z.of_nat (length (filter (LRUCache.is_hit K_eq_dec self rt) keys)))
          (LRUCache.misses self + Z.of_nat (length (mis ++ exp)))
          (LRUCache.bulk_misses self +
           match mis ++ exp with [] => 0 | _ :: _ => 1 end)
          (LRUCache.evictions self + n)
          (LRUCache.expirations self + Z.of_nat (length exp)))
    /\ 0 <= n
    /\ (OrderedDict.len (cache self) <= LRUCache.max_size self ->
        OrderedDict.len d <= LRUCache.max_size self)
    /\ (NoDup (keys_of (cache self)) -> NoDup (keys_of d))
    /\ (NoDup (keys_of (cache self)) ->
        LRUCache._is_expired_at_time self rt rt = false ->
        forall k v ts, In k keys -> getitem k d = Some (v, ts) ->
                       LRUCache._is_expired_at_time self ts rt = false).
Proof.
  intros Hmax mis exp. destruct keys as [|k0 ks].
  - exists (cache self), 0. subst mis exp. destruct self; simpl.
    rewrite !Z.add_0_r. repeat split; auto; try lia.
  - set (keys := k0 :: ks) in *.
    unfold LRUCache.get. cbv iota. fold keys.
    destruct (scan_spec rt keys (LRUCache.mk_scan self [] [] []))
      as (d1 & Hscan & Hget1 & Hlen1 & Hnd1).
    cbn [LRUCache.scan_self LRUCache.results LRUCache.missing_keys
         LRUCache.expired_keys app] in *.
    rewrite Hscan. cbn [bind LRUCache.scan_self LRUCache.results
                        LRUCache.missing_keys LRUCache.expired_keys].
    fold mis exp. set (nh := Z.of_nat (length (filter _ keys))).
    destruct (mis ++ exp) as [|a all] eqn:Eall.
    + apply app_eq_nil in Eall. destruct Eall as [Emis Eexp].
      exists d1, 0. split; [|split; [lia|split; [|split]]].
      * rewrite Eexp. destruct self. fields. simpl. now rewrite !Z.add_0_r.
      * intros Hc. unfold OrderedDict.len in *. lia.
      * assumption.
      * intros Hnd Hrt k v ts Hk Hd. rewrite Hget1 in Hd.
        apply (@not_expired_fresh self rt k v ts); [|assumption].
        destruct (LRUCache.is_expired K_eq_dec self rt k) eqn:Ek; [|reflexivity].
        exfalso. assert (In k exp) as Hin by (apply filter_In; auto).
        rewrite Eexp in Hin. destruct Hin.
    + rewrite <- Eall. clear a all Eall.
      set (self1 := LRUCache.with_hits _ _).
      destruct (reinsert_spec rt exp self1) as (d2 & Hrun2 & Hget2 & Hlen2 & Hnd2).
      rewrite Hrun2. cbn [bind]. rewrite add_guard.
      set (self2 := LRUCache.with_expirations _ _).
      destruct (add_spec rt mis self2) as (d3 & n & Hrun3 & Hn & Hlen3 & Hnd3).
      { subst self2 self1. now fields. }
      rewrite Hrun3. cbn [bind]. clear Hscan Hrun2 Hrun3.
      exists d3, n. subst self2 self1. fields.
      split; [reflexivity|]. split; [assumption|].
      assert (length d2 <= length d1)%nat as Hle2.
      { apply Hlen2. intros k Hk. rewrite Hget1.
        apply filter_In in Hk. destruct Hk as [_ Hk].
        now apply is_expired_present in Hk. }
      split; [|split].
      * intros Hc. apply Hlen3. unfold OrderedDict.len in *. lia.
      * intros Hc. now apply Hnd3, Hnd2, Hnd1.
      * intros Hc Hrt k v ts Hk Hd.
        destruct Hnd3 as [_ Hnd3]; [now apply Hnd2, Hnd1|].
        destruct (Hnd3 _ _ Hd) as [E|E]; [inversion E; subst; exact Hrt|].
        rewrite Hget2 in E.
        destruct (in_dec K_eq_dec k exp) as [Hin|Hin];
          [inversion E; subst; exact Hrt|].
        rewrite Hget1 in E.
        apply (@not_expired_fresh self rt k v ts); [|assumption].
        destruct (LRUCache.is_expired K_eq_dec self rt k) eqn:Ek; [|reflexivity].
        exfalso. apply Hin. apply filter_In; auto.
Qed.

(** Whatever [get] returns is a list of zeros, one per key. *)
Lemma get_results (now : datetime) (self : LRUCache.t K) (keys : list K)
      (request_time : option datetime) (r : list Z) (c' : LRUCache.t K) :
  LRUCache.get K_eq_dec now self keys request_time = Ok (r, c') ->
  r = repeat 0 (length keys).
Proof.
  destruct keys as [|k0 ks].
  - simpl. intros E. now inversion E.
  - unfold LRUCache.get. set (keys := k0 :: ks).
    set (rt := match request_time with Some t => t | None => now end).
    destruct (scan_spec rt keys (LRUCache.mk_scan self [] [] []))
      as (d1 & Hscan & _).
    cbn [LRUCache.scan_self LRUCache.results LRUCache.missing_keys
         LRUCache.expired_keys app] in Hscan.
    rewrite Hscan. cbn [bind LRUCache.results LRUCache.scan_self
                        LRUCache.missing_keys LRUCache.expired_keys app].
    destruct (_ ++ _).
    + intros E. now inversion E.
    + repeat match goal with
             | |- bind ?m _ = _ -> _ => destruct m; cbn [bind]; [|discriminate]
             end.
      intros E. now inversion E.
Qed.

Lemma get_None (now : datetime) (self : LRUCache.t K) (keys : list K) :
  LRUCache.get K_eq_dec now self keys None =
  LRUCache.get K_eq_dec now self keys (Some now).
Proof. reflexivity. Qed.

(** A lookup of one key that is held and fresh. *)
Lemma get_single_hit (now : datetime) (self : LRUCache.t K) (k : K)
      (v : Z) (ts rt : datetime) :
  getitem k (cache self) = Some (v, ts) ->
  LRUCache._is_expired_at_time self ts rt = false ->
  LRUCache.get K_eq_dec now self [k] (Some rt) =
  Ok ([0], LRUCache.with_hits
             (LRUCache.with_cache self (delitem k (cache self) ++ [(k, (v, ts))]))
             (LRUCache.hits self + 1)).
Proof.
  intros Hk Hx. unfold LRUCache.get, LRUCache.scan_key. cbn [for_each].
  cbn [LRUCache.scan_self]. rewrite Hk, Hx.
  rewrite (move_to_end_present _ _ _ Hk). reflexivity.
Qed.



(** Nor is a key of age zero, when [ttl] is not negative. *)
Lemma not_expired_at_once (self : LRUCache.t K) (t : datetime) :
  LRUCache.ttl_seconds self = total_seconds (LRUCache.ttl self) ->
  0 <= LRUCache.ttl self ->
  LRUCache._is_expired_at_time self t t = false.
Proof.
  intros H Hpos. unfold LRUCache._is_expired_at_time. rewrite H, Z.sub_diag.
  now apply zero_not_gt_total_seconds.
Qed.


(** [get] keeps the class invariant. *)
Lemma get_wf (now : datetime) (self : LRUCache.t K) (keys : list K)
      (request_time : option datetime) :
  1 <= LRUCache.max_size self ->
  LRUCache.wf self ->
  exists c', LRUCache.get K_eq_dec now self keys request_time =
             Ok (repeat 0 (length keys), c') /\ LRUCache.wf c'.
Proof.
  intros Hmax [Hnd Httl].
  assert (exists rt, LRUCache.get K_eq_dec now self keys request_time =
                     LRUCache.get K_eq_dec now self keys (Some rt)) as [rt ->].
  { destruct request_time as [rt|]; [now exists rt|now exists now]. }
  destruct (get_spec now self keys rt Hmax) as (d & n & Hget & _ & _ & Hnd' & _).
  rewrite Hget. eexists. split; [reflexivity|].
  split; [now apply Hnd'|exact Httl].
Qed.

End LRUFacts.

(** * Facts about the batch layer *)

Section BatchFacts.
Variable K : Type.
Variable K_eq_dec : forall x y : K, {x = y} + {x <> y}.

Local Abbreviation getitem := (@OrderedDict.getitem K LRUCache.entry K_eq_dec).
Local Abbreviation delitem := (@OrderedDict.delitem K LRUCache.entry K_eq_dec).
Local Abbreviation keys_of := (@OrderedDict.keys K LRUCache.entry).
Local Abbreviation cache := (@LRUCache.cache K).
Local Abbreviation not_queued q :=
  (fun e : K * LRUCache.entry => if in_dec K_eq_dec (fst e) q then false else true).

Lemma in_dec_cons (A : Type) (x k : K) (q : list K) (a b : A) :
  (if in_dec K_eq_dec x (k :: q) then a else b) =
  (if K_eq_dec x k then a else if in_dec K_eq_dec x q then a else b).
Proof.
  destruct (in_dec K_eq_dec x (k :: q)) as [H|H];
    destruct (K_eq_dec x k) as [E|E];
    destruct (in_dec K_eq_dec x q) as [H'|H']; try reflexivity;
    exfalso; simpl in H; intuition congruence.
Qed.

Lemma filter_all (A : Type) (l : list A) : filter (fun _ => true) l = l.
Proof. induction l; simpl; congruence. Qed.

Lemma filter_delitem (k : K) (q : list K) (c : OrderedDict.t K LRUCache.entry) :
  filter (not_queued q) (delitem k c) = filter (not_queued (k :: q)) c.
Proof.
  induction c as [|[k0 e0] c IH]; [reflexivity|].
  cbn [OrderedDict.delitem]. destruct (K_eq_dec k k0) as [->|Hne].
  - rewrite IH. cbn [filter fst]. rewrite (in_dec_cons k0 k0 q false true).
    destruct (K_eq_dec k0 k0); [reflexivity|congruence].
  - cbn [filter fst]. rewrite (in_dec_cons k0 k q false true).
    destruct (K_eq_dec k0 k); [congruence|].
    destruct (in_dec K_eq_dec k0 q); rewrite IH; reflexivity.
Qed.

(** One pass of the loop of [_process_refresh_batch]. *)
Lemma refresh_key_eq (rt : datetime) (b : LRUCache.t K) (k : K) :
  BatchRefreshCache.refresh_key K_eq_dec rt b k =
  Ok (if OrderedDict.contains K_eq_dec k (cache b) then
        LRUCache.with_cache b (delitem k (cache b) ++ [(k, (0, rt))])
      else b).
Proof.
  unfold BatchRefreshCache.refresh_key.
  destruct (OrderedDict.contains K_eq_dec k (cache b)); [|reflexivity].
  rewrite (@move_to_end_present _ _ K_eq_dec k (0, rt)).
  - simpl. now rewrite delitem_setitem.
  - rewrite getitem_setitem. destruct (K_eq_dec k k); congruence.
Qed.

(** The loop of [_process_refresh_batch] over a queue [q]: every queued
    key that is held gets the request time and moves behind all keys
    that are not queued; nothing else changes and nothing is raised. *)
Lemma refresh_spec (rt : datetime) (q : list K) :
  forall b : LRUCache.t K,
    exists d,
      for_each (BatchRefreshCache.refresh_key K_eq_dec rt) q b =
      Ok (LRUCache.with_cache b d)
      /\ (forall k, getitem k d =
                    if in_dec K_eq_dec k q then
                      match getitem k (cache b) with
                      | Some _ => Some (0, rt)
                      | None => None
                      end
                    else getitem k (cache b))
      /\ (length d <= length (cache b))%nat
      /\ (NoDup (keys_of (cache b)) -> NoDup (keys_of d))
      /\ exists tail,
          d = filter (not_queued q) (cache b) ++ tail /\
          Forall (fun e => In (fst e) q /\ snd e = (0, rt)) tail.
Proof.
  induction q as [|k q IH]; intros b.
  - exists (cache b). split; [now destruct b|]. split; [reflexivity|].
    split; [lia|]. split; [auto|]. exists []. simpl.
    now rewrite filter_all, app_nil_r.
  - cbn [for_each]. rewrite refresh_key_eq. cbn [bind].
    unfold OrderedDict.contains.
    destruct (getitem k (cache b)) as [e0|] eqn:Ek.
    + set (c1 := delitem k (cache b) ++ [(k, (0, rt))]).
      destruct (IH (LRUCache.with_cache b c1))
        as (d & Hrun & Hget & Hlen & Hnd & tail & Hd & Htail).
      fields. exists d. split; [rewrite Hrun; now destruct b|].
      split; [|split; [|split]].
      * intros k'. rewrite Hget. unfold c1. rewrite getitem_refresh.
        rewrite in_dec_cons.
        destruct (K_eq_dec k' k) as [->|Hne]; [|reflexivity].
        rewrite Ek. now destruct (in_dec K_eq_dec k q).
      * unfold c1 in Hlen. rewrite length_app in Hlen. simpl in Hlen.
        assert (getitem k (cache b) <> None) as Hp by congruence.
        apply (length_delitem_present K_eq_dec) in Hp. lia.
      * intros H. apply Hnd. unfold c1. now apply NoDup_move.
      * unfold c1 in Hd. rewrite filter_app, filter_delitem in Hd.
        rewrite <- app_assoc in Hd. eexists. split; [exact Hd|].
        apply Forall_app. split.
        -- simpl. destruct (in_dec K_eq_dec k q); constructor; simpl; auto.
        -- eapply Forall_impl; [|exact Htail]. simpl. tauto.
    + destruct (IH b) as (d & Hrun & Hget & Hlen & Hnd & tail & Hd & Htail).
      exists d. split; [exact Hrun|]. split; [|split; [|split]]; auto.
      * intros k'. rewrite Hget, in_dec_cons.
        destruct (K_eq_dec k' k) as [->|Hne]; [|reflexivity].
        rewrite Ek. now destruct (in_dec K_eq_dec k q).
      * exists tail. split.
        -- rewrite Hd. f_equal. apply filter_ext_in. intros [k0 e0] Hin.
           cbn [fst]. rewrite in_dec_cons.
           destruct (K_eq_dec k0 k) as [->|]; [|reflexivity].
           exfalso. apply (getitem_None K_eq_dec) in Ek. apply Ek.
           change k with (fst (k, e0)). now apply in_map.
        -- eapply Forall_impl; [|exact Htail]. simpl. tauto.
Qed.

Lemma process_flush (rt : datetime) (self : BatchRefreshCache.t K) :
  BatchRefreshCache.max_request_size self <=
  Z.of_nat (length (BatchRefreshCache.refresh_batch self)) ->
  exists d,
    BatchRefreshCache._process_refresh_batch K_eq_dec self rt =
    Ok (BatchRefreshCache.mk
          (LRUCache.with_cache (BatchRefreshCache.base self) d)
          (BatchRefreshCache.half_ttl self)
          (BatchRefreshCache.max_request_size self)
          (BatchRefreshCache.half_ttl_seconds self)
          [] (BatchRefreshCache.batch_updates self + 1))
    /\ refreshed K_eq_dec rt (BatchRefreshCache.refresh_batch self)
                 (cache (BatchRefreshCache.base self)) d
    /\ (length d <= length (cache (BatchRefreshCache.base self)))%nat
    /\ (NoDup (keys_of (cache (BatchRefreshCache.base self))) -> NoDup (keys_of d)).
Proof.
  intros Hq. unfold BatchRefreshCache._process_refresh_batch.
  destruct (Z.geb_spec (Z.of_nat (length (BatchRefreshCache.refresh_batch self)))
              (BatchRefreshCache.max_request_size self)) as [_|Hlt]; [|lia].
  destruct (refresh_spec rt (BatchRefreshCache.refresh_batch self)
              (BatchRefreshCache.base self))
    as (d & Hrun & Hget & Hlen & Hnd & Htail).
  rewrite Hrun. cbn [bind]. exists d.
  split; [reflexivity|]. split; [|split; assumption].
  split; [|split; [|split; [|exact Htail]]].
  - intros k Hk Hp. rewrite Hget.
    destruct (in_dec K_eq_dec k _); [|contradiction].
    now destruct (getitem k _).
  - intros k Hk. rewrite Hget, Hk. now destruct (in_dec K_eq_dec k _).
  - intros k Hk. rewrite Hget.
    destruct (in_dec K_eq_dec k _); [contradiction|reflexivity].
Qed.

Lemma process_idle (rt : datetime) (self : BatchRefreshCache.t K) :
  Z.of_nat (length (BatchRefreshCache.refresh_batch self)) <
  BatchRefreshCache.max_request_size self ->
  BatchRefreshCache._process_refresh_batch K_eq_dec self rt = Ok self.
Proof.
  intros Hq. unfold BatchRefreshCache._process_refresh_batch.
  destruct (Z.geb_spec (Z.of_nat (length (BatchRefreshCache.refresh_batch self)))
              (BatchRefreshCache.max_request_size self)) as [Hge|_]; [lia|].
  reflexivity.
Qed.

(** [get] on the batch layer with a cache of positive capacity: it
    returns one zero per key and keeps the size bound. *)
Lemma batch_get_spec (now : datetime) (self : BatchRefreshCache.t K)
      (keys : list K) (request_time : option datetime) :
  let M := LRUCache.max_size (BatchRefreshCache.base self) in
  1 <= M ->
  exists c',
    BatchRefreshCache.get K_eq_dec now self keys request_time =
    Ok (repeat 0 (length keys), c')
    /\ LRUCache.max_size (BatchRefreshCache.base c') = M
    /\ (OrderedDict.len (cache (BatchRefreshCache.base self)) <= M ->
        OrderedDict.len (cache (BatchRefreshCache.base c')) <= M).
Proof.
  intros M Hmax. destruct keys as [|k0 ks].
  - exists self. simpl. auto.
  - unfold BatchRefreshCache.get. set (keys := k0 :: ks).
    set (rt := match request_time with Some t => t | None => now end).
    set (self1 := BatchRefreshCache.with_refresh_batch _ _).
    destruct (get_spec K_eq_dec now (BatchRefreshCache.base self) keys rt Hmax)
      as (d & n & Hget & _ & Hlen & _).
    change (BatchRefreshCache.base self1) with (BatchRefreshCache.base self).
    rewrite Hget. cbn [bind fst snd].
    set (self2 := BatchRefreshCache.with_base _ _).
    unfold BatchRefreshCache._process_refresh_batch.
    destruct (_ >=? _).
    + destruct (refresh_spec rt (BatchRefreshCache.refresh_batch self2)
                  (BatchRefreshCache.base self2)) as (d' & Hrun & _ & Hlen' & _).
      rewrite Hrun. cbn [bind]. eexists. split; [reflexivity|].
      subst self2. cbn in *. split; [reflexivity|].
      intros Hc. apply Hlen in Hc. unfold OrderedDict.len in *. lia.
    + cbn [bind]. eexists. split; [reflexivity|].
      subst self2. cbn. auto.
Qed.

End BatchFacts.

Lemma sample_batch_reached :
  (b <- BatchRefreshCache.init Z 3 (seconds 10) float_half 2 ;;
   batch_run Z.eq_dec b
     [mk_call 0 [1; 2; 3] (Some 0); mk_call 0 [4] (Some (seconds 1));
      mk_call 0 [2] (Some (seconds 5)); mk_call 0 [2] (Some (seconds 6))])
  = Ok sample_batch.
Proof. vm_compute. reflexivity. Qed.

Lemma sample_cache_reached :
  (b <- LRUCache.init Z 3 (seconds 10) ;;
   lru_run Z.eq_dec b [mk_call 0 [1; 2] (Some 0)]) = Ok sample_cache.
Proof. vm_compute. reflexivity. Qed.

(** * The properties of the specification *)

Section Claims.
Variable K : Type.
Variable K_eq_dec : forall x y : K, {x = y} + {x <> y}.

Local Abbreviation getitem := (@OrderedDict.getitem K LRUCache.entry K_eq_dec).
Local Abbreviation delitem := (@OrderedDict.delitem K LRUCache.entry K_eq_dec).
Local Abbreviation cache := (@LRUCache.cache K).

Lemma lru_call_inv (M : Z) (self : LRUCache.t K) (c : call K) :
  1 <= M ->
  LRUCache.max_size self = M /\ LRUCache.size self <= M ->
  exists s', lru_call K_eq_dec self c = Ok s' /\
             (LRUCache.max_size s' = M /\ LRUCache.size s' <= M).
Proof.
  intros HM [Hmax Hsize]. unfold lru_call.
  assert (exists rt, LRUCache.get K_eq_dec (call_now c) self (call_keys c)
                                  (call_time c) =
                     LRUCache.get K_eq_dec (call_now c) self (call_keys c)
                                  (Some rt)) as [rt ->].
  { destruct (call_time c) as [rt|]; [now exists rt|now exists (call_now c)]. }
  destruct (get_spec K_eq_dec (call_now c) self (call_keys c) rt)
    as (d & n & Hget & _ & Hlen & _); [lia|].
  rewrite Hget. cbn [bind snd]. eexists. split; [reflexivity|].
  unfold LRUCache.size in *. cbn [LRUCache.max_size LRUCache.cache].
  split; [assumption|]. rewrite <- Hmax. apply Hlen. lia.
Qed.

Lemma batch_call_inv (M : Z) (self : BatchRefreshCache.t K) (c : call K) :
  1 <= M ->
  LRUCache.max_size (BatchRefreshCache.base self) = M /\
  LRUCache.size (BatchRefreshCache.base self) <= M ->
  exists s', batch_call K_eq_dec self c = Ok s' /\
             (LRUCache.max_size (BatchRefreshCache.base s') = M /\
              LRUCache.size (BatchRefreshCache.base s') <= M).
Proof.
  intros HM [Hmax Hsize]. unfold batch_call.
  destruct (batch_get_spec K_eq_dec (call_now c) self (call_keys c) (call_time c))
    as (c' & Hget & Hmax' & Hlen); [lia|].
  rewrite Hget. cbn [bind snd]. exists c'. split; [reflexivity|].
  unfold LRUCache.size in *. split; [congruence|].
  rewrite <- Hmax. apply Hlen. lia.
Qed.

(** C2. A cache built with [max_size >= 1] answers every sequence of
    [get] calls without raising, and holds at most [max_size] entries
    when the sequence ends; as the sequence is arbitrary, this is the
    bound after each of its calls.  It holds for the base cache and for
    the batch layer. *)
Theorem size_bound_after_every_call
        (max_size : Z) (ttl : timedelta) (half_ttl : float) (max_request_size : Z)
        (cs : list (call K)) :
  1 <= max_size ->
  (exists c, (b <- LRUCache.init K max_size ttl ;; lru_run K_eq_dec b cs) = Ok c /\
             LRUCache.size c <= max_size) /\
  (exists c, (b <- BatchRefreshCache.init K max_size ttl half_ttl max_request_size ;;
              batch_run K_eq_dec b cs) = Ok c /\
             LRUCache.size (BatchRefreshCache.base c) <= max_size).
Proof.
  intros HM. split.
  - cbn [LRUCache.init bind]. unfold lru_run.
    destruct (for_each_inv (lru_call K_eq_dec)
                (fun s => LRUCache.max_size s = max_size /\
                          LRUCache.size s <= max_size) cs) with
      (s := LRUCache.mk max_size ttl (total_seconds ttl)
                        (OrderedDict.empty K LRUCache.entry) 0 0 0 0 0)
      as (c & Hrun & _ & Hsize).
    + intros s x _. now apply lru_call_inv.
    + split; [reflexivity|]. unfold LRUCache.size, OrderedDict.len. simpl. lia.
    + exists c. auto.
  - cbn [BatchRefreshCache.init LRUCache.init bind]. unfold batch_run.
    destruct (for_each_inv (batch_call K_eq_dec)
                (fun s => LRUCache.max_size (BatchRefreshCache.base s) = max_size /\
                          LRUCache.size (BatchRefreshCache.base s) <= max_size) cs)
      with
      (s := BatchRefreshCache.mk
              (LRUCache.mk max_size ttl (total_seconds ttl)
                           (OrderedDict.empty K LRUCache.entry) 0 0 0 0 0)
              half_ttl max_request_size (float_mul (total_seconds ttl) half_ttl) [] 0)
      as (c & Hrun & _ & Hsize).
    + intros s x _. now apply batch_call_inv.
    + split; [reflexivity|]. unfold LRUCache.size, OrderedDict.len. simpl. lia.
    + exists c. auto.
Qed.


(** C4, as the code has it.  Construction checks nothing: for any
    [max_size], [ttl], [half_ttl] and [max_request_size] both
    constructors return an object that stores the parameters as given,
    with an empty dictionary, an empty queue and every counter ([hits],
    [misses], [bulk_misses], [evictions], [expirations], [batch_updates])
    at zero; the object satisfies the class invariant. *)
Theorem construction_accepts_everything
        (max_size : Z) (ttl : timedelta) (half_ttl : float) (max_request_size : Z) :
  (exists c, LRUCache.init K max_size ttl = Ok c /\
             LRUCache.max_size c = max_size /\ LRUCache.ttl c = ttl /\
             LRUCache.size c = 0 /\ LRUCache.wf c /\
             LRUCache.total_requests c = 0 /\
             LRUCache.cache c = [] /\
             LRUCache.hits c = 0 /\ LRUCache.misses c = 0 /\
             LRUCache.bulk_misses c = 0 /\ LRUCache.evictions c = 0 /\
             LRUCache.expirations c = 0) /\
  (exists b, BatchRefreshCache.init K max_size ttl half_ttl max_request_size = Ok b /\
             LRUCache.max_size (BatchRefreshCache.base b) = max_size /\
             LRUCache.ttl (BatchRefreshCache.base b) = ttl /\
             BatchRefreshCache.half_ttl b = half_ttl /\
             BatchRefreshCache.max_request_size b = max_request_size /\
             LRUCache.size (BatchRefreshCache.base b) = 0 /\
             BatchRefreshCache.refresh_batch b = [] /\
             BatchRefreshCache.batch_updates b = 0 /\
             LRUCache.cache (BatchRefreshCache.base b) = [] /\
             LRUCache.hits (BatchRefreshCache.base b) = 0 /\
             LRUCache.misses (BatchRefreshCache.base b) = 0 /\
             LRUCache.bulk_misses (BatchRefreshCache.base b) = 0 /\
             LRUCache.evictions (BatchRefreshCache.base b) = 0 /\
             LRUCache.expirations (BatchRefreshCache.base b) = 0).
Proof.
  split.
  - eexists. split; [reflexivity|]. cbn.
    do 3 (split; [reflexivity|]). split; [|repeat split].
    split; [constructor|reflexivity].
  - eexists. split; [reflexivity|]. cbn. repeat split.
Qed.

(** C5. Take a [get] call on the batch layer with a non-empty key list
    whose delegated lookup returns [(r, b1)], and let [q] be the queue
    after the near-expiry keys of the call were appended.  If [q] has
    reached [max_request_size], the call returns with an empty queue,
    [batch_updates] one higher, and a dictionary in which every queued
    key that [b1] holds has the request time and stands behind the keys
    that are not queued, a queued key that [b1] does not hold is still
    absent, and every other entry is as in [b1].  If [q] is shorter, the
    call returns [b1] and [q] as they are, with [batch_updates]
    unchanged. *)
Theorem batch_flush (now : datetime) (self : BatchRefreshCache.t K)
        (keys : list K) (rt : datetime) (r : list Z) (b1 : LRUCache.t K) :
  keys <> [] ->
  LRUCache.get K_eq_dec now (BatchRefreshCache.base self) keys (Some rt) =
  Ok (r, b1) ->
  let q := enqueued K_eq_dec self keys rt in
  (BatchRefreshCache.max_request_size self <= Z.of_nat (length q) ->
   exists d,
     BatchRefreshCache.get K_eq_dec now self keys (Some rt) =
     Ok (r, BatchRefreshCache.mk (LRUCache.with_cache b1 d)
              (BatchRefreshCache.half_ttl self)
              (BatchRefreshCache.max_request_size self)
              (BatchRefreshCache.half_ttl_seconds self)
              [] (BatchRefreshCache.batch_updates self + 1)) /\
     refreshed K_eq_dec rt q (cache b1) d) /\
  (Z.of_nat (length q) < BatchRefreshCache.max_request_size self ->
   BatchRefreshCache.get K_eq_dec now self keys (Some rt) =
   Ok (r, BatchRefreshCache.mk b1
            (BatchRefreshCache.half_ttl self)
            (BatchRefreshCache.max_request_size self)
            (BatchRefreshCache.half_ttl_seconds self)
            q (BatchRefreshCache.batch_updates self))).
Proof.
  intros Hkeys Hget q. destruct keys as [|k0 ks]; [congruence|].
  unfold BatchRefreshCache.get. set (keys := k0 :: ks) in *.
  fold (enqueued K_eq_dec self keys rt). fold q.
  change (BatchRefreshCache.base (BatchRefreshCache.with_refresh_batch self q))
    with (BatchRefreshCache.base self).
  rewrite Hget. cbn [bind fst snd].
  set (self2 := BatchRefreshCache.with_base _ _).
  split; intros Hq.
  - destruct (process_flush K_eq_dec rt self2) as (d & Hrun & Href & _).
    { exact Hq. }
    rewrite Hrun. cbn [bind]. exists d. split; [reflexivity|exact Href].
  - rewrite (process_idle K_eq_dec rt self2) by exact Hq. reflexivity.
Qed.



(** C9, as the code has it.  On a cache of positive capacity with a
    non-negative [ttl], a key that was requested in a [get] call at
    time [t] and is held when the call returns is a hit in a following
    [get] for that key at the same time [t]: that call counts one hit
    and changes no other counter.  (A key that was not requested may
    be held past its [ttl]: expiry is only found when a key is looked
    up.) *)
Theorem requested_key_hits_again (now now' : datetime) (self : LRUCache.t K)
        (keys : list K) (t : datetime) (k : K) :
  1 <= LRUCache.max_size self ->
  LRUCache.wf self ->
  0 <= LRUCache.ttl self ->
  In k keys ->
  exists c1,
    LRUCache.get K_eq_dec now self keys (Some t) =
    Ok (repeat 0 (length keys), c1) /\
    (OrderedDict.contains K_eq_dec k (cache c1) = true ->
     exists d,
       LRUCache.get K_eq_dec now' c1 [k] (Some t) =
       Ok ([0], LRUCache.with_hits (LRUCache.with_cache c1 d)
                  (LRUCache.hits c1 + 1))).
Proof.
  intros Hmax [Hnd Httl] Hpos Hk.
  destruct (get_spec K_eq_dec now self keys t Hmax)
    as (d & n & Hget & _ & _ & _ & Hfresh).
  rewrite Hget. eexists. split; [reflexivity|].
  cbn [LRUCache.cache LRUCache.hits]. unfold OrderedDict.contains.
  destruct (getitem k d) as [[v ts]|] eqn:Ed; [intros _|discriminate].
  assert (LRUCache._is_expired_at_time self t t = false) as Htt
    by now apply not_expired_at_once.
  specialize (Hfresh Hnd Htt k v ts Hk Ed).
  eexists. apply get_single_hit with (ts := ts); [exact Ed|exact Hfresh].
Qed.

Lemma batch_get_results (now : datetime) (self : BatchRefreshCache.t K)
      (keys : list K) (request_time : option datetime) (r : list Z)
      (c' : BatchRefreshCache.t K) :
  BatchRefreshCache.get K_eq_dec now self keys request_time = Ok (r, c') ->
  r = repeat 0 (length keys).
Proof.
  destruct keys as [|k0 ks].
  - simpl. intros E. now inversion E.
  - unfold BatchRefreshCache.get. set (keys := k0 :: ks).
    destruct (LRUCache.get _ _ _ _ _) as [[r1 b1]|] eqn:Eget; cbn [bind];
      [|discriminate].
    apply get_results in Eget.
    destruct (BatchRefreshCache._process_refresh_batch _ _ _); cbn [bind];
      [|discriminate].
    intros E. inversion E. now subst.
Qed.

(** C10. Whatever [get] returns, on the base cache and on the batch
    layer, is a list of zeros as long as the key list; and on a cache
    of positive capacity [get] does return. *)
Theorem results_are_zeros (now : datetime) (self : LRUCache.t K)
        (bself : BatchRefreshCache.t K) (keys : list K)
        (request_time : option datetime) :
  (forall r c', LRUCache.get K_eq_dec now self keys request_time = Ok (r, c') ->
                length r = length keys /\ Forall (fun x => x = 0) r) /\
  (forall r c', BatchRefreshCache.get K_eq_dec now bself keys request_time = Ok (r, c') ->
                length r = length keys /\ Forall (fun x => x = 0) r) /\
  (1 <= LRUCache.max_size self ->
   exists c', LRUCache.get K_eq_dec now self keys request_time =
              Ok (repeat 0 (length keys), c')) /\
  (1 <= LRUCache.max_size (BatchRefreshCache.base bself) ->
   exists c', BatchRefreshCache.get K_eq_dec now bself keys request_time =
              Ok (repeat 0 (length keys), c')).
Proof.
  assert (Hzeros : forall n, length (repeat 0 n) = n /\
                             Forall (fun x => x = 0) (repeat 0 n)).
  { intros n. split; [apply repeat_length|].
    apply Forall_forall. intros x Hx. now apply repeat_spec in Hx. }
  split; [|split; [|split]].
  - intros r c' E. apply get_results in E. subst r. apply Hzeros.
  - intros r c' E. apply batch_get_results in E. subst r. apply Hzeros.
  - intros Hmax.
    assert (exists rt, LRUCache.get K_eq_dec now self keys request_time =
                       LRUCache.get K_eq_dec now self keys (Some rt)) as [rt ->].
    { destruct request_time as [rt|]; [now exists rt|now exists now]. }
    destruct (get_spec K_eq_dec now self keys rt Hmax) as (d & n & Hget & _).
    rewrite Hget. eauto.
  - intros Hmax.
    destruct (batch_get_spec K_eq_dec now bself keys request_time Hmax)
      as (c' & Hget & _).
    eauto.
Qed.

End Claims.

(** * How far the two departures reach *)

Section Extent.
Variable K : Type.
Variable K_eq_dec : forall x y : K, {x = y} + {x <> y}.

Local Abbreviation getitem := (@OrderedDict.getitem K LRUCache.entry K_eq_dec).
Local Abbreviation cache := (@LRUCache.cache K).

(** Inserting one key that a full cache does not hold evicts the oldest
    entry, and only that one. *)
Lemma full_cache_insert_absent_key (self : LRUCache.t K) (k : K) (ts : datetime) :
  1 <= LRUCache.max_size self ->
  LRUCache.max_size self <= OrderedDict.len (cache self) ->
  getitem k (tl (cache self)) = None ->
  LRUCache._add_keys_to_cache K_eq_dec self [k] ts =
  Ok (LRUCache.with_evictions
        (LRUCache.with_cache self (tl (cache self) ++ [(k, (0, ts))]))
        (LRUCache.evictions self + 1)).
Proof.
  intros Hmax Hfull Hk. unfold LRUCache._add_keys_to_cache. cbn [for_each].
  rewrite add_key_eq by assumption. cbn [bind].
  destruct (Z.geb_spec (OrderedDict.len (cache self)) (LRUCache.max_size self));
    [|lia].
  now rewrite (setitem_absent K_eq_dec _ _ _ Hk).
Qed.

Lemma near_key_acc (self : BatchRefreshCache.t K) (rt : datetime)
      (acc : list K) (k : K) :
  BatchRefreshCache.near_key K_eq_dec self rt acc k =
  acc ++ BatchRefreshCache.near_key K_eq_dec self rt [] k.
Proof.
  unfold BatchRefreshCache.near_key.
  destruct (OrderedDict.getitem _ _ _) as [[v ts]|]; [|now rewrite app_nil_r].
  destruct (negb _); [|now rewrite app_nil_r].
  destruct (BatchRefreshCache._is_near_expiration _ _ _); [|now rewrite app_nil_r].
  destruct (in_dec _ _ _); [now rewrite app_nil_r|reflexivity].
Qed.

Lemma near_key_one (self : BatchRefreshCache.t K) (rt : datetime) (k x : K) :
  In x (BatchRefreshCache.near_key K_eq_dec self rt [] k) ->
  x = k /\ ~ In k (BatchRefreshCache.refresh_batch self).
Proof.
  unfold BatchRefreshCache.near_key.
  destruct (OrderedDict.getitem _ _ _) as [[v ts]|]; [|intros []].
  destruct (negb _); [|intros []].
  destruct (BatchRefreshCache._is_near_expiration _ _ _); [|intros []].
  destruct (in_dec _ _ _) as [|Hn]; [intros []|].
  intros [<-|[]]. auto.
Qed.

Lemma near_keys_fold (self : BatchRefreshCache.t K) (rt : datetime) (keys : list K) :
  forall acc,
    fold_left (BatchRefreshCache.near_key K_eq_dec self rt) keys acc =
    acc ++ flat_map (BatchRefreshCache.near_key K_eq_dec self rt []) keys.
Proof.
  induction keys as [|k keys IH]; intros acc; simpl.
  - now rewrite app_nil_r.
  - rewrite IH, near_key_acc. now rewrite <- app_assoc.
Qed.

(** The guard of the enqueuing loop does its work when no key is
    repeated within the key list: the queue stays free of duplicates. *)
Lemma enqueued_NoDup (self : BatchRefreshCache.t K) (keys : list K) (rt : datetime) :
  NoDup (BatchRefreshCache.refresh_batch self) ->
  NoDup keys ->
  NoDup (enqueued K_eq_dec self keys rt).
Proof.
  intros Hq Hkeys. unfold enqueued. rewrite near_keys_fold. cbn [app].
  apply NoDup_app; [assumption| |].
  - induction Hkeys as [|k keys Hnotin Hkeys IH]; simpl; [constructor|].
    apply NoDup_app; [|assumption|].
    + unfold BatchRefreshCache.near_key.
      destruct (OrderedDict.getitem _ _ _) as [[v ts]|]; [|constructor].
      destruct (negb _); [|constructor].
      destruct (BatchRefreshCache._is_near_expiration _ _ _); [|constructor].
      destruct (in_dec _ _ _); repeat constructor. simpl. tauto.
    + intros x Hx Hx'. apply near_key_one in Hx. destruct Hx as [-> _].
      apply in_flat_map in Hx'. destruct Hx' as (y & Hy & Hky).
      apply near_key_one in Hky. destruct Hky as [-> _]. contradiction.
  - intros x Hx Hx'. apply in_flat_map in Hx'. destruct Hx' as (y & Hy & Hxy).
    apply near_key_one in Hxy. destruct Hxy as [-> Hn]. contradiction.
Qed.

(** Hence a [get] with a duplicate-free key list keeps the queue free of
    duplicates. *)
Lemma batch_get_queue_NoDup (now : datetime) (self : BatchRefreshCache.t K)
      (keys : list K) (request_time : option datetime) (r : list Z)
      (c' : BatchRefreshCache.t K) :
  NoDup (BatchRefreshCache.refresh_batch self) ->
  NoDup keys ->
  BatchRefreshCache.get K_eq_dec now self keys request_time = Ok (r, c') ->
  NoDup (BatchRefreshCache.refresh_batch c').
Proof.
  intros Hq Hkeys. destruct keys as [|k0 ks].
  - simpl. intros E. inversion E. now subst.
  - unfold BatchRefreshCache.get. set (keys := k0 :: ks) in *.
    set (rt := match request_time with Some t => t | None => now end).
    fold (enqueued K_eq_dec self keys rt).
    destruct (LRUCache.get _ _ _ _ _) as [[r1 b1]|]; cbn [bind fst snd];
      [|discriminate].
    unfold BatchRefreshCache._process_refresh_batch.
    destruct (_ >=? _).
    + destruct (for_each _ _ _); cbn [bind]; [|discriminate].
      intros E. inversion E. subst. cbn. constructor.
    + cbn [bind]. intros E. inversion E. subst. cbn.
      now apply enqueued_NoDup.
Qed.

End Extent.

(** * The properties at concrete objects *)

(** C1 (the code departs from the property).  [LRUCache(max_size=2)]
    is full after [get([1, 2])].  [get([3, 3])] then lists the absent key
    3 twice in [missing_keys]; [_add_keys_to_cache] evicts the oldest
    entry for each occurrence, although the second occurrence inserts
    nothing new.  Both old entries are gone, [evictions] went up by 2 and
    the cache holds one entry where it could hold two. *)
Theorem duplicate_missing_key_evicts_twice :
  exists c1 c2,
    (b <- LRUCache.init Z 2 (seconds 10800) ;;
     lru_run Z.eq_dec b [mk_call 0 [1; 2] (Some 0)]) = Ok c1 /\
    LRUCache.size c1 = LRUCache.max_size c1 /\
    LRUCache.get Z.eq_dec 0 c1 [3; 3] (Some (seconds 1)) = Ok ([0; 0], c2) /\
    LRUCache.cache c2 = [(3, (0, seconds 1))] /\
    LRUCache.evictions c2 = LRUCache.evictions c1 + 2 /\
    LRUCache.size c2 = 1.
Proof.
  eexists. eexists. split; [vm_compute; reflexivity|].
  split; [reflexivity|]. split; [vm_compute; reflexivity|].
  repeat split.
Qed.

(** C6 (the code departs from the property).  Key 1 is inserted at
    [t0]; at [t0 + 6s] it is near expiry.  [get([1, 1])] tests each
    occurrence against [self.refresh_batch], which the loop does not
    extend, so both occurrences go to [near_expired_keys] and the queue
    holds key 1 twice. *)
Theorem duplicate_near_expiry_key_queued_twice :
  exists c,
    (b <- BatchRefreshCache.init Z 10 (seconds 10) float_half 3 ;;
     batch_run Z.eq_dec b
       [mk_call 0 [1] (Some 0); mk_call 0 [1; 1] (Some (seconds 6))]) = Ok c /\
    BatchRefreshCache.refresh_batch c = [1; 1] /\
    ~ NoDup (BatchRefreshCache.refresh_batch c).
Proof.
  eexists. split; [vm_compute; reflexivity|]. split; [reflexivity|].
  cbn. intros H. inversion H as [|? ? Hnotin _]. apply Hnotin. now left.
Qed.

(** The floats are the code's: [3.0 * 0.3] is below [0.9] and
    [10800.0 * 0.7] is below [7560.0], so that a key of age 0.9 s is near
    expiry for [ttl = 3 s] and [half_ttl = 0.3], and a key of age 2 h 06 m
    for [ttl = 3 h] and [half_ttl = 0.7]; [0.5] is [1 / 2]. *)
Lemma products_are_rounded :
  float_gt (total_seconds 900000)
           (float_mul (total_seconds (seconds 3)) (int_truediv 3 10)) = true /\
  float_gt (total_seconds (seconds 7560))
           (float_mul (total_seconds (seconds 10800)) (int_truediv 7 10)) = true /\
  int_truediv 1 2 = float_half /\
  int_truediv 2 1 = float_two.
Proof.
  repeat split; vm_compute; reflexivity.
Qed.


(** C4 fails as stated: each of the four parameters out of its range is
    accepted and an object is returned. *)
Lemma construction_does_not_validate :
  (exists c, LRUCache.init Z 0 (seconds 10) = Ok c /\ LRUCache.max_size c = 0) /\
  (exists c, LRUCache.init Z 3 (-1) = Ok c /\ LRUCache.ttl c = -1) /\
  (exists b, BatchRefreshCache.init Z 3 (seconds 10) float_two 2 = Ok b /\
             BatchRefreshCache.half_ttl b = float_two) /\
  (exists b, BatchRefreshCache.init Z 3 (seconds 10) float_half 0 = Ok b /\
             BatchRefreshCache.max_request_size b = 0).
Proof.
  repeat split; eexists; split; reflexivity.
Qed.



(** C9 fails as stated: keys 1 and 2 were inserted at [t0] with a [ttl]
    of 10s.  [get([3])] at [t0 + 20s] leaves key 1 in the cache; the
    following [get([1])] at the same time counts an expiration and no
    hit. *)
Lemma stale_key_expires_on_next_call :
  exists c1 c2,
    LRUCache.get Z.eq_dec 0 sample_cache [3] (Some (seconds 20)) = Ok ([0], c1) /\
    OrderedDict.contains Z.eq_dec 1 (LRUCache.cache c1) = true /\
    LRUCache.get Z.eq_dec 0 c1 [1] (Some (seconds 20)) = Ok ([0], c2) /\
    LRUCache.hits c2 = LRUCache.hits c1 /\
    LRUCache.expirations c2 = LRUCache.expirations c1 + 1.
Proof.
  eexists. eexists. split; [vm_compute; reflexivity|].
  split; [reflexivity|]. split; [vm_compute; reflexivity|].
  split; reflexivity.
Qed.

(** ** The general theorems at the sample objects *)

Lemma size_bound_at_capacity_two :
  1 <= 2 /\
  (exists c,
     (b <- LRUCache.init Z 2 (seconds 10) ;;
      lru_run Z.eq_dec b
        [mk_call 0 [1; 2] (Some 0); mk_call 0 [3; 3; 4] (Some (seconds 1))]) = Ok c /\
     LRUCache.size c <= 2) /\
  (exists c,
     (b <- BatchRefreshCache.init Z 2 (seconds 10) float_half 2 ;;
      batch_run Z.eq_dec b
        [mk_call 0 [1; 2] (Some 0); mk_call 0 [3; 3; 4] (Some (seconds 1))]) = Ok c /\
     LRUCache.size (BatchRefreshCache.base c) <= 2).
Proof.
  split; [lia|].
  apply (@size_bound_after_every_call Z Z.eq_dec 2 (seconds 10) float_half 2
           [mk_call 0 [1; 2] (Some 0); mk_call 0 [3; 3; 4] (Some (seconds 1))]).
  lia.
Defined.


Lemma batch_flush_at_sample :
  [3] <> @nil Z /\
  LRUCache.get Z.eq_dec 0 (BatchRefreshCache.base sample_batch) [3]
               (Some (seconds 7)) = Ok ([0], sample_delegated) /\
  BatchRefreshCache.max_request_size sample_batch <=
  Z.of_nat (length (enqueued Z.eq_dec sample_batch [3] (seconds 7))) /\
  exists d,
    BatchRefreshCache.get Z.eq_dec 0 sample_batch [3] (Some (seconds 7)) =
    Ok ([0], BatchRefreshCache.mk (LRUCache.with_cache sample_delegated d)
               float_half 2 (float_mul (total_seconds (seconds 10)) float_half) [] 1) /\
    refreshed Z.eq_dec (seconds 7) [2; 3] (LRUCache.cache sample_delegated) d.
Proof.
  assert (H1 : [3] <> @nil Z) by discriminate.
  assert (H2 : LRUCache.get Z.eq_dec 0 (BatchRefreshCache.base sample_batch) [3]
                            (Some (seconds 7)) = Ok ([0], sample_delegated))
    by reflexivity.
  assert (H3 : BatchRefreshCache.max_request_size sample_batch <=
               Z.of_nat (length (enqueued Z.eq_dec sample_batch [3] (seconds 7))))
    by (vm_compute; discriminate).
  split; [exact H1|]. split; [exact H2|]. split; [exact H3|].
  exact (proj1 (@batch_flush Z Z.eq_dec 0 sample_batch [3] (seconds 7) [0]
                  sample_delegated H1 H2) H3).
Defined.


Lemma requested_key_hits_again_at_sample :
  1 <= LRUCache.max_size sample_cache /\
  LRUCache.wf sample_cache /\
  0 <= LRUCache.ttl sample_cache /\
  In 1 [1; 3] /\
  exists c1,
    LRUCache.get Z.eq_dec 0 sample_cache [1; 3] (Some (seconds 5)) =
    Ok ([0; 0], c1) /\
    (OrderedDict.contains Z.eq_dec 1 (LRUCache.cache c1) = true ->
     exists d,
       LRUCache.get Z.eq_dec 0 c1 [1] (Some (seconds 5)) =
       Ok ([0], LRUCache.with_hits (LRUCache.with_cache c1 d)
                  (LRUCache.hits c1 + 1))).
Proof.
  assert (H1 : 1 <= LRUCache.max_size sample_cache) by (simpl; lia).
  assert (H2 : LRUCache.wf sample_cache).
  { split; [|reflexivity]. simpl. repeat constructor; simpl; intuition lia. }
  assert (H3 : 0 <= LRUCache.ttl sample_cache) by (vm_compute; discriminate).
  assert (H4 : In 1 [1; 3]) by (simpl; auto).
  split; [exact H1|]. split; [exact H2|]. split; [exact H3|]. split; [exact H4|].
  exact (@requested_key_hits_again Z Z.eq_dec 0 0 sample_cache [1; 3]
           (seconds 5) 1 H1 H2 H3 H4).
Defined.

Lemma results_are_zeros_at_sample :
  1 <= LRUCache.max_size sample_cache /\
  1 <= LRUCache.max_size (BatchRefreshCache.base sample_batch) /\
  (exists c', LRUCache.get Z.eq_dec 0 sample_cache [1; 3] (Some (seconds 5)) =
              Ok ([0; 0], c')) /\
  (exists c', BatchRefreshCache.get Z.eq_dec 0 sample_batch [1; 3] (Some (seconds 5)) =
              Ok ([0; 0], c')).
Proof.
  assert (H1 : 1 <= LRUCache.max_size sample_cache) by (simpl; lia).
  assert (H2 : 1 <= LRUCache.max_size (BatchRefreshCache.base sample_batch))
    by (simpl; lia).
  destruct (@results_are_zeros Z Z.eq_dec 0 sample_cache sample_batch [1; 3]
              (Some (seconds 5))) as (_ & _ & Hlru & Hbatch).
  split; [exact H1|]. split; [exact H2|].
  split; [exact (Hlru H1)|exact (Hbatch H2)].
Defined.

(** * Further properties of the two classes *)

Section Order.
Variable K : Type.
Variable K_eq_dec : forall x y : K, {x = y} + {x <> y}.

Local Abbreviation getitem := (@OrderedDict.getitem K LRUCache.entry K_eq_dec).
Local Abbreviation delitem := (@OrderedDict.delitem K LRUCache.entry K_eq_dec).
Local Abbreviation setitem := (@OrderedDict.setitem K LRUCache.entry K_eq_dec).
Local Abbreviation keys_of := (@OrderedDict.keys K LRUCache.entry).
Local Abbreviation cache := (@LRUCache.cache K).
Local Abbreviation outside q :=
  (fun e : K * LRUCache.entry => if in_dec K_eq_dec (fst e) q then false else true).

(** Every key takes exactly one of the three branches. *)
Lemma branch_partition (self : LRUCache.t K) (rt : datetime) (keys : list K) :
  (length (filter (LRUCache.is_hit K_eq_dec self rt) keys) +
   length (filter (LRUCache.is_missing K_eq_dec self rt) keys) +
   length (filter (LRUCache.is_expired K_eq_dec self rt) keys) = length keys)%nat.
Proof.
  induction keys as [|k keys IH]; [reflexivity|].
  cbn [filter]. unfold LRUCache.is_hit at 1, LRUCache.is_missing at 1,
                       LRUCache.is_expired at 1.
  destruct (LRUCache.branch_of K_eq_dec self rt k); cbn [length]; lia.
Qed.

(** The first loop of [get] moves the keys it counts as hits behind all
    other entries. *)
Lemma scan_order (rt : datetime) (keys : list K) :
  forall st st' : LRUCache.scan K,
    for_each (LRUCache.scan_key K_eq_dec rt) keys st = Ok st' ->
    exists tail,
      cache (LRUCache.scan_self st') =
      filter (outside (filter (LRUCache.is_hit K_eq_dec (LRUCache.scan_self st) rt) keys))
             (cache (LRUCache.scan_self st)) ++ tail /\
      Forall (fun e => In (fst e)
                          (filter (LRUCache.is_hit K_eq_dec (LRUCache.scan_self st) rt) keys))
             tail.
Proof.
  induction keys as [|k keys IH]; intros [self res mis exp] st'.
  - cbn [for_each]. intros E. inversion E. subst. exists [].
    cbn [filter LRUCache.scan_self]. split; [|constructor].
    rewrite app_nil_r. symmetry. apply filter_all.
  - cbn [for_each LRUCache.scan_self filter]. unfold LRUCache.scan_key at 1.
    cbn [LRUCache.scan_self LRUCache.results LRUCache.missing_keys
         LRUCache.expired_keys].
    assert (Hh : LRUCache.is_hit K_eq_dec self rt k =
                 match getitem k (cache self) with
                 | Some (_, ts) => negb (LRUCache._is_expired_at_time self ts rt)
                 | None => false
                 end).
    { unfold LRUCache.is_hit, LRUCache.branch_of.
      destruct (getitem k (cache self)) as [[v ts]|]; [|reflexivity].
      now destruct (LRUCache._is_expired_at_time self ts rt). }
    rewrite Hh. clear Hh.
    destruct (getitem k (cache self)) as [[v ts]|] eqn:Ek;
      [destruct (LRUCache._is_expired_at_time self ts rt) eqn:Ex|];
      cbn [bind negb].
    + intros Hrun. apply IH in Hrun. exact Hrun.
    + rewrite (move_to_end_present _ _ _ Ek). cbn [bind].
      set (self1 := LRUCache.with_hits _ _).
      intros Hrun. apply IH in Hrun. cbn [LRUCache.scan_self] in Hrun.
      destruct Hrun as (tail & Hd & Htail).
      assert (Hext : forall a, LRUCache.is_hit K_eq_dec self1 rt a =
                               LRUCache.is_hit K_eq_dec self rt a).
      { intros a. unfold LRUCache.is_hit.
        rewrite (@branch_of_ext K K_eq_dec self1 self rt a); [reflexivity| |reflexivity].
        intros k'. subst self1. fields. now apply getitem_move. }
      rewrite (filter_ext _ _ Hext) in Hd, Htail.
      subst self1. fields. rewrite filter_app, filter_delitem in Hd.
      rewrite <- app_assoc in Hd. eexists. split; [exact Hd|].
      apply Forall_app. split.
      * cbn [filter fst].
        destruct (in_dec K_eq_dec k _); repeat constructor; cbn [fst]; auto.
      * eapply Forall_impl; [|exact Htail]. intros e He. now right.
    + intros Hrun. apply IH in Hrun. exact Hrun.
Qed.

(** The loop over [expired_keys] moves these keys behind all other
    entries. *)
Lemma reinsert_order (rt : datetime) (ks : list K) :
  forall self self' : LRUCache.t K,
    for_each (LRUCache.reinsert_expired K_eq_dec rt) ks self = Ok self' ->
    exists tail,
      cache self' = filter (outside ks) (cache self) ++ tail /\
      Forall (fun e => In (fst e) ks) tail.
Proof.
  induction ks as [|k ks IH]; intros self self'.
  - cbn [for_each]. intros E. inversion E. subst. exists [].
    split; [|constructor]. rewrite app_nil_r. symmetry. apply filter_all.
  - cbn [for_each]. rewrite reinsert_expired_eq. cbn [bind].
    intros Hrun. apply IH in Hrun. destruct Hrun as (tail & Hd & Htail).
    fields. rewrite filter_app, filter_delitem in Hd.
    rewrite <- app_assoc in Hd. eexists. split; [exact Hd|].
    apply Forall_app. split.
    + cbn [filter fst].
      destruct (in_dec K_eq_dec k ks); repeat constructor; cbn [fst]; auto.
    + eapply Forall_impl; [|exact Htail]. intros e He. now right.
Qed.

End Order.

Section Insertion.
Variable K : Type.
Variable K_eq_dec : forall x y : K, {x = y} + {x <> y}.

Local Abbreviation getitem := (@OrderedDict.getitem K LRUCache.entry K_eq_dec).
Local Abbreviation setitem := (@OrderedDict.setitem K LRUCache.entry K_eq_dec).
Local Abbreviation keys_of := (@OrderedDict.keys K LRUCache.entry).
Local Abbreviation cache := (@LRUCache.cache K).
Local Abbreviation fresh ts := (fun k : K => (k, ((0, ts) : LRUCache.entry))).

Lemma getitem_tl_absent (k : K) (c : OrderedDict.t K LRUCache.entry) :
  getitem k c = None -> getitem k (tl c) = None.
Proof.
  destruct c as [|[k0 e0] c]; [auto|]. simpl.
  destruct (K_eq_dec k k0); [discriminate|auto].
Qed.

Lemma add_fifo (ts : datetime) (ks : list K) :
  forall self : LRUCache.t K,
    1 <= LRUCache.max_size self ->
    OrderedDict.len (cache self) <= LRUCache.max_size self ->
    NoDup ks ->
    (forall k, In k ks -> getitem k (cache self) = None) ->
    let over := Z.max 0 (OrderedDict.len (cache self) + Z.of_nat (length ks)
                         - LRUCache.max_size self) in
    LRUCache._add_keys_to_cache K_eq_dec self ks ts =
    Ok (LRUCache.with_evictions
          (LRUCache.with_cache self
             (skipn (Z.to_nat over) (cache self ++ map (fresh ts) ks)))
          (LRUCache.evictions self + over)).
Proof.
  unfold LRUCache._add_keys_to_cache, OrderedDict.len.
  induction ks as [|k ks IH]; intros self Hmax Hlen Hnd Habs.
  - cbn [for_each]. cbn [length map].
    replace (Z.max 0 _) with 0 by lia. rewrite app_nil_r. cbn [Z.to_nat skipn].
    destruct self. fields. now rewrite Z.add_0_r.
  - cbn [for_each]. rewrite add_key_eq by assumption. cbn [bind].
    inversion Hnd as [|? ? Hk Hnd']; subst.
    assert (Hkc : getitem k (cache self) = None) by (apply Habs; now left).
    unfold OrderedDict.len.
    destruct (Z.geb_spec (Z.of_nat (length (cache self))) (LRUCache.max_size self))
      as [Hfull|Hroom].
    + rewrite (setitem_absent K_eq_dec _ _ _ (getitem_tl_absent _ _ Hkc)).
      destruct (cache self) as [|e0 c] eqn:Ec; [cbn [length] in Hfull; lia|].
      cbn [tl length] in *. rewrite Nat2Z.inj_succ in *.
      set (self1 := LRUCache.with_evictions _ _).
      assert (Hlen1 : Z.of_nat (length (cache self1)) = LRUCache.max_size self).
      { subst self1. fields. rewrite length_app. cbn [length].
        rewrite Nat2Z.inj_add. change (Z.of_nat 1) with 1. lia. }
      rewrite (IH self1); subst self1; fields; try assumption; try lia.
      * rewrite length_app in Hlen1. cbn [length] in Hlen1.
        rewrite length_app. cbn [length map].
        replace (Z.to_nat (Z.max 0 (Z.succ (Z.of_nat (length c)) +
                                    Z.of_nat (S (length ks)) - LRUCache.max_size self)))
          with (S (length ks)) by lia.
        replace (Z.to_nat (Z.max 0 (Z.of_nat (length c + 1) + Z.of_nat (length ks)
                                    - LRUCache.max_size self)))
          with (length ks) by lia.
        cbn [skipn app]. rewrite <- app_assoc. cbn [app].
        clear IH. unfold_with. fields. do 2 f_equal. lia.
      * intros k' Hk'. rewrite getitem_app.
        assert (getitem k' (e0 :: c) = None) as Hn by (apply Habs; now right).
        pose proof (getitem_tl_absent _ _ Hn) as Hn'. cbn [tl] in Hn'.
        rewrite Hn'. cbn [OrderedDict.getitem].
        destruct (K_eq_dec k' k); [congruence|reflexivity].
    + rewrite (setitem_absent K_eq_dec _ _ _ Hkc).
      set (self1 := LRUCache.with_cache _ _).
      rewrite (IH self1); subst self1; fields; try assumption.
      * rewrite length_app. cbn [length map].
        rewrite <- app_assoc. cbn [app].
        replace (Z.of_nat (length (cache self) + 1) + Z.of_nat (length ks))
          with (Z.of_nat (length (cache self)) + Z.of_nat (S (length ks))) by lia.
        clear IH. unfold_with. fields. reflexivity.
      * rewrite length_app. cbn [length]. lia.
      * intros k' Hk'. rewrite getitem_app.
        rewrite (Habs k' (or_intror Hk')). cbn [OrderedDict.getitem].
        destruct (K_eq_dec k' k); [congruence|reflexivity].
Qed.

(** X1. Keys that are pairwise distinct and not yet held are appended in
    their order, and the cache is cut from the oldest end by exactly the
    overflow [max 0 (len + n - max_size)]; [evictions] grows by that
    number. *)
Theorem add_keys_evicts_the_overflow (ts : datetime) (ks : list K) :
  forall self : LRUCache.t K,
    1 <= LRUCache.max_size self ->
    OrderedDict.len (cache self) <= LRUCache.max_size self ->
    NoDup ks ->
    (forall k, In k ks -> getitem k (cache self) = None) ->
    let over := Z.max 0 (OrderedDict.len (cache self) + Z.of_nat (length ks)
                         - LRUCache.max_size self) in
    LRUCache._add_keys_to_cache K_eq_dec self ks ts =
    Ok (LRUCache.with_evictions
          (LRUCache.with_cache self
             (skipn (Z.to_nat over) (cache self ++ map (fresh ts) ks)))
          (LRUCache.evictions self + over)).
Proof.
  exact (@add_fifo ts ks).
Qed.

End Insertion.

Section Lookup.
Variable K : Type.
Variable K_eq_dec : forall x y : K, {x = y} + {x <> y}.

Local Abbreviation getitem := (@OrderedDict.getitem K LRUCache.entry K_eq_dec).
Local Abbreviation keys_of := (@OrderedDict.keys K LRUCache.entry).
Local Abbreviation cache := (@LRUCache.cache K).
Local Abbreviation outside q :=
  (fun e : K * LRUCache.entry => if in_dec K_eq_dec (fst e) q then false else true).
Local Abbreviation fresh ts := (fun k : K => (k, ((0, ts) : LRUCache.entry))).

Lemma filter_twice (A : Type) (f g : A -> bool) (l : list A) :
  filter f (filter g l) = filter (fun x => g x && f x) l.
Proof.
  induction l as [|a l IH]; [reflexivity|]. cbn [filter].
  destruct (g a); cbn [filter andb]; [destruct (f a)|]; now rewrite IH.
Qed.

(** [get] up to the call of [_add_keys_to_cache]: the object that the
    two loops leave, and the way the result is put together. *)
Lemma get_shape (now : datetime) (self : LRUCache.t K) (keys : list K)
      (rt : datetime) :
  let mis := filter (LRUCache.is_missing K_eq_dec self rt) keys in
  let exp := filter (LRUCache.is_expired K_eq_dec self rt) keys in
  let nh := Z.of_nat (length (filter (LRUCache.is_hit K_eq_dec self rt) keys)) in
  exists d2,
    LRUCache.get K_eq_dec now self keys (Some rt) =
    (s3 <- LRUCache._add_keys_to_cache K_eq_dec
             (LRUCache.mk (LRUCache.max_size self) (LRUCache.ttl self)
                (LRUCache.ttl_seconds self) d2 (LRUCache.hits self + nh)
                (LRUCache.misses self) (LRUCache.bulk_misses self)
                (LRUCache.evictions self)
                (LRUCache.expirations self + Z.of_nat (length exp)))
             mis rt ;;
     Ok (repeat 0 (length keys),
         LRUCache.mk (LRUCache.max_size s3) (LRUCache.ttl s3)
           (LRUCache.ttl_seconds s3) (cache s3) (LRUCache.hits s3)
           (LRUCache.misses s3 + Z.of_nat (length (mis ++ exp)))
           (LRUCache.bulk_misses s3 +
            match mis ++ exp with [] => 0 | _ :: _ => 1 end)
           (LRUCache.evictions s3) (LRUCache.expirations s3)))
    /\ (forall k, getitem k d2 =
                  if in_dec K_eq_dec k exp then Some (0, rt)
                  else getitem k (cache self))
    /\ (length d2 <= length (cache self))%nat
    /\ (NoDup (keys_of (cache self)) -> NoDup (keys_of d2))
    /\ exists back,
        d2 = filter (outside keys) (cache self) ++ back /\
        Forall (fun e => In (fst e) keys) back.
Proof.
  intros mis exp nh. destruct keys as [|k0 ks].
  - exists (cache self). subst mis exp nh. cbn [filter length app repeat].
    split; [|split; [|split; [|split]]]; auto.
    + destruct self. cbn. now rewrite !Z.add_0_r.
    + exists []. split; [|constructor]. rewrite app_nil_r. symmetry.
      apply filter_all.
  - set (keys := k0 :: ks) in *.
    unfold LRUCache.get. cbv iota. fold keys.
    destruct (scan_spec K_eq_dec rt keys (LRUCache.mk_scan self [] [] []))
      as (d1 & Hscan & Hget1 & Hlen1 & Hnd1).
    destruct (scan_order K_eq_dec rt keys _ Hscan) as (t1 & Hd1 & Ht1).
    cbn [LRUCache.scan_self LRUCache.results LRUCache.missing_keys
         LRUCache.expired_keys app] in *.
    rewrite Hscan. cbn [bind LRUCache.scan_self LRUCache.results
                        LRUCache.missing_keys LRUCache.expired_keys].
    fold mis exp nh.
    set (self1 := LRUCache.with_hits _ _).
    destruct (reinsert_spec K_eq_dec rt exp self1)
      as (d2 & Hrun2 & Hget2 & Hlen2 & Hnd2).
    destruct (reinsert_order K_eq_dec rt exp _ Hrun2) as (t2 & Hd2 & Ht2).
    subst self1. fields.
    assert (Hexp : forall k, In k exp -> getitem k d1 <> None).
    { intros k Hk. rewrite Hget1. apply filter_In in Hk. destruct Hk as [_ Hk].
      now apply is_expired_present in Hk. }
    exists d2. split; [|split; [|split; [|split]]].
    + destruct (mis ++ exp) as [|a all] eqn:Eall.
      * apply app_eq_nil in Eall. destruct Eall as [Emis Eexp].
        rewrite Eexp in Hrun2. cbn [for_each length] in Hrun2.
        inversion Hrun2 as [Hd]. rewrite Emis, Eexp.
        cbn [for_each length LRUCache._add_keys_to_cache bind]. rewrite <- Hd.
        unfold LRUCache._add_keys_to_cache. cbn [for_each bind]. fields.
        now rewrite !Z.add_0_r.
      * rewrite <- Eall. clear a all Eall. rewrite Hrun2. cbn [bind].
        rewrite add_guard.
        destruct (LRUCache._add_keys_to_cache K_eq_dec _ mis rt) as [s3|];
          cbn [bind]; [|reflexivity].
        destruct s3. reflexivity.
    + intros k. rewrite Hget2. now rewrite Hget1.
    + specialize (Hlen2 Hexp). lia.
    + intros Hc. now apply Hnd2, Hnd1.
    + rewrite Hd2, Hd1, filter_app, <- app_assoc.
      eexists. split.
      * f_equal. rewrite filter_twice. apply filter_ext_in.
        intros [k e] Hin. cbn [fst].
        destruct (in_dec K_eq_dec k keys) as [Hk|Hk].
        -- assert (getitem k (cache self) <> None) as Hp.
           { intros Hn. apply (getitem_None K_eq_dec) in Hn. apply Hn.
             change k with (fst (k, e)). now apply in_map. }
           destruct (in_dec K_eq_dec k _) as [|Hnh]; [reflexivity|].
           destruct (in_dec K_eq_dec k exp) as [|Hne]; [reflexivity|].
           exfalso. unfold exp in Hne. rewrite filter_In in Hne, Hnh.
           unfold LRUCache.is_expired, LRUCache.is_hit, LRUCache.branch_of in *.
           destruct (getitem k (cache self)) as [[v ts]|]; [|congruence].
           destruct (LRUCache._is_expired_at_time self ts rt); tauto.
        -- destruct (in_dec K_eq_dec k _) as [Hh|_].
           { exfalso. apply Hk. now apply filter_In in Hh. }
           destruct (in_dec K_eq_dec k exp) as [He|_]; [|reflexivity].
           exfalso. apply Hk. unfold exp in He. now apply filter_In in He.
      * apply Forall_app. split.
        -- apply Forall_forall. intros e He. apply filter_In in He.
           destruct He as [He _]. rewrite Forall_forall in Ht1.
           specialize (Ht1 e He). now apply filter_In in Ht1.
        -- eapply Forall_impl; [|exact Ht2]. intros e He.
           unfold exp in He. now apply filter_In in He.
Qed.

End Lookup.

Section DistinctKeys.
Variable K : Type.
Variable K_eq_dec : forall x y : K, {x = y} + {x <> y}.

Local Abbreviation getitem := (@OrderedDict.getitem K LRUCache.entry K_eq_dec).
Local Abbreviation keys_of := (@OrderedDict.keys K LRUCache.entry).
Local Abbreviation cache := (@LRUCache.cache K).
Local Abbreviation fresh ts := (fun k : K => (k, ((0, ts) : LRUCache.entry))).

Lemma contains_In (k : K) (d : OrderedDict.t K LRUCache.entry) :
  OrderedDict.contains K_eq_dec k d = true <-> In k (keys_of d).
Proof.
  unfold OrderedDict.contains. pose proof (getitem_None K_eq_dec k d) as H.
  destruct (getitem k d).
  - split; [intros _|reflexivity].
    destruct (in_dec K_eq_dec k (keys_of d)) as [Hin|Hout]; [assumption|].
    apply H in Hout. discriminate.
  - split; [discriminate|]. intros Hin. exfalso. now apply (proj1 H).
Qed.

Lemma In_keys_getitem (k : K) (d : OrderedDict.t K LRUCache.entry) :
  In k (keys_of d) <-> getitem k d <> None.
Proof.
  pose proof (getitem_None K_eq_dec k d) as H. split.
  - intros Hin Hn. now apply (proj1 H).
  - intros Hn. destruct (in_dec K_eq_dec k (keys_of d)) as [|Hout]; [assumption|].
    exfalso. apply Hn. now apply H.
Qed.

(** Two dictionaries without repeated keys that hold the same keys have
    the same length. *)
Lemma same_keys_same_length (c d : OrderedDict.t K LRUCache.entry) :
  NoDup (keys_of c) -> NoDup (keys_of d) ->
  (forall k, getitem k d = None <-> getitem k c = None) ->
  length d = length c.
Proof.
  intros Hc Hd Hsame.
  rewrite <- (length_map fst d), <- (length_map fst c).
  apply Nat.le_antisymm; apply NoDup_incl_length; try assumption;
    intros k Hk; apply In_keys_getitem; apply In_keys_getitem in Hk;
    intros Hn; apply Hk; now apply Hsame.
Qed.

(** X2. A lookup of pairwise distinct keys on a cache within its
    capacity returns, appends the keys it did not hold in request order,
    and evicts exactly the overflow: [evictions] grows by
    [max 0 (size + missing - max_size)] and the size becomes
    [min max_size (size + missing)]. *)
Theorem distinct_keys_evict_the_overflow (now : datetime) (self : LRUCache.t K)
        (keys : list K) (rt : datetime) :
  1 <= LRUCache.max_size self ->
  LRUCache.size self <= LRUCache.max_size self ->
  NoDup (keys_of (cache self)) ->
  NoDup keys ->
  let missing :=
    Z.of_nat (length (filter (LRUCache.is_missing K_eq_dec self rt) keys)) in
  exists c',
    LRUCache.get K_eq_dec now self keys (Some rt) = Ok (repeat 0 (length keys), c') /\
    LRUCache.evictions c' =
    LRUCache.evictions self +
    Z.max 0 (LRUCache.size self + missing - LRUCache.max_size self) /\
    LRUCache.size c' = Z.min (LRUCache.max_size self) (LRUCache.size self + missing) /\
    exists old,
      cache c' = old ++ map (fresh rt)
                            (skipn (Z.to_nat (missing - LRUCache.max_size self))
                                   (filter (LRUCache.is_missing K_eq_dec self rt) keys)).
Proof.
  intros Hmax Hsize Hc Hkeys missing.
  destruct (get_shape K_eq_dec now self keys rt)
    as (d2 & Hget & Hget2 & Hlen2 & Hnd2 & _).
  set (mis := filter (LRUCache.is_missing K_eq_dec self rt) keys) in *.
  set (exp := filter (LRUCache.is_expired K_eq_dec self rt) keys) in *.
  assert (Hmis : forall k, In k mis -> getitem k d2 = None).
  { intros k Hk. rewrite Hget2. apply filter_In in Hk. destruct Hk as [Hk Hm].
    unfold LRUCache.is_missing, LRUCache.branch_of in Hm.
    destruct (in_dec K_eq_dec k exp) as [He|_].
    - apply filter_In in He. destruct He as [_ He].
      unfold LRUCache.is_expired, LRUCache.branch_of in He.
      destruct (getitem k (cache self)) as [[v ts]|]; [|discriminate].
      destruct (LRUCache._is_expired_at_time self ts rt); discriminate.
    - destruct (getitem k (cache self)) as [[v ts]|]; [|reflexivity].
      destruct (LRUCache._is_expired_at_time self ts rt); discriminate. }
  assert (Hsame : length d2 = length (cache self)).
  { apply same_keys_same_length; auto. intros k. rewrite Hget2.
    destruct (in_dec K_eq_dec k exp) as [He|_]; [|tauto].
    split; [discriminate|]. intros Hn. exfalso.
    apply filter_In in He. destruct He as [_ He].
    now apply is_expired_present in He. }
  unfold LRUCache.size, OrderedDict.len in *.
  rewrite Hget.
  rewrite (@add_fifo K K_eq_dec rt mis); fields;
    try assumption; [|unfold OrderedDict.len; lia|now apply NoDup_filter].
  cbn [bind]. unfold OrderedDict.len. unfold_with. fields.
  eexists. split; [reflexivity|]. fields. rewrite Hsame. fold missing.
  split; [reflexivity|]. split.
  - rewrite length_skipn, length_app, length_map, Hsame. fold mis. lia.
  - rewrite skipn_app, skipn_map. eexists. f_equal. f_equal. f_equal.
    rewrite Hsame. fold mis. lia.
Qed.

End DistinctKeys.

Section RoundTrip.
Variable K : Type.
Variable K_eq_dec : forall x y : K, {x = y} + {x <> y}.

Local Abbreviation getitem := (@OrderedDict.getitem K LRUCache.entry K_eq_dec).
Local Abbreviation keys_of := (@OrderedDict.keys K LRUCache.entry).
Local Abbreviation cache := (@LRUCache.cache K).
Local Abbreviation fresh ts := (fun k : K => (k, ((0, ts) : LRUCache.entry))).

Lemma filter_none (A : Type) (f : A -> bool) (l : list A) :
  (forall x, In x l -> f x = false) -> filter f l = [].
Proof.
  induction l as [|a l IH]; intros H; [reflexivity|]. cbn [filter].
  rewrite (H a (or_introl eq_refl)). apply IH. intros x Hx. apply H. now right.
Qed.

Lemma filter_every (A : Type) (f : A -> bool) (l : list A) :
  (forall x, In x l -> f x = true) -> filter f l = l.
Proof.
  induction l as [|a l IH]; intros H; [reflexivity|]. cbn [filter].
  rewrite (H a (or_introl eq_refl)). f_equal. apply IH. intros x Hx. apply H. now right.
Qed.

Lemma get_all_held (now : datetime) (self : LRUCache.t K)
        (keys : list K) (rt : datetime) :
  1 <= LRUCache.max_size self ->
  LRUCache.size self <= LRUCache.max_size self ->
  NoDup (keys_of (cache self)) ->
  NoDup keys ->
  Z.of_nat (length keys) <= LRUCache.max_size self ->
  exists c',
    LRUCache.get K_eq_dec now self keys (Some rt) = Ok (repeat 0 (length keys), c') /\
    forall k, In k keys -> OrderedDict.contains K_eq_dec k (cache c') = true.
Proof.
  intros Hmax Hsize Hc Hkeys Hfit.
  destruct (get_shape K_eq_dec now self keys rt)
    as (d2 & Hget & Hget2 & Hlen2 & Hnd2 & back & Hd2 & Hback).
  set (mis := filter (LRUCache.is_missing K_eq_dec self rt) keys) in *.
  set (exp := filter (LRUCache.is_expired K_eq_dec self rt) keys) in *.
  set (front := filter _ (cache self)) in *.
  assert (Hpresent : forall k, getitem k (cache self) <> None -> getitem k d2 <> None).
  { intros k Hk. rewrite Hget2. now destruct (in_dec K_eq_dec k exp). }
  assert (Hmis : forall k, In k mis -> getitem k (cache self) = None /\ getitem k d2 = None).
  { intros k Hk. apply filter_In in Hk. destruct Hk as [Hk Hm].
    unfold LRUCache.is_missing, LRUCache.branch_of in Hm.
    assert (getitem k (cache self) = None) as Hn.
    { destruct (getitem k (cache self)) as [[v ts]|]; [|reflexivity].
      destruct (LRUCache._is_expired_at_time self ts rt); discriminate. }
    split; [assumption|]. rewrite Hget2, Hn.
    destruct (in_dec K_eq_dec k exp) as [He|_]; [|reflexivity].
    apply filter_In in He. destruct He as [_ He].
    apply is_expired_present in He. contradiction. }
  specialize (Hnd2 Hc).
  assert (Hcount : (length back + length mis <= length keys)%nat).
  { rewrite <- (length_map fst back), <- length_app.
    apply NoDup_incl_length.
    - apply NoDup_app.
      + rewrite Hd2 in Hnd2. unfold OrderedDict.keys in Hnd2.
        rewrite map_app in Hnd2. now apply NoDup_app_remove_l in Hnd2.
      + now apply NoDup_filter.
      + intros k Hk Hk'. apply Hmis in Hk'. destruct Hk' as [_ Hk'].
        apply (getitem_None K_eq_dec) in Hk'. apply Hk'.
        rewrite Hd2. unfold OrderedDict.keys. rewrite map_app.
        apply in_or_app. now right.
    - intros k Hk. apply in_app_or in Hk. destruct Hk as [Hk|Hk].
      + apply in_map_iff in Hk. destruct Hk as (e & <- & He).
        rewrite Forall_forall in Hback. now apply Hback.
      + now apply filter_In in Hk. }
  unfold LRUCache.size, OrderedDict.len in *.
  rewrite Hget.
  rewrite (@add_fifo K K_eq_dec rt mis); fields;
    try assumption;
    [|unfold OrderedDict.len; lia|now apply NoDup_filter|intros k Hk; now apply Hmis].
  cbn [bind]. unfold OrderedDict.len. unfold_with. fields.
  eexists. split; [reflexivity|]. fields.
  intros k Hk. apply contains_In.
  rewrite Hd2, <- app_assoc, skipn_app.
  rewrite (length_app front back).
  match goal with
  | |- context [skipn (?n - length front) ?l] =>
      replace (n - length front)%nat with 0%nat by lia
  end.
  cbn [skipn]. unfold OrderedDict.keys. rewrite !map_app.
  apply in_or_app. right.
  destruct (getitem k (cache self)) as [e|] eqn:Ek.
  - apply in_or_app. left.
    assert (In k (keys_of d2)) as Hin.
    { apply (In_keys_getitem K_eq_dec). apply Hpresent. congruence. }
    rewrite Hd2 in Hin. unfold OrderedDict.keys in Hin. rewrite map_app in Hin.
    apply in_app_or in Hin. destruct Hin as [Hin|Hin]; [exfalso|assumption].
    apply in_map_iff in Hin. destruct Hin as ([k' e'] & Hkk & Hin).
    cbn [fst] in Hkk. subst k'. subst front. apply filter_In in Hin.
    destruct Hin as [_ Hin]. cbn [fst] in Hin.
    destruct (in_dec K_eq_dec k keys); [discriminate|contradiction].
  - apply in_or_app. right. rewrite map_map. cbn [fst]. rewrite map_id.
    apply filter_In. split; [assumption|].
    unfold LRUCache.is_missing, LRUCache.branch_of. now rewrite Ek.
Qed.

(** X3. A lookup of at most [max_size] pairwise distinct keys leaves
    every one of them in the cache. *)
Theorem bulk_lookup_caches_all_keys (now : datetime) (self : LRUCache.t K)
        (keys : list K) (rt : datetime) :
  1 <= LRUCache.max_size self ->
  LRUCache.size self <= LRUCache.max_size self ->
  NoDup (keys_of (cache self)) ->
  NoDup keys ->
  Z.of_nat (length keys) <= LRUCache.max_size self ->
  exists c',
    LRUCache.get K_eq_dec now self keys (Some rt) = Ok (repeat 0 (length keys), c') /\
    forall k, In k keys -> OrderedDict.contains K_eq_dec k (cache c') = true.
Proof.
  exact (@get_all_held now self keys rt).
Qed.

End RoundTrip.

Section Repeat.
Variable K : Type.
Variable K_eq_dec : forall x y : K, {x = y} + {x <> y}.

Local Abbreviation getitem := (@OrderedDict.getitem K LRUCache.entry K_eq_dec).
Local Abbreviation keys_of := (@OrderedDict.keys K LRUCache.entry).
Local Abbreviation cache := (@LRUCache.cache K).

(** X4. Asking again at once: after a lookup of at most [max_size]
    pairwise distinct keys at time [t], with a non-negative [ttl], the
    same lookup at the same time counts every key as a hit; it counts
    no miss, no bulk miss and no expiration and evicts nothing. *)
Theorem repeated_lookup_hits_every_key (now now' : datetime) (self : LRUCache.t K)
        (keys : list K) (t : datetime) :
  1 <= LRUCache.max_size self ->
  LRUCache.size self <= LRUCache.max_size self ->
  LRUCache.wf self ->
  0 <= LRUCache.ttl self ->
  NoDup keys ->
  Z.of_nat (length keys) <= LRUCache.max_size self ->
  exists c1 c2,
    LRUCache.get K_eq_dec now self keys (Some t) = Ok (repeat 0 (length keys), c1) /\
    LRUCache.get K_eq_dec now' c1 keys (Some t) = Ok (repeat 0 (length keys), c2) /\
    LRUCache.hits c2 = LRUCache.hits c1 + Z.of_nat (length keys) /\
    LRUCache.misses c2 = LRUCache.misses c1 /\
    LRUCache.bulk_misses c2 = LRUCache.bulk_misses c1 /\
    LRUCache.expirations c2 = LRUCache.expirations c1 /\
    LRUCache.evictions c2 = LRUCache.evictions c1.
Proof.
  intros Hmax Hsize [Hnd Httl] Hpos Hkeys Hfit.
  destruct (@get_all_held K K_eq_dec now self keys t
              Hmax Hsize Hnd Hkeys Hfit) as (c1 & Hget1 & Hheld).
  destruct (get_spec K_eq_dec now self keys t Hmax)
    as (d & n & Hspec & _ & _ & _ & Hfresh).
  rewrite Hget1 in Hspec. inversion Hspec as [Hc1]. clear Hspec.
  assert (Htt : LRUCache._is_expired_at_time self t t = false)
    by now apply not_expired_at_once.
  specialize (Hfresh Hnd Htt).
  assert (Hhit : forall k, In k keys ->
                           LRUCache.branch_of K_eq_dec c1 t k = LRUCache.Hit).
  { intros k Hk. specialize (Hheld k Hk). unfold OrderedDict.contains in Hheld.
    unfold LRUCache.branch_of.
    destruct (getitem k (cache c1)) as [[v ts]|] eqn:Ek; [|discriminate].
    rewrite Hc1 in Ek. cbn [LRUCache.cache] in Ek.
    specialize (Hfresh k v ts Hk Ek).
    unfold LRUCache._is_expired_at_time in *. rewrite Hc1.
    cbn [LRUCache.ttl_seconds]. now rewrite Hfresh. }
  destruct (get_shape K_eq_dec now' c1 keys t) as (d2 & Hget2 & _).
  rewrite (filter_none (LRUCache.is_missing K_eq_dec c1 t) keys) in Hget2.
  2:{ intros k Hk. unfold LRUCache.is_missing. now rewrite (Hhit k Hk). }
  rewrite (filter_none (LRUCache.is_expired K_eq_dec c1 t) keys) in Hget2.
  2:{ intros k Hk. unfold LRUCache.is_expired. now rewrite (Hhit k Hk). }
  rewrite (filter_every (LRUCache.is_hit K_eq_dec c1 t) keys) in Hget2.
  2:{ intros k Hk. unfold LRUCache.is_hit. now rewrite (Hhit k Hk). }
  unfold LRUCache._add_keys_to_cache in Hget2.
  cbn [for_each bind app length] in Hget2. fields.
  rewrite !Z.add_0_r in Hget2.
  exists c1. eexists. split; [exact Hget1|]. split; [exact Hget2|].
  cbn. repeat split.
Qed.

End Repeat.

Section Accounting.
Variable K : Type.
Variable K_eq_dec : forall x y : K, {x = y} + {x <> y}.

Local Abbreviation getitem := (@OrderedDict.getitem K LRUCache.entry K_eq_dec).
Local Abbreviation setitem := (@OrderedDict.setitem K LRUCache.entry K_eq_dec).
Local Abbreviation cache := (@LRUCache.cache K).

(** [_add_keys_to_cache] never evicts more entries than it was given
    keys, and entries held plus entries evicted grow by at most the
    number of keys. *)
Lemma add_balance (ts : datetime) (ks : list K) :
  forall self : LRUCache.t K,
    1 <= LRUCache.max_size self ->
    exists d n,
      LRUCache._add_keys_to_cache K_eq_dec self ks ts =
      Ok (LRUCache.with_evictions (LRUCache.with_cache self d)
            (LRUCache.evictions self + n))
      /\ 0 <= n
      /\ OrderedDict.len d + n <= OrderedDict.len (cache self) + Z.of_nat (length ks).
Proof.
  unfold LRUCache._add_keys_to_cache, OrderedDict.len.
  induction ks as [|k ks IH]; intros self Hmax.
  - exists (cache self), 0. split; [|cbn [length]; lia].
    destruct self. cbn. now rewrite Z.add_0_r.
  - cbn [for_each]. rewrite add_key_eq by assumption. cbn [bind].
    unfold OrderedDict.len.
    destruct (Z.geb_spec (Z.of_nat (length (cache self))) (LRUCache.max_size self))
      as [Hfull|Hroom].
    + set (self1 := LRUCache.with_evictions _ _).
      destruct (IH self1) as (d & n & Hrun & Hn & Hbal);
        [subst self1; now fields|].
      rewrite Hrun. subst self1. fields. exists d, (n + 1).
      split; [|split; [lia|]].
      * clear. destruct self. unfold_with. fields. do 2 f_equal. lia.
      * pose proof (@length_setitem_le K LRUCache.entry K_eq_dec k (0, ts)
                      (tl (cache self))) as Hs.
        assert (length (cache self) = S (length (tl (cache self)))) as Hc.
        { destruct (cache self); [cbn [length] in Hfull; lia|reflexivity]. }
        cbn [length]. rewrite Hc. lia.
    + set (self1 := LRUCache.with_cache _ _).
      destruct (IH self1) as (d & n & Hrun & Hn & Hbal);
        [subst self1; now fields|].
      rewrite Hrun. subst self1. fields. exists d, n.
      split; [|split; [lia|]].
      * clear. destruct self. unfold_with. fields. reflexivity.
      * pose proof (@length_setitem_le K LRUCache.entry K_eq_dec k (0, ts)
                      (cache self)) as Hs.
        cbn [length]. lia.
Qed.

(** One [get] call and the counters. *)
Lemma get_counters (now : datetime) (self : LRUCache.t K) (keys : list K)
      (request_time : option datetime) :
  1 <= LRUCache.max_size self ->
  exists c',
    LRUCache.get K_eq_dec now self keys request_time =
    Ok (repeat 0 (length keys), c')
    /\ LRUCache.max_size c' = LRUCache.max_size self
    /\ LRUCache.ttl c' = LRUCache.ttl self
    /\ LRUCache.ttl_seconds c' = LRUCache.ttl_seconds self
    /\ LRUCache.total_requests c' =
       LRUCache.total_requests self + Z.of_nat (length keys)
    /\ LRUCache.hits self <= LRUCache.hits c'
    /\ LRUCache.misses self <= LRUCache.misses c'
    /\ LRUCache.bulk_misses self <= LRUCache.bulk_misses c' <=
       LRUCache.bulk_misses self + 1
    /\ (counters_consistent self -> counters_consistent c').
Proof.
  intros Hmax.
  assert (exists rt, LRUCache.get K_eq_dec now self keys request_time =
                     LRUCache.get K_eq_dec now self keys (Some rt)) as [rt ->].
  { destruct request_time as [rt|]; [now exists rt|now exists now]. }
  destruct (get_shape K_eq_dec now self keys rt)
    as (d2 & Hget & _ & Hlen2 & _).
  pose proof (branch_partition K_eq_dec self rt keys) as Hpart.
  set (mis := filter (LRUCache.is_missing K_eq_dec self rt) keys) in *.
  set (exp := filter (LRUCache.is_expired K_eq_dec self rt) keys) in *.
  set (hit := filter (LRUCache.is_hit K_eq_dec self rt) keys) in *.
  set (s2 := LRUCache.mk _ _ _ d2 _ _ _ _ _) in Hget.
  destruct (add_balance rt mis s2) as (d3 & n & Hadd & Hn & Hbal);
    [subst s2; now fields|].
  rewrite Hget, Hadd. cbn [bind]. subst s2. fields.
  eexists. split; [reflexivity|].
  unfold LRUCache.total_requests, counters_consistent, LRUCache.size,
    OrderedDict.len in *.
  fields. rewrite length_app.
  assert (Hb : 0 <= match mis ++ exp with [] => 0 | _ :: _ => 1 end <= 1 /\
               match mis ++ exp with [] => 0 | _ :: _ => 1 end <=
               Z.of_nat (length mis + length exp)).
  { destruct (mis ++ exp) eqn:E.
    - lia.
    - apply (f_equal (@length K)) in E. rewrite length_app in E.
      cbn [length] in E. lia. }
  repeat split; try lia.
Qed.

End Accounting.

Section Runs.
Variable K : Type.
Variable K_eq_dec : forall x y : K, {x = y} + {x <> y}.

Local Abbreviation getitem := (@OrderedDict.getitem K LRUCache.entry K_eq_dec).
Local Abbreviation cache := (@LRUCache.cache K).

Lemma batch_get_base (now : datetime) (self : BatchRefreshCache.t K)
        (keys : list K) (request_time : option datetime) :
  1 <= LRUCache.max_size (BatchRefreshCache.base self) ->
  exists b1 c',
    LRUCache.get K_eq_dec now (BatchRefreshCache.base self) keys request_time =
    Ok (repeat 0 (length keys), b1) /\
    BatchRefreshCache.get K_eq_dec now self keys request_time =
    Ok (repeat 0 (length keys), c') /\
    BatchRefreshCache.base c' =
    LRUCache.with_cache b1 (cache (BatchRefreshCache.base c')) /\
    (forall k, OrderedDict.contains K_eq_dec k (cache (BatchRefreshCache.base c')) =
               OrderedDict.contains K_eq_dec k (cache b1)) /\
    LRUCache.size (BatchRefreshCache.base c') <= LRUCache.size b1.
Proof.
  intros Hmax.
  destruct (get_counters K_eq_dec now (BatchRefreshCache.base self) keys
              request_time Hmax) as (b1 & Hget & _).
  exists b1. destruct keys as [|k0 ks].
  - cbn [LRUCache.get repeat length] in Hget. inversion Hget as [Hb1].
    exists self. cbn [BatchRefreshCache.get repeat length].
    split; [reflexivity|]. split; [reflexivity|].
    split; [now destruct (BatchRefreshCache.base self)|].
    split; [reflexivity|lia].
  - set (keys := k0 :: ks) in *.
    assert (Hget' : LRUCache.get K_eq_dec now (BatchRefreshCache.base self) keys
                      (Some match request_time with Some t => t | None => now end) =
                    Ok (repeat 0 (length keys), b1)).
    { rewrite <- Hget. now destruct request_time. }
    unfold BatchRefreshCache.get. cbv iota. fold keys.
    set (rt := match request_time with Some t => t | None => now end) in *.
    set (self1 := BatchRefreshCache.with_refresh_batch _ _).
    change (BatchRefreshCache.base self1) with (BatchRefreshCache.base self).
    rewrite Hget'. cbn [bind fst snd].
    set (self2 := BatchRefreshCache.with_base _ _).
    unfold BatchRefreshCache._process_refresh_batch.
    destruct (_ >=? _).
    + destruct (refresh_spec K_eq_dec rt (BatchRefreshCache.refresh_batch self2)
                  (BatchRefreshCache.base self2))
        as (d & Hrun & Hd & Hlen & _).
      rewrite Hrun. cbn [bind]. eexists. split; [exact Hget|].
      split; [reflexivity|]. subst self2. cbn in *.
      split; [reflexivity|]. split.
      * intros k. unfold OrderedDict.contains. rewrite Hd.
        match goal with
        | |- context [if ?c then _ else getitem k (cache b1)] => destruct c
        end; [|reflexivity].
        now destruct (getitem k (cache b1)).
      * unfold LRUCache.size, OrderedDict.len. cbn. lia.
    + cbn [bind]. eexists. split; [exact Hget|]. split; [reflexivity|].
      subst self2. cbn. split; [now destruct b1|]. split; [reflexivity|lia].
Qed.

(** X5. On a cache of positive capacity, [get] of the batch layer
    returns what [get] of the base class returns on the same fields, and
    leaves the same counters, the same configuration and the same set
    of keys; the two can differ only in the order and the timestamps of
    the entries. *)
Theorem batch_get_follows_base (now : datetime) (self : BatchRefreshCache.t K)
        (keys : list K) (request_time : option datetime) :
  1 <= LRUCache.max_size (BatchRefreshCache.base self) ->
  exists b1 c',
    LRUCache.get K_eq_dec now (BatchRefreshCache.base self) keys request_time =
    Ok (repeat 0 (length keys), b1) /\
    BatchRefreshCache.get K_eq_dec now self keys request_time =
    Ok (repeat 0 (length keys), c') /\
    BatchRefreshCache.base c' =
    LRUCache.with_cache b1 (cache (BatchRefreshCache.base c')) /\
    (forall k, OrderedDict.contains K_eq_dec k (cache (BatchRefreshCache.base c')) =
               OrderedDict.contains K_eq_dec k (cache b1)) /\
    LRUCache.size (BatchRefreshCache.base c') <= LRUCache.size b1.
Proof.
  exact (@batch_get_base now self keys request_time).
Qed.

Lemma lru_run_counters (cs : list (call K)) :
  forall self : LRUCache.t K,
    1 <= LRUCache.max_size self ->
    exists c,
      lru_run K_eq_dec self cs = Ok c
      /\ LRUCache.max_size c = LRUCache.max_size self
      /\ LRUCache.ttl c = LRUCache.ttl self
      /\ LRUCache.ttl_seconds c = LRUCache.ttl_seconds self
      /\ LRUCache.total_requests c =
         LRUCache.total_requests self + keys_requested cs
      /\ LRUCache.bulk_misses c <=
         LRUCache.bulk_misses self + Z.of_nat (length cs)
      /\ (counters_consistent self -> counters_consistent c).
Proof.
  unfold lru_run, keys_requested.
  induction cs as [|c cs IH]; intros self Hmax.
  - exists self. do 4 (split; [reflexivity|]).
    split; [cbn; lia|]. split; [cbn; lia|]. auto.
  - cbn [for_each]. unfold lru_call at 1.
    destruct (get_counters K_eq_dec (call_now c) self (call_keys c) (call_time c) Hmax)
      as (s1 & Hget & Hm & Ht & Hts & Htot & _ & _ & Hbulk & Hinv).
    rewrite Hget. cbn [bind snd].
    destruct (IH s1) as (s2 & Hrun & Hm2 & Ht2 & Hts2 & Htot2 & Hbulk2 & Hinv2);
      [lia|].
    exists s2. rewrite Hrun. cbn [map concat length].
    rewrite length_app, Nat2Z.inj_add.
    split; [reflexivity|]. do 3 (split; [congruence|]).
    split; [lia|]. split; [lia|]. auto.
Qed.

Lemma batch_run_counters (cs : list (call K)) :
  forall self : BatchRefreshCache.t K,
    1 <= LRUCache.max_size (BatchRefreshCache.base self) ->
    exists c,
      batch_run K_eq_dec self cs = Ok c
      /\ LRUCache.max_size (BatchRefreshCache.base c) =
         LRUCache.max_size (BatchRefreshCache.base self)
      /\ LRUCache.total_requests (BatchRefreshCache.base c) =
         LRUCache.total_requests (BatchRefreshCache.base self) + keys_requested cs
      /\ LRUCache.bulk_misses (BatchRefreshCache.base c) <=
         LRUCache.bulk_misses (BatchRefreshCache.base self) + Z.of_nat (length cs)
      /\ (counters_consistent (BatchRefreshCache.base self) ->
          counters_consistent (BatchRefreshCache.base c)).
Proof.
  unfold batch_run, keys_requested.
  induction cs as [|c cs IH]; intros self Hmax.
  - exists self. do 2 (split; [reflexivity|]).
    split; [cbn; lia|]. split; [cbn; lia|]. auto.
  - cbn [for_each]. unfold batch_call at 1.
    destruct (batch_get_base (call_now c) self (call_keys c) (call_time c) Hmax)
      as (b1 & s1 & Hbase & Hget & Hs1 & _ & Hsize).
    destruct (get_counters K_eq_dec (call_now c) (BatchRefreshCache.base self)
                (call_keys c) (call_time c) Hmax)
      as (b1' & Hbase' & Hm & _ & _ & Htot & _ & _ & Hbulk & Hinv).
    rewrite Hbase in Hbase'. inversion Hbase' as [Hb]. subst b1'. clear Hbase'.
    rewrite Hget. cbn [bind snd].
    assert (Hf : LRUCache.max_size (BatchRefreshCache.base s1) = LRUCache.max_size b1 /\
                 LRUCache.hits (BatchRefreshCache.base s1) = LRUCache.hits b1 /\
                 LRUCache.misses (BatchRefreshCache.base s1) = LRUCache.misses b1 /\
                 LRUCache.bulk_misses (BatchRefreshCache.base s1) = LRUCache.bulk_misses b1 /\
                 LRUCache.evictions (BatchRefreshCache.base s1) = LRUCache.evictions b1 /\
                 LRUCache.expirations (BatchRefreshCache.base s1) = LRUCache.expirations b1).
    { rewrite Hs1. cbn. repeat split. }
    destruct Hf as (Hf1 & Hf2 & Hf3 & Hf4 & Hf5 & Hf6).
    destruct (IH s1) as (s2 & Hrun & Hm2 & Htot2 & Hbulk2 & Hinv2); [lia|].
    exists s2. rewrite Hrun. cbn [map concat length].
    rewrite length_app, Nat2Z.inj_add.
    unfold LRUCache.total_requests, counters_consistent in *.
    split; [reflexivity|]. split; [lia|]. split; [lia|]. split; [lia|].
    intros Hc. apply Hinv2. specialize (Hinv Hc). lia.
Qed.

End Runs.

Section Statistics.
Variable K : Type.
Variable K_eq_dec : forall x y : K, {x = y} + {x <> y}.

(** X6. [total_requests] of [get_stats] is the number of keys passed to
    [get] since the object was built, repeated keys counted each time:
    every key is counted once, as a hit or as a miss.  [bulk_misses] is
    at most the number of calls.  This holds for both classes. *)
Theorem total_requests_counts_every_key
        (max_size : Z) (ttl : timedelta) (half_ttl : float) (max_request_size : Z)
        (cs : list (call K)) :
  1 <= max_size ->
  (exists c,
     (b <- LRUCache.init K max_size ttl ;; lru_run K_eq_dec b cs) = Ok c /\
     LRUCache.stats_total_requests (LRUCache.get_stats c) = keys_requested cs /\
     LRUCache.stats_hits (LRUCache.get_stats c) +
     LRUCache.stats_misses (LRUCache.get_stats c) = keys_requested cs /\
     LRUCache.stats_bulk_misses (LRUCache.get_stats c) <= Z.of_nat (length cs)) /\
  (exists c,
     (b <- BatchRefreshCache.init K max_size ttl half_ttl max_request_size ;;
      batch_run K_eq_dec b cs) = Ok c /\
     let st := BatchRefreshCache.stats_base (BatchRefreshCache.get_stats c) in
     LRUCache.stats_total_requests st = keys_requested cs /\
     LRUCache.stats_hits st + LRUCache.stats_misses st = keys_requested cs /\
     LRUCache.stats_bulk_misses st <= Z.of_nat (length cs)).
Proof.
  intros Hmax. split.
  - cbn [LRUCache.init bind].
    destruct (lru_run_counters K_eq_dec cs
                (LRUCache.mk max_size ttl (total_seconds ttl)
                             (OrderedDict.empty K LRUCache.entry) 0 0 0 0 0))
      as (c & Hrun & _ & _ & _ & Htot & Hbulk & _); [exact Hmax|].
    exists c. split; [exact Hrun|]. cbn in *. unfold LRUCache.total_requests in *.
    cbn in Htot. lia.
  - cbn [BatchRefreshCache.init LRUCache.init bind].
    destruct (batch_run_counters K_eq_dec cs
                (BatchRefreshCache.mk
                   (LRUCache.mk max_size ttl (total_seconds ttl)
                                (OrderedDict.empty K LRUCache.entry) 0 0 0 0 0)
                   half_ttl max_request_size (float_mul (total_seconds ttl) half_ttl) [] 0))
      as (c & Hrun & _ & Htot & Hbulk & _); [exact Hmax|].
    exists c. split; [exact Hrun|]. cbn in *. unfold LRUCache.total_requests in *.
    cbn in Htot. lia.
Qed.

(** X7. The counters that [get_stats] reports after any sequence of
    [get] calls on a new cache agree with one another: none is negative,
    [expirations] and [bulk_misses] are at most [misses], and
    [current_size + evictions] is at most [misses - expirations], the
    number of insertions.  This holds for both classes. *)
Theorem stats_agree_with_one_another
        (max_size : Z) (ttl : timedelta) (half_ttl : float) (max_request_size : Z)
        (cs : list (call K)) :
  1 <= max_size ->
  (exists c,
     (b <- LRUCache.init K max_size ttl ;; lru_run K_eq_dec b cs) = Ok c /\
     let st := LRUCache.get_stats c in
     0 <= LRUCache.stats_hits st /\
     0 <= LRUCache.stats_expirations st <= LRUCache.stats_misses st /\
     0 <= LRUCache.stats_bulk_misses st <= LRUCache.stats_misses st /\
     0 <= LRUCache.stats_evictions st /\
     LRUCache.stats_current_size st + LRUCache.stats_evictions st <=
     LRUCache.stats_misses st - LRUCache.stats_expirations st) /\
  (exists c,
     (b <- BatchRefreshCache.init K max_size ttl half_ttl max_request_size ;;
      batch_run K_eq_dec b cs) = Ok c /\
     let st := BatchRefreshCache.stats_base (BatchRefreshCache.get_stats c) in
     0 <= LRUCache.stats_hits st /\
     0 <= LRUCache.stats_expirations st <= LRUCache.stats_misses st /\
     0 <= LRUCache.stats_bulk_misses st <= LRUCache.stats_misses st /\
     0 <= LRUCache.stats_evictions st /\
     LRUCache.stats_current_size st + LRUCache.stats_evictions st <=
     LRUCache.stats_misses st - LRUCache.stats_expirations st).
Proof.
  intros Hmax.
  assert (Hinit : counters_consistent
                    (LRUCache.mk max_size ttl (total_seconds ttl)
                                 (OrderedDict.empty K LRUCache.entry) 0 0 0 0 0)).
  { unfold counters_consistent, LRUCache.size, OrderedDict.len. cbn. lia. }
  split.
  - cbn [LRUCache.init bind].
    destruct (lru_run_counters K_eq_dec cs
                (LRUCache.mk max_size ttl (total_seconds ttl)
                             (OrderedDict.empty K LRUCache.entry) 0 0 0 0 0))
      as (c & Hrun & _ & _ & _ & _ & _ & Hinv); [exact Hmax|].
    exists c. split; [exact Hrun|]. specialize (Hinv Hinit).
    unfold counters_consistent, LRUCache.size in Hinv. cbn. lia.
  - cbn [BatchRefreshCache.init LRUCache.init bind].
    destruct (batch_run_counters K_eq_dec cs
                (BatchRefreshCache.mk
                   (LRUCache.mk max_size ttl (total_seconds ttl)
                                (OrderedDict.empty K LRUCache.entry) 0 0 0 0 0)
                   half_ttl max_request_size (float_mul (total_seconds ttl) half_ttl) [] 0))
      as (c & Hrun & _ & _ & _ & Hinv); [exact Hmax|].
    exists c. split; [exact Hrun|]. specialize (Hinv Hinit).
    unfold counters_consistent, LRUCache.size in Hinv. cbn. lia.
Qed.

(** X8. [get_single] never fails on its index: it returns the flag 0
    and the object that [get] on the one-key list leaves, and it raises
    only where that [get] raises. *)
Theorem get_single_is_get_of_one_key (now : datetime) (self : LRUCache.t K)
        (key : K) (request_time : option datetime) :
  LRUCache.get_single K_eq_dec now self key request_time =
  (p <- LRUCache.get K_eq_dec now self [key] request_time ;; Ok (0, snd p)).
Proof.
  unfold LRUCache.get_single.
  destruct (LRUCache.get K_eq_dec now self [key] request_time) as [[r c']|] eqn:E;
    cbn [bind]; [|reflexivity].
  apply get_results in E. subst r. reflexivity.
Qed.

End Statistics.

Section Queue.
Variable K : Type.
Variable K_eq_dec : forall x y : K, {x = y} + {x <> y}.

(** One [get] call of the batch layer and the fields of the layer. *)
Lemma batch_get_step (now : datetime) (self : BatchRefreshCache.t K)
      (keys : list K) (request_time : option datetime) :
  1 <= LRUCache.max_size (BatchRefreshCache.base self) ->
  exists c',
    BatchRefreshCache.get K_eq_dec now self keys request_time =
    Ok (repeat 0 (length keys), c')
    /\ LRUCache.max_size (BatchRefreshCache.base c') =
       LRUCache.max_size (BatchRefreshCache.base self)
    /\ LRUCache.ttl (BatchRefreshCache.base c') = LRUCache.ttl (BatchRefreshCache.base self)
    /\ LRUCache.ttl_seconds (BatchRefreshCache.base c') =
       LRUCache.ttl_seconds (BatchRefreshCache.base self)
    /\ BatchRefreshCache.half_ttl c' = BatchRefreshCache.half_ttl self
    /\ BatchRefreshCache.max_request_size c' = BatchRefreshCache.max_request_size self
    /\ BatchRefreshCache.half_ttl_seconds c' = BatchRefreshCache.half_ttl_seconds self
    /\ BatchRefreshCache.batch_updates self <= BatchRefreshCache.batch_updates c' <=
       BatchRefreshCache.batch_updates self + 1
    /\ (1 <= BatchRefreshCache.max_request_size self ->
        Z.of_nat (length (BatchRefreshCache.refresh_batch self)) <
        BatchRefreshCache.max_request_size self ->
        Z.of_nat (length (BatchRefreshCache.refresh_batch c')) <
        BatchRefreshCache.max_request_size self).
Proof.
  intros Hmax.
  destruct (get_counters K_eq_dec now (BatchRefreshCache.base self) keys
              request_time Hmax) as (b1 & Hget & Hm & Ht & Hts & _).
  destruct keys as [|k0 ks].
  - exists self. cbn [BatchRefreshCache.get repeat length].
    split; [reflexivity|]. repeat split; auto; lia.
  - set (keys := k0 :: ks) in *.
    assert (Hget' : LRUCache.get K_eq_dec now (BatchRefreshCache.base self) keys
                      (Some match request_time with Some t => t | None => now end) =
                    Ok (repeat 0 (length keys), b1)).
    { rewrite <- Hget. now destruct request_time. }
    unfold BatchRefreshCache.get. cbv iota. fold keys.
    set (rt := match request_time with Some t => t | None => now end) in *.
    set (self1 := BatchRefreshCache.with_refresh_batch _ _).
    change (BatchRefreshCache.base self1) with (BatchRefreshCache.base self).
    rewrite Hget'. cbn [bind fst snd].
    set (self2 := BatchRefreshCache.with_base _ _).
    unfold BatchRefreshCache._process_refresh_batch.
    destruct (Z.geb_spec (Z.of_nat (length (BatchRefreshCache.refresh_batch self2)))
                (BatchRefreshCache.max_request_size self2)) as [Hge|Hlt].
    + destruct (refresh_spec K_eq_dec rt (BatchRefreshCache.refresh_batch self2)
                  (BatchRefreshCache.base self2)) as (d & Hrun & _).
      rewrite Hrun. cbn [bind]. eexists. split; [reflexivity|].
      subst self2 self1. cbn.
      do 6 (split; [assumption || reflexivity|]). split; [lia|].
      intros H1 _. lia.
    + cbn [bind]. eexists. split; [reflexivity|].
      subst self2 self1. cbn in *.
      do 6 (split; [assumption || reflexivity|]). split; [lia|].
      intros _ _. exact Hlt.
Qed.

Lemma batch_run_step (cs : list (call K)) :
  forall self : BatchRefreshCache.t K,
    1 <= LRUCache.max_size (BatchRefreshCache.base self) ->
    exists c,
      batch_run K_eq_dec self cs = Ok c
      /\ LRUCache.max_size (BatchRefreshCache.base c) =
         LRUCache.max_size (BatchRefreshCache.base self)
      /\ LRUCache.ttl (BatchRefreshCache.base c) = LRUCache.ttl (BatchRefreshCache.base self)
      /\ LRUCache.ttl_seconds (BatchRefreshCache.base c) =
         LRUCache.ttl_seconds (BatchRefreshCache.base self)
      /\ BatchRefreshCache.half_ttl c = BatchRefreshCache.half_ttl self
      /\ BatchRefreshCache.max_request_size c = BatchRefreshCache.max_request_size self
      /\ BatchRefreshCache.half_ttl_seconds c = BatchRefreshCache.half_ttl_seconds self
      /\ BatchRefreshCache.batch_updates self <= BatchRefreshCache.batch_updates c <=
         BatchRefreshCache.batch_updates self + Z.of_nat (length cs)
      /\ (1 <= BatchRefreshCache.max_request_size self ->
          Z.of_nat (length (BatchRefreshCache.refresh_batch self)) <
          BatchRefreshCache.max_request_size self ->
          Z.of_nat (length (BatchRefreshCache.refresh_batch c)) <
          BatchRefreshCache.max_request_size self).
Proof.
  unfold batch_run.
  induction cs as [|c cs IH]; intros self Hmax.
  - exists self. split; [reflexivity|]. do 6 (split; [reflexivity|]).
    split; [cbn; lia|]. auto.
  - cbn [for_each]. unfold batch_call at 1.
    destruct (batch_get_step (call_now c) self (call_keys c) (call_time c) Hmax)
      as (s1 & Hget & H1 & H2 & H3 & H4 & H5 & H6 & H7 & H8).
    rewrite Hget. cbn [bind snd].
    destruct (IH s1) as (s2 & Hrun & G1 & G2 & G3 & G4 & G5 & G6 & G7 & G8);
      [lia|].
    exists s2. split; [exact Hrun|]. do 6 (split; [congruence|]).
    split; [cbn [length]; lia|].
    intros Hr Hq. rewrite <- H5. apply G8; rewrite H5; auto.
Qed.

(** X9. With [max_request_size >= 1] the refresh queue never stays at
    the threshold: after any sequence of [get] calls on a new batch
    cache its length is below [max_request_size], and [batch_updates]
    is between 0 and the number of calls. *)
Theorem queue_stays_below_threshold
        (max_size : Z) (ttl : timedelta) (half_ttl : float) (max_request_size : Z)
        (cs : list (call K)) :
  1 <= max_size ->
  1 <= max_request_size ->
  exists c,
    (b <- BatchRefreshCache.init K max_size ttl half_ttl max_request_size ;;
     batch_run K_eq_dec b cs) = Ok c /\
    let st := BatchRefreshCache.get_stats c in
    BatchRefreshCache.stats_refresh_batch_size st < max_request_size /\
    BatchRefreshCache.stats_max_request_size st = max_request_size /\
    0 <= BatchRefreshCache.stats_batch_updates st <= Z.of_nat (length cs).
Proof.
  intros Hmax Hreq. cbn [BatchRefreshCache.init LRUCache.init bind].
  destruct (batch_run_step cs
              (BatchRefreshCache.mk
                 (LRUCache.mk max_size ttl (total_seconds ttl)
                              (OrderedDict.empty K LRUCache.entry) 0 0 0 0 0)
                 half_ttl max_request_size (float_mul (total_seconds ttl) half_ttl) [] 0))
    as (c & Hrun & _ & _ & _ & _ & Hr & _ & Hbu & Hq); [exact Hmax|].
  exists c. split; [exact Hrun|]. cbn in *.
  split; [apply Hq; lia|]. split; [exact Hr|lia].
Qed.

(** X10. [clear] takes an object back to the state in which [__init__]
    built it: after any sequence of [get] calls, [clear] gives exactly
    the object that the constructor returns for the same parameters.
    This holds for both classes. *)
Theorem clear_gives_back_the_new_object
        (max_size : Z) (ttl : timedelta) (half_ttl : float) (max_request_size : Z)
        (cs : list (call K)) :
  1 <= max_size ->
  (exists c,
     (b <- LRUCache.init K max_size ttl ;; lru_run K_eq_dec b cs) = Ok c /\
     Ok (LRUCache.clear c) = LRUCache.init K max_size ttl) /\
  (exists c,
     (b <- BatchRefreshCache.init K max_size ttl half_ttl max_request_size ;;
      batch_run K_eq_dec b cs) = Ok c /\
     Ok (BatchRefreshCache.clear c) =
     BatchRefreshCache.init K max_size ttl half_ttl max_request_size).
Proof.
  intros Hmax. split.
  - cbn [LRUCache.init bind].
    destruct (lru_run_counters K_eq_dec cs
                (LRUCache.mk max_size ttl (total_seconds ttl)
                             (OrderedDict.empty K LRUCache.entry) 0 0 0 0 0))
      as (c & Hrun & Hm & Ht & Hts & _); [exact Hmax|].
    exists c. split; [exact Hrun|]. unfold LRUCache.clear.
    cbn in Hm, Ht, Hts. now rewrite Hm, Ht, Hts.
  - cbn [BatchRefreshCache.init LRUCache.init bind].
    destruct (batch_run_step cs
                (BatchRefreshCache.mk
                   (LRUCache.mk max_size ttl (total_seconds ttl)
                                (OrderedDict.empty K LRUCache.entry) 0 0 0 0 0)
                   half_ttl max_request_size (float_mul (total_seconds ttl) half_ttl) [] 0))
      as (c & Hrun & Hm & Ht & Hts & Hh & Hr & Hhs & _); [exact Hmax|].
    exists c. split; [exact Hrun|].
    unfold BatchRefreshCache.clear, LRUCache.clear.
    destruct c as [b h r hs q u]. cbn in *.
    now rewrite Hm, Ht, Hts, Hh, Hr, Hhs.
Qed.

End Queue.

Section HarnessFacts.
Variable K : Type.
Variable K_eq_dec : forall x y : K, {x = y} + {x <> y}.
Variable T : Type.
Variable fromtimestamp : T -> datetime.

Local Abbreviation getitem := (@OrderedDict.getitem K LRUCache.entry K_eq_dec).
Local Abbreviation keys_of := (@OrderedDict.keys K LRUCache.entry).
Local Abbreviation cache := (@LRUCache.cache K).
Local Abbreviation fresh ts := (fun k : K => (k, ((0, ts) : LRUCache.entry))).
Local Abbreviation unseen al :=
  (fun k : K => if in_dec K_eq_dec k al then false else true).
Local Abbreviation all_keys bs := (concat (map (@bullet_keys K T) bs)).

(** The inner loop of [test_cache] is a filter. *)
Lemma first_time_filter (al keys : list K) :
  first_time_bullets K_eq_dec al keys = filter (unseen al) keys.
Proof.
  unfold first_time_bullets.
  assert (H : forall acc,
             fold_left
               (fun first_time key =>
                  if in_dec K_eq_dec key al then first_time else first_time ++ [key])
               keys acc = acc ++ filter (unseen al) keys).
  { induction keys as [|k keys IH]; intros acc; cbn [fold_left filter].
    - now rewrite app_nil_r.
    - rewrite IH. destruct (in_dec K_eq_dec k al); [reflexivity|].
      now rewrite <- app_assoc. }
  apply (H []).
Qed.

Lemma getitem_tl_held (k : K) (c : OrderedDict.t K LRUCache.entry) :
  getitem k (tl c) <> None -> getitem k c <> None.
Proof.
  intros H Hn. apply H. destruct c as [|[k0 e0] c]; [assumption|].
  cbn [tl]. cbn in Hn. destruct (K_eq_dec k k0); [discriminate|assumption].
Qed.

Lemma getitem_skipn_absent (k : K) (n : nat) :
  forall c : OrderedDict.t K LRUCache.entry,
    getitem k c = None -> getitem k (skipn n c) = None.
Proof.
  induction n as [|n IH]; intros c H; [assumption|].
  destruct c as [|[k0 e0] c]; [assumption|]. cbn [skipn]. apply IH.
  cbn in H. destruct (K_eq_dec k k0); [discriminate|assumption].
Qed.

Lemma getitem_fresh (ts : datetime) (k : K) (ks : list K) :
  In k ks -> getitem k (map (fresh ts) ks) = Some (0, ts).
Proof.
  induction ks as [|k0 ks IH]; [intros []|]. intros Hin. cbn [map].
  cbn [OrderedDict.getitem]. destruct (K_eq_dec k k0) as [|Hne]; [reflexivity|].
  destruct Hin as [Heq|Hin]; [congruence|]. now apply IH.
Qed.

(** [_add_keys_to_cache] brings in no key but the given ones. *)
Lemma add_keys_held (ts : datetime) (ks : list K) :
  forall (self s1 : LRUCache.t K) (k : K),
    1 <= LRUCache.max_size self ->
    LRUCache._add_keys_to_cache K_eq_dec self ks ts = Ok s1 ->
    getitem k (cache s1) <> None ->
    getitem k (cache self) <> None \/ In k ks.
Proof.
  unfold LRUCache._add_keys_to_cache.
  induction ks as [|k0 ks IH]; intros self s1 k Hmax Hrun Hk.
  - cbn [for_each] in Hrun. inversion Hrun. subst. now left.
  - cbn [for_each] in Hrun. rewrite add_key_eq in Hrun by assumption.
    cbn [bind] in Hrun.
    destruct (OrderedDict.len (cache self) >=? LRUCache.max_size self).
    + apply IH with (k := k) in Hrun; [|now destruct self|assumption].
      destruct Hrun as [H|H]; [|right; now right].
      destruct self. fields. rewrite (getitem_setitem K_eq_dec) in H.
      destruct (K_eq_dec k k0) as [->|]; [right; now left|].
      left. now apply getitem_tl_held.
    + apply IH with (k := k) in Hrun; [|now destruct self|assumption].
      destruct Hrun as [H|H]; [|right; now right].
      destruct self. fields. rewrite (getitem_setitem K_eq_dec) in H.
      destruct (K_eq_dec k k0) as [->|]; [right; now left|].
      now left.
Qed.

(** [get] brings in no key but the requested ones. *)
Lemma get_held (now : datetime) (self c' : LRUCache.t K) (keys : list K)
      (rt : datetime) (r : list Z) (k : K) :
  1 <= LRUCache.max_size self ->
  LRUCache.get K_eq_dec now self keys (Some rt) = Ok (r, c') ->
  getitem k (cache c') <> None ->
  getitem k (cache self) <> None \/ In k keys.
Proof.
  intros Hmax Hget Hk.
  destruct (get_shape K_eq_dec now self keys rt) as (d2 & Hshape & Hd2 & _).
  rewrite Hget in Hshape.
  set (s2 := LRUCache.mk _ _ _ d2 _ _ _ _ _) in Hshape.
  destruct (LRUCache._add_keys_to_cache K_eq_dec s2 _ rt) as [s3|e] eqn:Hadd;
    [|discriminate].
  cbn [bind] in Hshape. inversion Hshape as [[Hr Hc]]. subst c'.
  cbn [LRUCache.cache] in Hk.
  destruct (@add_keys_held rt _ s2 s3 k Hmax Hadd Hk) as [H|H].
  - subst s2. cbn [LRUCache.cache] in H. rewrite Hd2 in H.
    destruct (in_dec K_eq_dec k _) as [Hin|_]; [|now left].
    right. now apply filter_In in Hin.
  - right. now apply filter_In in H.
Qed.

(** One round of the loop of [test_cache], on the fields of the base
    class: the insertion of some keys, then a lookup. *)
Lemma round_safe (now dt : datetime) (self : LRUCache.t K) (ks keys : list K) :
  1 <= LRUCache.max_size self ->
  LRUCache.size self <= LRUCache.max_size self ->
  exists s1 c',
    LRUCache._add_keys_to_cache K_eq_dec self ks dt = Ok s1 /\
    LRUCache.get K_eq_dec now s1 keys (Some dt) = Ok (repeat 0 (length keys), c') /\
    LRUCache.max_size s1 = LRUCache.max_size self /\
    LRUCache.hits s1 = LRUCache.hits self /\
    LRUCache.max_size c' = LRUCache.max_size self /\
    LRUCache.ttl c' = LRUCache.ttl self /\
    LRUCache.ttl_seconds c' = LRUCache.ttl_seconds self /\
    LRUCache.size c' <= LRUCache.max_size self /\
    LRUCache.total_requests c' =
    LRUCache.total_requests self + Z.of_nat (length keys).
Proof.
  intros Hmax Hsize.
  destruct (add_spec K_eq_dec dt ks self Hmax) as (d & n & Hadd & _ & Hlen & _).
  specialize (Hlen Hsize).
  set (s1 := LRUCache.with_evictions _ _) in Hadd.
  assert (Hmax1 : 1 <= LRUCache.max_size s1) by (subst s1; now destruct self).
  destruct (get_counters K_eq_dec now s1 keys (Some dt) Hmax1)
    as (c' & Hget & Hm & Ht & Hts & Htot & _).
  destruct (get_spec K_eq_dec now s1 keys dt Hmax1)
    as (d' & n' & Hspec & _ & Hlen' & _).
  exists s1, c'. split; [exact Hadd|]. split; [exact Hget|].
  rewrite Hget in Hspec. injection Hspec as Hc.
  assert (Hs : LRUCache.size c' <= LRUCache.max_size self).
  { rewrite Hc. unfold LRUCache.size. cbn [LRUCache.cache].
    replace (LRUCache.max_size self) with (LRUCache.max_size s1)
      by (subst s1; now destruct self).
    apply Hlen'. subst s1. destruct self. fields. exact Hlen. }
  clear Hc.
  subst s1. destruct self. unfold LRUCache.total_requests in *. fields.
  repeat (split; [assumption || reflexivity|]). assumption.
Qed.

(** The keys inserted ahead of a lookup are hits of that lookup. *)
Lemma round_first_time (now dt : datetime) (self : LRUCache.t K)
      (al keys : list K) (s1 c' : LRUCache.t K) :
  1 <= LRUCache.max_size self ->
  LRUCache.size self <= LRUCache.max_size self ->
  LRUCache.ttl_seconds self = total_seconds (LRUCache.ttl self) ->
  0 <= LRUCache.ttl self ->
  (forall k, getitem k (cache self) <> None -> In k al) ->
  NoDup keys ->
  Z.of_nat (length keys) <= LRUCache.max_size self ->
  LRUCache._add_keys_to_cache K_eq_dec self (first_time_bullets K_eq_dec al keys) dt =
  Ok s1 ->
  LRUCache.get K_eq_dec now s1 keys (Some dt) = Ok (repeat 0 (length keys), c') ->
  LRUCache.hits self + Z.of_nat (length (first_time_bullets K_eq_dec al keys)) <=
  LRUCache.hits c' /\
  (forall k, getitem k (cache c') <> None ->
             In k (al ++ first_time_bullets K_eq_dec al keys)).
Proof.
  intros Hmax Hsize Httl Hpos Hal Hnd Hfit Hadd Hget.
  rewrite first_time_filter in *. set (ft := filter (unseen al) keys) in *.
  assert (Hft_nd : NoDup ft) by now apply NoDup_filter.
  assert (Hft_in : forall k, In k ft -> In k keys /\ ~ In k al).
  { intros k Hk. apply filter_In in Hk. destruct Hk as [Hk Hu].
    split; [assumption|]. now destruct (in_dec K_eq_dec k al). }
  assert (Hft_abs : forall k, In k ft -> getitem k (cache self) = None).
  { intros k Hk. destruct (getitem k (cache self)) eqn:E; [|reflexivity].
    exfalso. apply (proj2 (Hft_in k Hk)). apply Hal. congruence. }
  assert (Hft_len : (length ft <= length keys)%nat) by apply filter_length_le.
  assert (Hmax1 : LRUCache.max_size s1 = LRUCache.max_size self /\
                  LRUCache.hits s1 = LRUCache.hits self /\
                  LRUCache.ttl s1 = LRUCache.ttl self /\
                  LRUCache.ttl_seconds s1 = LRUCache.ttl_seconds self /\
                  forall k, In k ft -> getitem k (cache s1) = Some (0, dt)).
  { pose proof (@add_fifo K K_eq_dec dt ft self Hmax Hsize Hft_nd Hft_abs) as Hfifo.
    cbv zeta in Hfifo. rewrite Hadd in Hfifo. injection Hfifo as Hs1.
    rewrite Hs1. destruct self. fields. do 4 (split; [reflexivity|]).
    intros k Hk. unfold LRUCache.size, OrderedDict.len in *. fields.
    rewrite skipn_app.
    match goal with
    | |- context [skipn (?n - ?m) (map _ ft)] =>
        replace (n - m)%nat with 0%nat by lia
    end.
    cbn [skipn]. rewrite (getitem_app K_eq_dec).
    rewrite getitem_skipn_absent by now apply Hft_abs.
    now apply getitem_fresh. }
  destruct Hmax1 as (Hm1 & Hh1 & Ht1 & Hts1 & Hheld1).
  assert (Hhit : forall k, In k ft -> LRUCache.is_hit K_eq_dec s1 dt k = true).
  { intros k Hk. unfold LRUCache.is_hit, LRUCache.branch_of.
    rewrite (Hheld1 k Hk).
    rewrite not_expired_at_once by (try congruence; lia). reflexivity. }
  split.
  - destruct (get_spec K_eq_dec now s1 keys dt) as (d & n & Hspec & _); [lia|].
    rewrite Hget in Hspec. injection Hspec as Hc. rewrite Hc.
    cbn [LRUCache.hits]. rewrite Hh1.
    apply Zplus_le_compat_l, Nat2Z.inj_le.
    apply NoDup_incl_length; [assumption|].
    intros k Hk. apply filter_In. split; [now apply Hft_in|now apply Hhit].
  - intros k Hk.
    assert (Hm1' : 1 <= LRUCache.max_size s1) by lia.
    destruct (@get_held now s1 c' keys dt _ k Hm1' Hget Hk) as [H|H].
    + destruct (@add_keys_held dt ft self s1 k Hmax Hadd H) as [H'|H'].
      * apply in_or_app. left. now apply Hal.
      * apply in_or_app. now right.
    + apply in_or_app. destruct (in_dec K_eq_dec k al) as [Hin|Hout]; [now left|].
      right. apply filter_In. split; [assumption|].
      now destruct (in_dec K_eq_dec k al).
Qed.

(** One round of the loop of [test_cache] on the batch cache: both
    methods work on the fields of the base class, and the refreshes
    that follow the delegated lookup change no counter and no key set. *)
Lemma batch_round (dt : datetime) (self : BatchRefreshCache.t K) (ks keys : list K) :
  1 <= LRUCache.max_size (BatchRefreshCache.base self) ->
  exists s1 b1 c',
    LRUCache._add_keys_to_cache K_eq_dec (BatchRefreshCache.base self) ks dt = Ok s1 /\
    LRUCache.get K_eq_dec dt s1 keys (Some dt) = Ok (repeat 0 (length keys), b1) /\
    BatchRefreshCache._add_keys_to_cache K_eq_dec self ks dt =
    Ok (BatchRefreshCache.with_base self s1) /\
    BatchRefreshCache.get K_eq_dec dt (BatchRefreshCache.with_base self s1) keys (Some dt) =
    Ok (repeat 0 (length keys), c') /\
    BatchRefreshCache.base c' =
    LRUCache.with_cache b1 (cache (BatchRefreshCache.base c')) /\
    (forall k, OrderedDict.contains K_eq_dec k (cache (BatchRefreshCache.base c')) =
               OrderedDict.contains K_eq_dec k (cache b1)) /\
    LRUCache.size (BatchRefreshCache.base c') <= LRUCache.size b1.
Proof.
  intros Hmax.
  destruct (add_spec K_eq_dec dt ks (BatchRefreshCache.base self) Hmax)
    as (d & n & Hadd & _).
  set (s1 := LRUCache.with_evictions _ _) in Hadd.
  assert (Hmax1 : 1 <= LRUCache.max_size
                         (BatchRefreshCache.base (BatchRefreshCache.with_base self s1))).
  { subst s1. cbn. exact Hmax. }
  destruct (@batch_get_base K K_eq_dec dt (BatchRefreshCache.with_base self s1)
              keys (Some dt) Hmax1) as (b1 & c' & Hbase & Hget & Hrest).
  exists s1, b1, c'. split; [exact Hadd|]. split; [exact Hbase|].
  split; [|split; [exact Hget|exact Hrest]].
  unfold BatchRefreshCache._add_keys_to_cache. now rewrite Hadd.
Qed.

(** The outer loop of [test_cache], with an invariant that may speak of
    the bullets still to come. *)
Lemma test_cache_run (C : Type) (ops : cache_like K C)
      (P : list (bullet K T) -> list K -> C -> Prop) :
  (forall b bs al c,
      P (b :: bs) al c ->
      exists c1 r c2,
        cl_add_keys ops c (first_time_bullets K_eq_dec al (bullet_keys b))
                    (fromtimestamp (bullet_timestamp b)) = Ok c1 /\
        cl_get ops c1 (bullet_keys b) (fromtimestamp (bullet_timestamp b)) =
        Ok (r, c2) /\
        P bs (al ++ first_time_bullets K_eq_dec al (bullet_keys b)) c2) ->
  forall bs al c,
    P bs al c ->
    exists al' c',
      for_each (test_cache_step K_eq_dec fromtimestamp ops) bs (al, c) = Ok (al', c') /\
      P [] al' c'.
Proof.
  intros Hstep. induction bs as [|b bs IH]; intros al c HP.
  - exists al, c. split; [reflexivity|assumption].
  - cbn [for_each]. unfold test_cache_step at 1.
    destruct (Hstep b bs al c HP) as (c1 & r & c2 & Hadd & Hget & HP2).
    rewrite Hadd. cbn [bind]. rewrite Hget. cbn [bind snd].
    apply IH. exact HP2.
Qed.

Local Abbreviation bounded M N :=
  (fun (bs : list (bullet K T)) (_ : list K) (b : LRUCache.t K) =>
     LRUCache.max_size b = M%Z /\ LRUCache.size b <= M /\
     LRUCache.total_requests b + Z.of_nat (length (all_keys bs)) = N).

Lemma lru_round_bounded (M N : Z) (b : bullet K T) (bs : list (bullet K T))
      (al : list K) (c : LRUCache.t K) :
  1 <= M ->
  bounded M N (b :: bs) al c ->
  exists c1 r c2,
    cl_add_keys (lru_cache_like K_eq_dec) c
                (first_time_bullets K_eq_dec al (bullet_keys b))
                (fromtimestamp (bullet_timestamp b)) = Ok c1 /\
    cl_get (lru_cache_like K_eq_dec) c1 (bullet_keys b)
           (fromtimestamp (bullet_timestamp b)) = Ok (r, c2) /\
    bounded M N bs (al ++ first_time_bullets K_eq_dec al (bullet_keys b)) c2.
Proof.
  intros HM (Hm & Hs & Ht).
  destruct (round_safe (fromtimestamp (bullet_timestamp b))
              (fromtimestamp (bullet_timestamp b)) c
              (first_time_bullets K_eq_dec al (bullet_keys b)) (bullet_keys b))
    as (s1 & c' & Hadd & Hget & _ & _ & Hm' & _ & _ & Hs' & Ht'); [lia|lia|].
  exists s1, (repeat 0 (length (bullet_keys b))), c'.
  split; [exact Hadd|]. split; [exact Hget|].
  split; [congruence|]. split; [lia|].
  cbn [map concat] in Ht. rewrite length_app, Nat2Z.inj_add in Ht. lia.
Qed.

Lemma batch_round_bounded (M N : Z) (b : bullet K T) (bs : list (bullet K T))
      (al : list K) (c : BatchRefreshCache.t K) :
  1 <= M ->
  bounded M N (b :: bs) al (BatchRefreshCache.base c) ->
  exists c1 r c2,
    cl_add_keys (batch_cache_like K_eq_dec) c
                (first_time_bullets K_eq_dec al (bullet_keys b))
                (fromtimestamp (bullet_timestamp b)) = Ok c1 /\
    cl_get (batch_cache_like K_eq_dec) c1 (bullet_keys b)
           (fromtimestamp (bullet_timestamp b)) = Ok (r, c2) /\
    bounded M N bs (al ++ first_time_bullets K_eq_dec al (bullet_keys b))
            (BatchRefreshCache.base c2).
Proof.
  intros HM (Hm & Hs & Ht).
  destruct (round_safe (fromtimestamp (bullet_timestamp b))
              (fromtimestamp (bullet_timestamp b)) (BatchRefreshCache.base c)
              (first_time_bullets K_eq_dec al (bullet_keys b)) (bullet_keys b))
    as (s1 & c' & Hadd & Hget & _ & _ & Hm' & _ & _ & Hs' & Ht'); [lia|lia|].
  destruct (batch_round (fromtimestamp (bullet_timestamp b)) c
              (first_time_bullets K_eq_dec al (bullet_keys b)) (bullet_keys b))
    as (s1' & b1 & c2 & Hadd' & Hget' & Hbadd & Hbget & Hbase & _ & Hsize); [lia|].
  rewrite Hadd in Hadd'. injection Hadd' as <-.
  rewrite Hget in Hget'. injection Hget' as <-.
  exists (BatchRefreshCache.with_base c s1), (repeat 0 (length (bullet_keys b))), c2.
  split; [exact Hbadd|]. split; [exact Hbget|].
  assert (Hf : LRUCache.max_size (BatchRefreshCache.base c2) = LRUCache.max_size c' /\
               LRUCache.total_requests (BatchRefreshCache.base c2) =
               LRUCache.total_requests c').
  { rewrite Hbase. now destruct c'. }
  destruct Hf as [Hf1 Hf2].
  split; [congruence|]. split; [lia|].
  cbn [map concat] in Ht. rewrite length_app, Nat2Z.inj_add in Ht. lia.
Qed.

(** X11. [test_cache] runs through any list of bullets without raising,
    on a new cache of either class with [max_size >= 1]; it leaves at
    most [max_size] entries, and [total_requests] is the number of keys
    in the bullets: the insertions that precede each lookup count no
    request. *)
Theorem test_cache_counts_every_key
        (max_size : Z) (ttl : timedelta) (half_ttl : float) (max_request_size : Z)
        (bullets : list (bullet K T)) :
  1 <= max_size ->
  (exists c,
     (b <- LRUCache.init K max_size ttl ;;
      test_cache K_eq_dec fromtimestamp (lru_cache_like K_eq_dec) b bullets) = Ok c /\
     LRUCache.stats_current_size (LRUCache.get_stats c) <= max_size /\
     LRUCache.stats_total_requests (LRUCache.get_stats c) =
     Z.of_nat (length (concat (map (@bullet_keys K T) bullets)))) /\
  (exists c,
     (b <- BatchRefreshCache.init K max_size ttl half_ttl max_request_size ;;
      test_cache K_eq_dec fromtimestamp (batch_cache_like K_eq_dec) b bullets) = Ok c /\
     let st := BatchRefreshCache.stats_base (BatchRefreshCache.get_stats c) in
     LRUCache.stats_current_size st <= max_size /\
     LRUCache.stats_total_requests st =
     Z.of_nat (length (concat (map (@bullet_keys K T) bullets)))).
Proof.
  intros Hmax. split.
  - cbn [LRUCache.init bind]. unfold test_cache.
    destruct (@test_cache_run _ (lru_cache_like K_eq_dec)
                (bounded max_size (Z.of_nat (length (all_keys bullets)))))
      with (bs := bullets) (al := @nil K)
           (c := LRUCache.mk max_size ttl (total_seconds ttl)
                             (OrderedDict.empty K LRUCache.entry) 0 0 0 0 0)
      as (al' & c' & Hrun & Hm & Hs & Ht).
    + intros b bs al c. now apply lru_round_bounded.
    + cbn. repeat split. lia.
    + rewrite Hrun. cbn [bind snd]. exists c'. split; [reflexivity|].
      cbn [LRUCache.get_stats LRUCache.stats_current_size
           LRUCache.stats_total_requests].
      unfold LRUCache.size, LRUCache.total_requests in *.
      cbn [map concat length] in Ht. split; lia.
  - cbn [BatchRefreshCache.init LRUCache.init bind]. unfold test_cache.
    destruct (@test_cache_run _ (batch_cache_like K_eq_dec)
                (fun bs al c =>
                   bounded max_size (Z.of_nat (length (all_keys bullets)))
                           bs al (BatchRefreshCache.base c)))
      with (bs := bullets) (al := @nil K)
           (c := BatchRefreshCache.mk
                   (LRUCache.mk max_size ttl (total_seconds ttl)
                                (OrderedDict.empty K LRUCache.entry) 0 0 0 0 0)
                   half_ttl max_request_size (float_mul (total_seconds ttl) half_ttl) [] 0)
      as (al' & c' & Hrun & Hm & Hs & Ht).
    + intros b bs al c. now apply batch_round_bounded.
    + cbn. repeat split. lia.
    + rewrite Hrun. cbn [bind snd]. exists c'. split; [reflexivity|].
      cbn [BatchRefreshCache.get_stats BatchRefreshCache.stats_base
           LRUCache.get_stats LRUCache.stats_current_size
           LRUCache.stats_total_requests].
      unfold LRUCache.size, LRUCache.total_requests in *.
      cbn [map concat length] in Ht. split; lia.
Qed.

Local Abbreviation fits M :=
  (fun b : bullet K T =>
     NoDup (bullet_keys b) /\ Z.of_nat (length (bullet_keys b)) <= M%Z).

Local Abbreviation seen_first M N all :=
  (fun (bs : list (bullet K T)) (al : list K) (b : LRUCache.t K) =>
     Forall (fits M) bs /\
     LRUCache.max_size b = M%Z /\ LRUCache.size b <= M /\
     LRUCache.ttl_seconds b = total_seconds (LRUCache.ttl b) /\
     0 <= LRUCache.ttl b /\
     (forall k, getitem k (cache b) <> None -> In k al) /\
     Z.of_nat (length al) <= LRUCache.hits b /\
     (forall k : K, In k all -> In k al \/ In k (all_keys bs)) /\
     LRUCache.total_requests b + Z.of_nat (length (all_keys bs)) = N%Z).

Lemma contains_held (k : K) (d : OrderedDict.t K LRUCache.entry) :
  OrderedDict.contains K_eq_dec k d = true <-> getitem k d <> None.
Proof.
  unfold OrderedDict.contains. destruct (getitem k d).
  - split; [discriminate|reflexivity].
  - split; [discriminate|congruence].
Qed.

Lemma first_time_covers (al keys : list K) (k : K) :
  In k keys -> In k (al ++ first_time_bullets K_eq_dec al keys).
Proof.
  intros Hk. rewrite first_time_filter. apply in_or_app.
  destruct (in_dec K_eq_dec k al) as [Hin|Hout]; [now left|].
  right. apply filter_In. split; [assumption|].
  now destruct (in_dec K_eq_dec k al).
Qed.

Lemma lru_round_seen_first (M N : Z) (all : list K) (b : bullet K T)
      (bs : list (bullet K T)) (al : list K) (c : LRUCache.t K) :
  1 <= M ->
  seen_first M N all (b :: bs) al c ->
  exists c1 r c2,
    cl_add_keys (lru_cache_like K_eq_dec) c
                (first_time_bullets K_eq_dec al (bullet_keys b))
                (fromtimestamp (bullet_timestamp b)) = Ok c1 /\
    cl_get (lru_cache_like K_eq_dec) c1 (bullet_keys b)
           (fromtimestamp (bullet_timestamp b)) = Ok (r, c2) /\
    seen_first M N all bs (al ++ first_time_bullets K_eq_dec al (bullet_keys b)) c2.
Proof.
  intros HM (Hfits & Hm & Hs & Hts & Hpos & Hal & Hhits & Hall & Ht).
  pose proof (Forall_inv_tail Hfits) as Hfits'.
  destruct (Forall_inv Hfits) as [Hnd Hfit].
  destruct (round_safe (fromtimestamp (bullet_timestamp b))
              (fromtimestamp (bullet_timestamp b)) c
              (first_time_bullets K_eq_dec al (bullet_keys b)) (bullet_keys b))
    as (s1 & c' & Hadd & Hget & _ & _ & Hm' & Ht' & Hts' & Hs' & Htot'); [lia|lia|].
  destruct (@round_first_time (fromtimestamp (bullet_timestamp b))
              (fromtimestamp (bullet_timestamp b)) c al (bullet_keys b) s1 c')
    as (Hh & Hheld); try assumption; try lia.
  exists s1, (repeat 0 (length (bullet_keys b))), c'.
  split; [exact Hadd|]. split; [exact Hget|].
  split; [assumption|]. split; [congruence|]. split; [lia|].
  split; [congruence|]. split; [congruence|]. split; [exact Hheld|].
  split; [rewrite length_app, Nat2Z.inj_add; lia|].
  split.
  - intros k Hk. destruct (Hall k Hk) as [H|H].
    + left. apply in_or_app. now left.
    + cbn [map concat] in H. apply in_app_or in H. destruct H as [H|H].
      * left. now apply first_time_covers.
      * now right.
  - cbn [map concat] in Ht. rewrite length_app, Nat2Z.inj_add in Ht. lia.
Qed.

Lemma batch_round_seen_first (M N : Z) (all : list K) (b : bullet K T)
      (bs : list (bullet K T)) (al : list K) (c : BatchRefreshCache.t K) :
  1 <= M ->
  seen_first M N all (b :: bs) al (BatchRefreshCache.base c) ->
  exists c1 r c2,
    cl_add_keys (batch_cache_like K_eq_dec) c
                (first_time_bullets K_eq_dec al (bullet_keys b))
                (fromtimestamp (bullet_timestamp b)) = Ok c1 /\
    cl_get (batch_cache_like K_eq_dec) c1 (bullet_keys b)
           (fromtimestamp (bullet_timestamp b)) = Ok (r, c2) /\
    seen_first M N all bs (al ++ first_time_bullets K_eq_dec al (bullet_keys b))
               (BatchRefreshCache.base c2).
Proof.
  intros HM (Hfits & Hm & Hs & Hts & Hpos & Hal & Hhits & Hall & Ht).
  pose proof (Forall_inv_tail Hfits) as Hfits'.
  destruct (Forall_inv Hfits) as [Hnd Hfit].
  destruct (round_safe (fromtimestamp (bullet_timestamp b))
              (fromtimestamp (bullet_timestamp b)) (BatchRefreshCache.base c)
              (first_time_bullets K_eq_dec al (bullet_keys b)) (bullet_keys b))
    as (s1 & c' & Hadd & Hget & _ & _ & Hm' & Ht' & Hts' & Hs' & Htot'); [lia|lia|].
  destruct (@round_first_time (fromtimestamp (bullet_timestamp b))
              (fromtimestamp (bullet_timestamp b)) (BatchRefreshCache.base c)
              al (bullet_keys b) s1 c')
    as (Hh & Hheld); try assumption; try lia.
  destruct (batch_round (fromtimestamp (bullet_timestamp b)) c
              (first_time_bullets K_eq_dec al (bullet_keys b)) (bullet_keys b))
    as (s1' & b1 & c2 & Hadd' & Hget' & Hbadd & Hbget & Hbase & Hsame & Hsize); [lia|].
  rewrite Hadd in Hadd'. injection Hadd' as <-.
  rewrite Hget in Hget'. injection Hget' as <-.
  exists (BatchRefreshCache.with_base c s1), (repeat 0 (length (bullet_keys b))), c2.
  split; [exact Hbadd|]. split; [exact Hbget|].
  assert (Hf : LRUCache.max_size (BatchRefreshCache.base c2) = LRUCache.max_size c' /\
               LRUCache.ttl (BatchRefreshCache.base c2) = LRUCache.ttl c' /\
               LRUCache.ttl_seconds (BatchRefreshCache.base c2) =
               LRUCache.ttl_seconds c' /\
               LRUCache.hits (BatchRefreshCache.base c2) = LRUCache.hits c' /\
               LRUCache.total_requests (BatchRefreshCache.base c2) =
               LRUCache.total_requests c').
  { rewrite Hbase. now destruct c'. }
  destruct Hf as (Hf1 & Hf2 & Hf3 & Hf4 & Hf5).
  split; [assumption|]. split; [congruence|]. split; [lia|].
  split; [congruence|]. split; [congruence|].
  split.
  { intros k Hk. apply Hheld. apply contains_held. rewrite <- Hsame.
    now apply contains_held. }
  split; [rewrite length_app, Nat2Z.inj_add; lia|].
  split.
  - intros k Hk. destruct (Hall k Hk) as [H|H].
    + left. apply in_or_app. now left.
    + cbn [map concat] in H. apply in_app_or in H. destruct H as [H|H].
      * left. now apply first_time_covers.
      * now right.
  - cbn [map concat] in Ht. rewrite length_app, Nat2Z.inj_add in Ht. lia.
Qed.

(** What the invariant gives when the loop has ended. *)
Lemma seen_first_end (M N : Z) (all al : list K) (c : LRUCache.t K) :
  seen_first M N all [] al c ->
  Z.of_nat (length (nodup K_eq_dec all)) <= LRUCache.hits c /\
  LRUCache.misses c <= N - Z.of_nat (length (nodup K_eq_dec all)).
Proof.
  intros (_ & _ & _ & _ & _ & _ & Hhits & Hall & Ht).
  assert (Hle : (length (nodup K_eq_dec all) <= length al)%nat).
  { apply NoDup_incl_length; [apply NoDup_nodup|].
    intros k Hk. apply nodup_In in Hk. destruct (Hall k Hk) as [H|[]]. exact H. }
  unfold LRUCache.total_requests in Ht. cbn [map concat length] in Ht. lia.
Qed.

(** X12. In [test_cache] only a key that an earlier bullet has shown can
    miss.  When no bullet repeats a key within itself or has more than
    [max_size] keys, and [ttl] is not negative, every first appearance
    of a key is counted as a hit, since the key is inserted with the
    time of the bullet just before it is looked up: [hits] is at least
    the number of distinct keys, [misses] at most the number of repeated
    appearances.  This holds for both classes. *)
Theorem first_appearances_are_hits
        (max_size : Z) (ttl : timedelta) (half_ttl : float) (max_request_size : Z)
        (bullets : list (bullet K T)) :
  1 <= max_size ->
  0 <= ttl ->
  Forall (fun b : bullet K T =>
            NoDup (bullet_keys b) /\
            Z.of_nat (length (bullet_keys b)) <= max_size) bullets ->
  let appearances := Z.of_nat (length (concat (map (@bullet_keys K T) bullets))) in
  let distinct :=
    Z.of_nat (length (nodup K_eq_dec (concat (map (@bullet_keys K T) bullets)))) in
  (exists c,
     (b <- LRUCache.init K max_size ttl ;;
      test_cache K_eq_dec fromtimestamp (lru_cache_like K_eq_dec) b bullets) = Ok c /\
     distinct <= LRUCache.stats_hits (LRUCache.get_stats c) /\
     LRUCache.stats_misses (LRUCache.get_stats c) <= appearances - distinct) /\
  (exists c,
     (b <- BatchRefreshCache.init K max_size ttl half_ttl max_request_size ;;
      test_cache K_eq_dec fromtimestamp (batch_cache_like K_eq_dec) b bullets) = Ok c /\
     let st := BatchRefreshCache.stats_base (BatchRefreshCache.get_stats c) in
     distinct <= LRUCache.stats_hits st /\
     LRUCache.stats_misses st <= appearances - distinct).
Proof.
  intros Hmax Hpos Hfits appearances distinct. split.
  - cbn [LRUCache.init bind]. unfold test_cache.
    destruct (@test_cache_run _ (lru_cache_like K_eq_dec)
                (seen_first max_size appearances (all_keys bullets)))
      with (bs := bullets) (al := @nil K)
           (c := LRUCache.mk max_size ttl (total_seconds ttl)
                             (OrderedDict.empty K LRUCache.entry) 0 0 0 0 0)
      as (al' & c' & Hrun & Hend).
    + intros b bs al c. now apply lru_round_seen_first.
    + split; [exact Hfits|]. split; [reflexivity|].
      split; [cbn; lia|]. split; [reflexivity|]. split; [exact Hpos|].
      split; [intros k H; now elim H|]. split; [cbn; lia|].
      split; [intros k H; now right|]. subst appearances. cbn. lia.
    + rewrite Hrun. cbn [bind snd]. exists c'. split; [reflexivity|].
      apply seen_first_end in Hend. exact Hend.
  - cbn [BatchRefreshCache.init LRUCache.init bind]. unfold test_cache.
    destruct (@test_cache_run _ (batch_cache_like K_eq_dec)
                (fun bs al c =>
                   seen_first max_size appearances (all_keys bullets)
                              bs al (BatchRefreshCache.base c)))
      with (bs := bullets) (al := @nil K)
           (c := BatchRefreshCache.mk
                   (LRUCache.mk max_size ttl (total_seconds ttl)
                                (OrderedDict.empty K LRUCache.entry) 0 0 0 0 0)
                   half_ttl max_request_size (float_mul (total_seconds ttl) half_ttl) [] 0)
      as (al' & c' & Hrun & Hend).
    + intros b bs al c. now apply batch_round_seen_first.
    + split; [exact Hfits|]. split; [reflexivity|].
      split; [cbn; lia|]. split; [reflexivity|]. split; [exact Hpos|].
      split; [intros k H; now elim H|]. split; [cbn; lia|].
      split; [intros k H; now right|]. subst appearances. cbn. lia.
    + rewrite Hrun. cbn [bind snd]. exists c'. split; [reflexivity|].
      apply seen_first_end in Hend. exact Hend.
Qed.

End HarnessFacts.

Section Window.
Variable K : Type.
Variable K_eq_dec : forall x y : K, {x = y} + {x <> y}.

Local Abbreviation getitem := (@OrderedDict.getitem K LRUCache.entry K_eq_dec).
Local Abbreviation cache := (@LRUCache.cache K).

Lemma near_key_window (self : BatchRefreshCache.t K) (rt : datetime) (k x : K) :
  LRUCache.ttl_seconds (BatchRefreshCache.base self) =
  total_seconds (LRUCache.ttl (BatchRefreshCache.base self)) ->
  BatchRefreshCache.half_ttl_seconds self =
  float_mul (total_seconds (LRUCache.ttl (BatchRefreshCache.base self))) float_half ->
  0 < LRUCache.ttl (BatchRefreshCache.base self) < resolution_limit ->
  (forall v ts, getitem k (cache (BatchRefreshCache.base self)) = Some (v, ts) ->
                2 * (rt - ts) < resolution_limit) ->
  In x (BatchRefreshCache.near_key K_eq_dec self rt [] k) <->
  x = k /\ ~ In k (BatchRefreshCache.refresh_batch self) /\
  exists v ts,
    getitem k (cache (BatchRefreshCache.base self)) = Some (v, ts) /\
    LRUCache.ttl (BatchRefreshCache.base self) < 2 * (rt - ts) /\
    rt - ts <= LRUCache.ttl (BatchRefreshCache.base self).
Proof.
  intros Httl Hhalf Hrange Hage. unfold BatchRefreshCache.near_key.
  destruct (getitem k (cache (BatchRefreshCache.base self))) as [[v ts]|] eqn:Ek.
  2:{ split; [intros []|]. intros (_ & _ & v & ts & H & _). discriminate. }
  specialize (Hage v ts eq_refl). unfold resolution_limit in *.
  unfold LRUCache._is_expired_at_time, BatchRefreshCache._is_near_expiration.
  rewrite Httl, Hhalf.
  rewrite total_seconds_gt_iff by lia.
  rewrite half_total_seconds_gt_iff by lia.
  destruct (Z.ltb_spec (LRUCache.ttl (BatchRefreshCache.base self)) (rt - ts))
    as [Hexp|Hlive]; cbn [negb].
  { split; [intros []|]. intros (_ & _ & v' & ts' & H & _ & Hle).
    injection H as _ <-. lia. }
  destruct (Z.ltb_spec (LRUCache.ttl (BatchRefreshCache.base self)) (2 * (rt - ts)))
    as [Hnear|Hyoung].
  2:{ split; [intros []|]. intros (_ & _ & v' & ts' & H & Hlt & _).
      injection H as _ <-. lia. }
  destruct (in_dec K_eq_dec k (BatchRefreshCache.refresh_batch self)) as [Hin|Hout].
  { split; [intros []|]. intros (_ & Hn & _). contradiction. }
  cbn [app]. split.
  - intros [<-|[]]. split; [reflexivity|]. split; [assumption|].
    exists v, ts. auto.
  - intros (-> & _). now left.
Qed.

(** X13. Which keys a [get] call of the batch layer puts on the refresh
    queue, for [half_ttl = 0.5] and the fields as [__init__] sets them:
    a requested key that is held and not yet queued is queued when its
    age is above half of [ttl] and at most [ttl].  The code compares
    floats of seconds; the statement holds for a positive [ttl] below
    [2^33] seconds and an age below [2^32] seconds, where the floats
    tell every microsecond and every half microsecond apart. *)
Theorem queued_keys_are_in_the_refresh_window
        (self : BatchRefreshCache.t K) (keys : list K) (rt : datetime) (k : K) :
  LRUCache.ttl_seconds (BatchRefreshCache.base self) =
  total_seconds (LRUCache.ttl (BatchRefreshCache.base self)) ->
  BatchRefreshCache.half_ttl_seconds self =
  float_mul (total_seconds (LRUCache.ttl (BatchRefreshCache.base self))) float_half ->
  0 < LRUCache.ttl (BatchRefreshCache.base self) < resolution_limit ->
  (forall v ts, getitem k (cache (BatchRefreshCache.base self)) = Some (v, ts) ->
                2 * (rt - ts) < resolution_limit) ->
  In k (enqueued K_eq_dec self keys rt) <->
  In k (BatchRefreshCache.refresh_batch self) \/
  (In k keys /\
   exists v ts,
     getitem k (cache (BatchRefreshCache.base self)) = Some (v, ts) /\
     LRUCache.ttl (BatchRefreshCache.base self) < 2 * (rt - ts) /\
     rt - ts <= LRUCache.ttl (BatchRefreshCache.base self)).
Proof.
  intros Httl Hhalf Hrange Hage. unfold enqueued. rewrite near_keys_fold. cbn [app].
  rewrite in_app_iff, in_flat_map. split.
  - intros [Hq|(x & Hx & Hin)]; [now left|].
    destruct (@near_key_one K K_eq_dec self rt x k Hin) as [Ekx _]. subst x.
    apply (@near_key_window self rt k k Httl Hhalf Hrange Hage) in Hin.
    destruct Hin as (_ & _ & Hw). right. split; assumption.
  - intros [Hq|(Hk & Hw)]; [now left|].
    destruct (in_dec K_eq_dec k (BatchRefreshCache.refresh_batch self))
      as [Hin|Hout]; [now left|].
    right. exists k. split; [assumption|].
    apply (@near_key_window self rt k k Httl Hhalf Hrange Hage). auto.
Qed.

End Window.

(** ** The further theorems at sample objects *)

Lemma add_keys_overflow_at_sample :
  1 <= LRUCache.max_size sample_cache /\
  OrderedDict.len (LRUCache.cache sample_cache) <= LRUCache.max_size sample_cache /\
  NoDup [3; 4] /\
  (forall k, In k [3; 4] ->
             OrderedDict.getitem Z.eq_dec k (LRUCache.cache sample_cache) = None) /\
  LRUCache._add_keys_to_cache Z.eq_dec sample_cache [3; 4] (seconds 1) =
  Ok (LRUCache.with_evictions
        (LRUCache.with_cache sample_cache
           [(2, (0, 0)); (3, (0, seconds 1)); (4, (0, seconds 1))])
        1).
Proof.
  assert (H1 : 1 <= LRUCache.max_size sample_cache) by (simpl; lia).
  assert (H2 : OrderedDict.len (LRUCache.cache sample_cache) <=
               LRUCache.max_size sample_cache) by (vm_compute; discriminate).
  assert (H3 : NoDup [3; 4]) by (repeat constructor; simpl; intuition lia).
  assert (H4 : forall k, In k [3; 4] ->
                         OrderedDict.getitem Z.eq_dec k (LRUCache.cache sample_cache) =
                         None).
  { intros k [<-|[<-|[]]]; reflexivity. }
  split; [exact H1|]. split; [exact H2|]. split; [exact H3|]. split; [exact H4|].
  exact (@add_keys_evicts_the_overflow Z Z.eq_dec (seconds 1) [3; 4] sample_cache
           H1 H2 H3 H4).
Defined.

Lemma distinct_keys_overflow_at_sample :
  1 <= LRUCache.max_size sample_cache /\
  LRUCache.size sample_cache <= LRUCache.max_size sample_cache /\
  NoDup (OrderedDict.keys (LRUCache.cache sample_cache)) /\
  NoDup [1; 3; 4; 5] /\
  exists c',
    LRUCache.get Z.eq_dec 0 sample_cache [1; 3; 4; 5] (Some (seconds 5)) =
    Ok ([0; 0; 0; 0], c') /\
    LRUCache.evictions c' = 2 /\
    LRUCache.size c' = 3 /\
    exists old,
      LRUCache.cache c' =
      old ++ [(3, (0, seconds 5)); (4, (0, seconds 5)); (5, (0, seconds 5))].
Proof.
  assert (H1 : 1 <= LRUCache.max_size sample_cache) by (simpl; lia).
  assert (H2 : LRUCache.size sample_cache <= LRUCache.max_size sample_cache)
    by (vm_compute; discriminate).
  assert (H3 : NoDup (OrderedDict.keys (LRUCache.cache sample_cache)))
    by (simpl; repeat constructor; simpl; intuition lia).
  assert (H4 : NoDup [1; 3; 4; 5]) by (repeat constructor; simpl; intuition lia).
  split; [exact H1|]. split; [exact H2|]. split; [exact H3|]. split; [exact H4|].
  exact (@distinct_keys_evict_the_overflow Z Z.eq_dec 0 sample_cache [1; 3; 4; 5]
           (seconds 5) H1 H2 H3 H4).
Defined.

Lemma bulk_lookup_at_sample :
  1 <= LRUCache.max_size sample_cache /\
  LRUCache.size sample_cache <= LRUCache.max_size sample_cache /\
  NoDup (OrderedDict.keys (LRUCache.cache sample_cache)) /\
  NoDup [3; 4; 5] /\
  Z.of_nat (length [3; 4; 5]) <= LRUCache.max_size sample_cache /\
  exists c',
    LRUCache.get Z.eq_dec 0 sample_cache [3; 4; 5] (Some (seconds 5)) =
    Ok ([0; 0; 0], c') /\
    forall k, In k [3; 4; 5] ->
              OrderedDict.contains Z.eq_dec k (LRUCache.cache c') = true.
Proof.
  assert (H1 : 1 <= LRUCache.max_size sample_cache) by (simpl; lia).
  assert (H2 : LRUCache.size sample_cache <= LRUCache.max_size sample_cache)
    by (vm_compute; discriminate).
  assert (H3 : NoDup (OrderedDict.keys (LRUCache.cache sample_cache)))
    by (simpl; repeat constructor; simpl; intuition lia).
  assert (H4 : NoDup [3; 4; 5]) by (repeat constructor; simpl; intuition lia).
  assert (H5 : Z.of_nat (length [3; 4; 5]) <= LRUCache.max_size sample_cache)
    by (vm_compute; discriminate).
  split; [exact H1|]. split; [exact H2|]. split; [exact H3|]. split; [exact H4|].
  split; [exact H5|].
  exact (@bulk_lookup_caches_all_keys Z Z.eq_dec 0 sample_cache [3; 4; 5]
           (seconds 5) H1 H2 H3 H4 H5).
Defined.

Lemma repeated_lookup_at_sample :
  1 <= LRUCache.max_size sample_cache /\
  LRUCache.size sample_cache <= LRUCache.max_size sample_cache /\
  LRUCache.wf sample_cache /\
  0 <= LRUCache.ttl sample_cache /\
  NoDup [1; 3] /\
  Z.of_nat (length [1; 3]) <= LRUCache.max_size sample_cache /\
  exists c1 c2,
    LRUCache.get Z.eq_dec 0 sample_cache [1; 3] (Some (seconds 5)) =
    Ok ([0; 0], c1) /\
    LRUCache.get Z.eq_dec 0 c1 [1; 3] (Some (seconds 5)) = Ok ([0; 0], c2) /\
    LRUCache.hits c2 = LRUCache.hits c1 + 2 /\
    LRUCache.misses c2 = LRUCache.misses c1 /\
    LRUCache.bulk_misses c2 = LRUCache.bulk_misses c1 /\
    LRUCache.expirations c2 = LRUCache.expirations c1 /\
    LRUCache.evictions c2 = LRUCache.evictions c1.
Proof.
  assert (H1 : 1 <= LRUCache.max_size sample_cache) by (simpl; lia).
  assert (H2 : LRUCache.size sample_cache <= LRUCache.max_size sample_cache)
    by (vm_compute; discriminate).
  assert (H3 : LRUCache.wf sample_cache).
  { split; [|reflexivity]. simpl. repeat constructor; simpl; intuition lia. }
  assert (H4 : 0 <= LRUCache.ttl sample_cache) by (vm_compute; discriminate).
  assert (H5 : NoDup [1; 3]) by (repeat constructor; simpl; intuition lia).
  assert (H6 : Z.of_nat (length [1; 3]) <= LRUCache.max_size sample_cache)
    by (vm_compute; discriminate).
  split; [exact H1|]. split; [exact H2|]. split; [exact H3|]. split; [exact H4|].
  split; [exact H5|]. split; [exact H6|].
  exact (@repeated_lookup_hits_every_key Z Z.eq_dec 0 0 sample_cache [1; 3]
           (seconds 5) H1 H2 H3 H4 H5 H6).
Defined.

Lemma batch_get_follows_base_at_sample :
  1 <= LRUCache.max_size (BatchRefreshCache.base sample_batch) /\
  exists b1 c',
    LRUCache.get Z.eq_dec 0 (BatchRefreshCache.base sample_batch) [3]
                 (Some (seconds 7)) = Ok ([0], b1) /\
    BatchRefreshCache.get Z.eq_dec 0 sample_batch [3] (Some (seconds 7)) =
    Ok ([0], c') /\
    BatchRefreshCache.base c' =
    LRUCache.with_cache b1 (LRUCache.cache (BatchRefreshCache.base c')) /\
    (forall k,
        OrderedDict.contains Z.eq_dec k (LRUCache.cache (BatchRefreshCache.base c')) =
        OrderedDict.contains Z.eq_dec k (LRUCache.cache b1)) /\
    LRUCache.size (BatchRefreshCache.base c') <= LRUCache.size b1.
Proof.
  assert (H1 : 1 <= LRUCache.max_size (BatchRefreshCache.base sample_batch))
    by (simpl; lia).
  split; [exact H1|].
  exact (@batch_get_follows_base Z Z.eq_dec 0 sample_batch [3] (Some (seconds 7)) H1).
Defined.

Lemma total_requests_at_capacity_two :
  1 <= 2 /\
  (exists c,
     (b <- LRUCache.init Z 2 (seconds 10) ;;
      lru_run Z.eq_dec b
        [mk_call 0 [1; 2] (Some 0); mk_call 0 [3; 3; 4] (Some (seconds 1))]) = Ok c /\
     LRUCache.stats_total_requests (LRUCache.get_stats c) = 5 /\
     LRUCache.stats_hits (LRUCache.get_stats c) +
     LRUCache.stats_misses (LRUCache.get_stats c) = 5 /\
     LRUCache.stats_bulk_misses (LRUCache.get_stats c) <= 2) /\
  (exists c,
     (b <- BatchRefreshCache.init Z 2 (seconds 10) float_half 2 ;;
      batch_run Z.eq_dec b
        [mk_call 0 [1; 2] (Some 0); mk_call 0 [3; 3; 4] (Some (seconds 1))]) = Ok c /\
     let st := BatchRefreshCache.stats_base (BatchRefreshCache.get_stats c) in
     LRUCache.stats_total_requests st = 5 /\
     LRUCache.stats_hits st + LRUCache.stats_misses st = 5 /\
     LRUCache.stats_bulk_misses st <= 2).
Proof.
  assert (H1 : 1 <= 2) by lia.
  split; [exact H1|].
  exact (@total_requests_counts_every_key Z Z.eq_dec 2 (seconds 10) float_half 2
           [mk_call 0 [1; 2] (Some 0); mk_call 0 [3; 3; 4] (Some (seconds 1))] H1).
Defined.

Lemma stats_agree_at_capacity_two :
  1 <= 2 /\
  (exists c,
     (b <- LRUCache.init Z 2 (seconds 10) ;;
      lru_run Z.eq_dec b
        [mk_call 0 [1; 2] (Some 0); mk_call 0 [3; 3; 4] (Some (seconds 1))]) = Ok c /\
     let st := LRUCache.get_stats c in
     0 <= LRUCache.stats_hits st /\
     0 <= LRUCache.stats_expirations st <= LRUCache.stats_misses st /\
     0 <= LRUCache.stats_bulk_misses st <= LRUCache.stats_misses st /\
     0 <= LRUCache.stats_evictions st /\
     LRUCache.stats_current_size st + LRUCache.stats_evictions st <=
     LRUCache.stats_misses st - LRUCache.stats_expirations st) /\
  (exists c,
     (b <- BatchRefreshCache.init Z 2 (seconds 10) float_half 2 ;;
      batch_run Z.eq_dec b
        [mk_call 0 [1; 2] (Some 0); mk_call 0 [3; 3; 4] (Some (seconds 1))]) = Ok c /\
     let st := BatchRefreshCache.stats_base (BatchRefreshCache.get_stats c) in
     0 <= LRUCache.stats_hits st /\
     0 <= LRUCache.stats_expirations st <= LRUCache.stats_misses st /\
     0 <= LRUCache.stats_bulk_misses st <= LRUCache.stats_misses st /\
     0 <= LRUCache.stats_evictions st /\
     LRUCache.stats_current_size st + LRUCache.stats_evictions st <=
     LRUCache.stats_misses st - LRUCache.stats_expirations st).
Proof.
  assert (H1 : 1 <= 2) by lia.
  split; [exact H1|].
  exact (@stats_agree_with_one_another Z Z.eq_dec 2 (seconds 10) float_half 2
           [mk_call 0 [1; 2] (Some 0); mk_call 0 [3; 3; 4] (Some (seconds 1))] H1).
Defined.

Lemma queue_below_threshold_at_capacity_three :
  1 <= 3 /\ 1 <= 2 /\
  exists c,
    (b <- BatchRefreshCache.init Z 3 (seconds 10) float_half 2 ;;
     batch_run Z.eq_dec b
       [mk_call 0 [1; 2; 3] (Some 0); mk_call 0 [2] (Some (seconds 6));
        mk_call 0 [3] (Some (seconds 7))]) = Ok c /\
    let st := BatchRefreshCache.get_stats c in
    BatchRefreshCache.stats_refresh_batch_size st < 2 /\
    BatchRefreshCache.stats_max_request_size st = 2 /\
    0 <= BatchRefreshCache.stats_batch_updates st <= 3.
Proof.
  assert (H1 : 1 <= 3) by lia.
  assert (H2 : 1 <= 2) by lia.
  split; [exact H1|]. split; [exact H2|].
  exact (@queue_stays_below_threshold Z Z.eq_dec 3 (seconds 10) float_half 2
           [mk_call 0 [1; 2; 3] (Some 0); mk_call 0 [2] (Some (seconds 6));
            mk_call 0 [3] (Some (seconds 7))] H1 H2).
Defined.

Lemma clear_at_capacity_two :
  1 <= 2 /\
  (exists c,
     (b <- LRUCache.init Z 2 (seconds 10) ;;
      lru_run Z.eq_dec b
        [mk_call 0 [1; 2] (Some 0); mk_call 0 [3; 3; 4] (Some (seconds 1))]) = Ok c /\
     Ok (LRUCache.clear c) = LRUCache.init Z 2 (seconds 10)) /\
  (exists c,
     (b <- BatchRefreshCache.init Z 2 (seconds 10) float_half 2 ;;
      batch_run Z.eq_dec b
        [mk_call 0 [1; 2] (Some 0); mk_call 0 [3; 3; 4] (Some (seconds 1))]) = Ok c /\
     Ok (BatchRefreshCache.clear c) =
     BatchRefreshCache.init Z 2 (seconds 10) float_half 2).
Proof.
  assert (H1 : 1 <= 2) by lia.
  split; [exact H1|].
  exact (@clear_gives_back_the_new_object Z Z.eq_dec 2 (seconds 10) float_half 2
           [mk_call 0 [1; 2] (Some 0); mk_call 0 [3; 3; 4] (Some (seconds 1))] H1).
Defined.

Lemma test_cache_counts_at_capacity_two :
  1 <= 2 /\
  (exists c,
     (b <- LRUCache.init Z 2 (seconds 10) ;;
      test_cache Z.eq_dec seconds (lru_cache_like Z.eq_dec) b
        [mk_bullet [1; 2] 0; mk_bullet [2; 3; 3] 1]) = Ok c /\
     LRUCache.stats_current_size (LRUCache.get_stats c) <= 2 /\
     LRUCache.stats_total_requests (LRUCache.get_stats c) = 5) /\
  (exists c,
     (b <- BatchRefreshCache.init Z 2 (seconds 10) float_half 2 ;;
      test_cache Z.eq_dec seconds (batch_cache_like Z.eq_dec) b
        [mk_bullet [1; 2] 0; mk_bullet [2; 3; 3] 1]) = Ok c /\
     let st := BatchRefreshCache.stats_base (BatchRefreshCache.get_stats c) in
     LRUCache.stats_current_size st <= 2 /\
     LRUCache.stats_total_requests st = 5).
Proof.
  assert (H1 : 1 <= 2) by lia.
  split; [exact H1|].
  exact (@test_cache_counts_every_key Z Z.eq_dec Z seconds 2 (seconds 10) float_half 2
           [mk_bullet [1; 2] 0; mk_bullet [2; 3; 3] 1] H1).
Defined.

Lemma first_appearances_at_capacity_two :
  1 <= 2 /\
  0 <= seconds 10 /\
  Forall (fun b : bullet Z Z =>
            NoDup (bullet_keys b) /\ Z.of_nat (length (bullet_keys b)) <= 2)
         [mk_bullet [1; 2] 0; mk_bullet [2; 3] 1] /\
  (exists c,
     (b <- LRUCache.init Z 2 (seconds 10) ;;
      test_cache Z.eq_dec seconds (lru_cache_like Z.eq_dec) b
        [mk_bullet [1; 2] 0; mk_bullet [2; 3] 1]) = Ok c /\
     3 <= LRUCache.stats_hits (LRUCache.get_stats c) /\
     LRUCache.stats_misses (LRUCache.get_stats c) <= 4 - 3) /\
  (exists c,
     (b <- BatchRefreshCache.init Z 2 (seconds 10) float_half 2 ;;
      test_cache Z.eq_dec seconds (batch_cache_like Z.eq_dec) b
        [mk_bullet [1; 2] 0; mk_bullet [2; 3] 1]) = Ok c /\
     let st := BatchRefreshCache.stats_base (BatchRefreshCache.get_stats c) in
     3 <= LRUCache.stats_hits st /\
     LRUCache.stats_misses st <= 4 - 3).
Proof.
  assert (H1 : 1 <= 2) by lia.
  assert (H2 : 0 <= seconds 10) by (vm_compute; discriminate).
  assert (H3 : Forall (fun b : bullet Z Z =>
                         NoDup (bullet_keys b) /\
                         Z.of_nat (length (bullet_keys b)) <= 2)
                      [mk_bullet [1; 2] 0; mk_bullet [2; 3] 1]).
  { repeat constructor; simpl; intuition lia. }
  split; [exact H1|]. split; [exact H2|]. split; [exact H3|].
  exact (@first_appearances_are_hits Z Z.eq_dec Z seconds 2 (seconds 10) float_half 2
           [mk_bullet [1; 2] 0; mk_bullet [2; 3] 1] H1 H2 H3).
Defined.

Lemma refresh_window_at_sample :
  LRUCache.ttl_seconds (BatchRefreshCache.base sample_batch) =
  total_seconds (LRUCache.ttl (BatchRefreshCache.base sample_batch)) /\
  BatchRefreshCache.half_ttl_seconds sample_batch =
  float_mul (total_seconds (LRUCache.ttl (BatchRefreshCache.base sample_batch)))
            float_half /\
  0 < LRUCache.ttl (BatchRefreshCache.base sample_batch) < resolution_limit /\
  (forall v ts,
      OrderedDict.getitem Z.eq_dec 3
        (LRUCache.cache (BatchRefreshCache.base sample_batch)) = Some (v, ts) ->
      2 * (seconds 6 - ts) < resolution_limit) /\
  (In 3 (enqueued Z.eq_dec sample_batch [2; 3] (seconds 6)) <->
   In 3 (BatchRefreshCache.refresh_batch sample_batch) \/
   (In 3 [2; 3] /\
    exists v ts,
      OrderedDict.getitem Z.eq_dec 3
        (LRUCache.cache (BatchRefreshCache.base sample_batch)) = Some (v, ts) /\
      LRUCache.ttl (BatchRefreshCache.base sample_batch) < 2 * (seconds 6 - ts) /\
      seconds 6 - ts <= LRUCache.ttl (BatchRefreshCache.base sample_batch))).
Proof.
  assert (H3 : 0 < LRUCache.ttl (BatchRefreshCache.base sample_batch) <
               resolution_limit) by (split; reflexivity).
  assert (H4 : forall v ts,
             OrderedDict.getitem Z.eq_dec 3
               (LRUCache.cache (BatchRefreshCache.base sample_batch)) = Some (v, ts) ->
             2 * (seconds 6 - ts) < resolution_limit).
  { intros v ts E. simpl in E. injection E as _ <-. reflexivity. }
  split; [reflexivity|]. split; [reflexivity|].
  split; [exact H3|]. split; [exact H4|].
  exact (@queued_keys_are_in_the_refresh_window Z Z.eq_dec sample_batch [2; 3]
           (seconds 6) 3 eq_refl eq_refl H3 H4).
Defined.
